(** * LATCH: a shallow embedding of LATCH.h

    The 512-bit LATCH binary descriptor of LATCH.h: the keypoint border
    filter, the descriptor worker [_LATCH] with its SSE arithmetic, and
    the dispatcher [LATCH] that fans the worker out over the keypoints.

    Conventions of the embedding.
    - [float] is IEEE binary32, given by the Standard Library's
      [SpecFloat] at precision 24 and maximal exponent 128, rounding to
      nearest even (the default MXCSR mode).  [sin] and [cos] come from
      the C library and are parameters [sinf], [cosf] of the worker.
    - An [__m128] / [__m128i] register is a [vec4] of four lanes; the
      [_epi32] operations wrap at 32 bits ([wrap32]).
    - Scalar [int] arithmetic is exact on [Z]: a signed overflow is
      undefined in C++, so the model describes the defined executions.
      Conversions between integer types wrap ([wrap32], [to_u32]).
    - The raw pointers [image] and [descriptors] are total maps from a
      byte offset to a byte; staying inside the caller's allocation is
      the caller's obligation.  The [std::vector] of keypoints is a list,
      and indexing it past its size is undefined: [None]. *)

From Stdlib Require Import ZArith List Lia Bool.
From Stdlib Require Import Strings.Byte.
From Stdlib Require Import Floats.SpecFloat.
From stdpp Require Import base list.

Local Open Scope Z_scope.

(** ** Counted loops *)

(** [for (int i = lo; i < hi; ++i) s = body s i]. *)
Fixpoint for_loop {St : Type} (n : nat) (i : Z) (body : St -> Z -> St) (s : St) : St :=
  match n with
  | O => s
  | S n' => for_loop n' (i + 1) body (body s i)
  end.

Definition for_range {St : Type} (lo hi : Z) (body : St -> Z -> St) (s : St) : St :=
  for_loop (Z.to_nat (hi - lo)) lo body s.

(** [sumZ n lo f] is [f lo + f (lo+1) + ... + f (lo+n-1)]. *)
Fixpoint sumZ (n : nat) (lo : Z) (f : Z -> Z) : Z :=
  match n with
  | O => 0
  | S n' => f lo + sumZ n' (lo + 1) f
  end.

(** ** Machine integers *)

(** The value of a 32-bit pattern read as a signed [int]. *)
Definition wrap32 (z : Z) : Z := (z + 2 ^ 31) mod 2 ^ 32 - 2 ^ 31.

(** The conversion of an [int] to [unsigned]. *)
Definition to_u32 (z : Z) : Z := z mod 2 ^ 32.

(** The conversion to [uint8_t] of a store through a [uint8_t*]. *)
Definition to_u8 (z : Z) : Z := z mod 2 ^ 8.

(** ** binary32 *)

Module F32.
Definition prec : Z := 24.
Definition emax : Z := 128.

Definition of_Z (z : Z) : spec_float := binary_normalize prec emax z 0 false.

Definition add : spec_float -> spec_float -> spec_float := SFadd prec emax.
Definition sub : spec_float -> spec_float -> spec_float := SFsub prec emax.
Definition mul : spec_float -> spec_float -> spec_float := SFmul prec emax.
Definition div : spec_float -> spec_float -> spec_float := SFdiv prec emax.

(** [a <= b], [a >= b], [a < b] of C++: false when an operand is NaN. *)
Definition le (a b : spec_float) : bool := SFleb a b.
Definition ge (a b : spec_float) : bool := SFleb b a.
Definition lt (a b : spec_float) : bool := SFltb a b.

Definition is_nan (a : spec_float) : bool :=
  match a with S754_nan => true | _ => false end.

(** The integer nearest to [m * 2^e], a tie going to the even one. *)
Definition round_half_even (m : positive) (e : Z) : Z :=
  match e with
  | Zneg k =>
      let d := 2 ^ Zpos k in
      let q := Zpos m / d in
      let r := Zpos m mod d in
      match 2 * r ?= d with
      | Lt => q
      | Eq => if Z.even q then q else q + 1
      | Gt => q + 1
      end
  | _ => Zpos m * 2 ^ e
  end.

(** CVTPS2DQ on one lane: round to nearest even; NaN, the infinities
    and values outside [int] give the "integer indefinite" 0x80000000. *)
Definition to_int32 (a : spec_float) : Z :=
  match a with
  | S754_zero _ => 0
  | S754_finite s m e =>
      let n := cond_Zopp s (round_half_even m e) in
      if (- 2 ^ 31 <=? n) && (n <? 2 ^ 31) then n else - 2 ^ 31
  | _ => - 2 ^ 31
  end.
End F32.

Definition float : Type := spec_float.

(** ** SSE registers *)

Record vec4 (A : Type) : Type := V4 { lane0 : A; lane1 : A; lane2 : A; lane3 : A }.
Arguments V4 {A} _ _ _ _.
Arguments lane0 {A} _.
Arguments lane1 {A} _.
Arguments lane2 {A} _.
Arguments lane3 {A} _.

Definition __m128 : Type := vec4 float.
Definition __m128i : Type := vec4 Z.

Definition vec4_map {A B : Type} (f : A -> B) (u : vec4 A) : vec4 B :=
  V4 (f (lane0 u)) (f (lane1 u)) (f (lane2 u)) (f (lane3 u)).

Definition vec4_map2 {A B C : Type} (f : A -> B -> C) (u : vec4 A) (v : vec4 B) : vec4 C :=
  V4 (f (lane0 u) (lane0 v)) (f (lane1 u) (lane1 v))
     (f (lane2 u) (lane2 v)) (f (lane3 u) (lane3 v)).

Definition _mm_set_ps1 (a : float) : __m128 := V4 a a a a.
Definition _mm_add_ps : __m128 -> __m128 -> __m128 := vec4_map2 F32.add.
Definition _mm_sub_ps : __m128 -> __m128 -> __m128 := vec4_map2 F32.sub.
Definition _mm_mul_ps : __m128 -> __m128 -> __m128 := vec4_map2 F32.mul.
Definition _mm_div_ps : __m128 -> __m128 -> __m128 := vec4_map2 F32.div.

(** MAXPS and MINPS return the second operand unless the first one is
    strictly greater, respectively smaller: so also when one is NaN. *)
Definition maxps (a b : float) : float := if F32.lt b a then a else b.
Definition minps (a b : float) : float := if F32.lt a b then a else b.
Definition _mm_max_ps : __m128 -> __m128 -> __m128 := vec4_map2 maxps.
Definition _mm_min_ps : __m128 -> __m128 -> __m128 := vec4_map2 minps.

Definition _mm_cvtps_epi32 : __m128 -> __m128i := vec4_map F32.to_int32.

Definition _mm_setzero_si128 : __m128i := V4 0 0 0 0.
Definition _mm_add_epi32 : __m128i -> __m128i -> __m128i :=
  vec4_map2 (fun a b => wrap32 (a + b)).
Definition _mm_sub_epi32 : __m128i -> __m128i -> __m128i :=
  vec4_map2 (fun a b => wrap32 (a - b)).
Definition _mm_mullo_epi32 : __m128i -> __m128i -> __m128i :=
  vec4_map2 (fun a b => wrap32 (a * b)).
Definition _mm_hadd_epi32 (a b : __m128i) : __m128i :=
  V4 (wrap32 (lane0 a + lane1 a)) (wrap32 (lane2 a + lane3 a))
     (wrap32 (lane0 b + lane1 b)) (wrap32 (lane2 b + lane3 b)).

Definition _mm_extract_epi32 (a : __m128i) (imm : Z) : Z :=
  match Z.land imm 3 with
  | 0 => lane0 a
  | 1 => lane1 a
  | 2 => lane2 a
  | _ => lane3 a
  end.

(** ** Memory *)

(** [const uint8_t* image]: the byte at each offset from the pointer. *)
Definition image_t : Type := Z -> byte.

(** [descriptors] seen through [uint8_t*]: the byte at each offset. *)
Definition buffer : Type := Z -> Z.

Definition store_u8 (buf : buffer) (p : Z) (v : Z) : buffer :=
  fun q => if q =? p then to_u8 v else buf q.

(** The sixteen bytes that MOVDQU loads from [image + p]. *)
Definition _mm_loadu_si128 (image : image_t) (p : Z) : Z -> byte :=
  fun k => image (p + k).

(** PMOVZXBD: the four low bytes, each zero-extended to 32 bits. *)
Definition _mm_cvtepu8_epi32 (v : Z -> byte) : __m128i :=
  V4 (Z.of_N (Byte.to_N (v 0))) (Z.of_N (Byte.to_N (v 1)))
     (Z.of_N (Byte.to_N (v 2))) (Z.of_N (Byte.to_N (v 3))).

(** ** The key points *)

Module KeyPoint.
Record t : Type := mk { x : float; y : float; scale : float; angle : float }.
End KeyPoint.

(** ** The triplet table *)

(** [constexpr float triplets[3073]]: 512 rows [ax bx cx ay by cy] and a
    closing 0, written in the source as integer literals. *)
Definition triplets : list Z :=
  [
   -5; -16; -9; 1; 16; -21;
   -7; -10; -3; 16; -14; 9;
   11; 7; 3; 6; 15; -11;
   -22; -12; -22; 2; 12; 21;
   17; 2; 14; -10; 10; -18;
   22; -2; 23; -14; -20; 5;
   4; 24; 4; 16; -11; -21;
   13; 19; 23; -6; 19; -4;
   22; 1; -10; 7; -8; 6;
   -5; 19; -6; 18; 11; -16;
   12; 24; 20; -9; 20; -20;
   -3; 5; 10; -14; -21; 19;
   -3; -17; -5; 9; -1; -19;
   7; 22; 13; -2; -23; 20;
   19; -1; 15; 12; -19; -9;
   -19; -2; -22; 2; -9; 24;
   -2; -11; -3; -21; -18; 7;
   23; 4; 17; 8; 7; -19;
   16; 10; 20; 18; -23; 4;
   -6; -1; 6; 22; -11; -14;
   -24; 15; -23; -15; -14; -11;
   24; 18; 14; -13; -14; -19;
   -17; -11; -21; 10; -12; -17;
   19; 3; -2; -4; 8; 19;
   -18; -8; -18; -3; -15; 5;
   -6; 1; -6; -13; 16; 23;
   -22; -4; -15; -8; -5; 20;
   9; -6; 10; 13; -23; 15;
   20; 11; 9; 12; -24; 22;
   -19; -1; -20; -4; 5; 2;
   -24; 15; -19; 4; -16; -5;
   -23; -11; -16; 10; 5; 19;
   -3; -22; -7; 5; 23; -22;
   -15; -9; -21; 2; 21; 20;
   -18; 16; -12; 11; -10; 4;
   2; 14; 6; -7; -13; 20;
   3; 23; 5; 15; -23; -9;
   1; -1; -3; 8; -4; 7;
   -22; -1; 16; 16; 19; -12;
   14; 9; 19; -12; 13; 12;
   21; -22; 15; 2; -17; 3;
   0; 11; 8; 5; -22; 18;
   -15; 13; -18; 9; 3; -17;
   -12; 8; -21; 10; 5; -18;
   19; 0; -12; 17; 18; -7;
   -14; 1; -12; -20; -7; -2;
   24; 3; -16; 15; -22; 7;
   -17; 24; -24; 13; -14; -24;
   -7; -4; -1; -23; 10; 20;
   -8; -1; -5; -13; 20; -22;
   13; 16; 0; -22; 16; -14;
   -10; 0; -9; 12; -9; -16;
   20; -2; 19; 15; -19; -15;
   -19; 22; -14; 19; 23; -2;
   -24; 10; -8; 16; -3; -1;
   -22; 18; -23; -15; 23; 21;
   9; 9; 21; 10; -23; -24;
   -17; 12; -12; -19; -23; -8;
   19; 0; -18; 17; -16; -19;
   -19; -7; -14; 21; 20; 3;
   20; 8; 17; -2; 0; -10;
   -15; 6; -21; 24; 2; -22;
   -18; 8; -24; 12; 19; -14;
   16; -13; 24; -1; -16; -18;
   23; 4; 20; -1; -10; 22;
   22; 2; 16; -14; -22; 11;
   -14; 24; -9; -19; -16; -6;
   11; 0; -20; -5; 24; -12;
   17; -9; 18; 16; 1; -15;
   15; -24; 24; -10; 16; 11;
   5; -3; 4; 3; -16; -2;
   9; -15; 7; 19; -18; -19;
   11; -5; 14; 6; 22; -10;
   -8; 17; -19; -3; 24; 17;
   13; 24; 9; 16; -20; -4;
   7; 16; 8; -6; 11; 1;
   3; 18; 20; 23; 15; -24;
   22; 2; -12; 15; 18; -10;
   -15; 11; -13; 13; 9; 9;
   -10; 17; -13; -9; 13; -13;
   22; -11; 20; 15; 7; -9;
   18; -11; 17; 0; 16; 11;
   22; -19; 24; -18; -3; -15;
   22; -5; 19; 20; 16; -23;
   21; 0; -17; 14; -8; 2;
   9; 2; 7; 0; 3; 12;
   7; -12; 13; 18; 8; -24;
   -5; -15; -22; -11; -10; 9;
   19; 20; 24; 24; 6; -11;
   -10; 2; -17; 6; -2; -21;
   19; 21; 21; -17; 21; -13;
   -11; -20; -9; 3; -5; -8;
   -3; -7; -1; -20; 23; -9;
   -3; 22; -1; 21; -12; 3;
   -19; 2; -24; -4; -3; 17;
   -16; 2; -19; 10; 1; 20;
   -9; -20; -17; 21; -17; 22;
   -18; -9; -12; 7; 19; -5;
   22; 8; 11; 6; -7; 22;
   -24; 5; -24; 10; -15; -20;
   10; -22; 9; 20; -4; -20;
   -24; 0; -23; 6; -13; -15;
   22; -3; 19; -20; 24; 5;
   10; -1; 8; -23; -9; -5;
   -9; 23; -22; -6; 0; 13;
   -9; 23; -17; -7; -13; -20;
   20; -21; 22; 7; 15; -5;
   24; -24; 12; 24; 22; -12;
   16; -18; 9; -13; 11; -6;
   -10; 2; 18; -9; 15; 18;
   -18; 1; -24; 3; 24; 20;
   -23; -22; -17; 6; -12; 7;
   -19; -18; -2; -18; 22; 13;
   -22; 4; -22; 24; 8; 2;
   7; 10; 20; -12; 19; 21;
   -18; 3; -16; -7; 8; 5;
   -20; 4; -17; -14; -9; -8;
   -7; -20; -20; -6; 18; -3;
   0; 4; 18; 4; -8; -8;
   -15; 1; -17; -18; -22; 10;
   8; 21; 24; 13; 17; -3;
   14; 6; 17; 10; -24; -10;
   -22; 12; -18; 8; -8; 23;
   -13; 21; -15; -8; 18; 11;
   20; 7; 5; 17; 7; -24;
   -7; 1; 9; -12; 14; 17;
   16; -24; 24; 11; -2; 21;
   10; -15; 21; 9; 15; 16;
   -10; 14; -22; 3; -11; 8;
   22; -22; 14; -13; 4; 3;
   -1; 23; -2; 21; -14; -17;
   16; -7; 19; -7; -23; 6;
   21; -15; 6; -22; 6; -4;
   11; -1; -10; 7; -21; -4;
   -10; -2; -13; -23; 23; 5;
   -21; 18; -8; -24; 11; 5;
   -18; 23; -21; -24; -16; 16;
   -8; 19; -23; 6; -13; 23;
   -24; -16; -1; -23; 13; -11;
   -23; 12; -24; -10; 1; 2;
   -14; 2; -20; -20; -11; 24;
   -1; 20; -6; -4; -22; -19;
   12; 13; 15; 2; -16; 1;
   11; -24; 24; 13; 10; 21;
   -10; 8; -13; -12; 10; 24;
   23; -13; 16; 10; -14; 10;
   0; -21; 0; 22; 20; 18;
   24; -13; 18; 7; 7; 19;
   -10; -24; -13; -24; -20; -5;
   19; 0; 21; -4; 21; 16;
   0; -13; -2; -15; 24; 9;
   -12; -10; -6; 19; 6; -16;
   -10; -4; -14; 4; -22; -8;
   24; -18; 20; -7; 24; -1;
   18; -8; 23; 7; 3; -11;
   -20; -11; -5; -6; 17; -19;
   12; 1; 12; 0; -11; -16;
   22; -2; -24; -1; -3; 22;
   17; -7; 17; 17; 17; -12;
   -22; -17; -6; -6; 14; 11;
   -11; -4; -2; -13; -9; -18;
   -24; 12; -16; 16; -5; 13;
   -20; 15; -14; 23; -10; -16;
   21; -18; 12; 13; 0; -12;
   -18; -20; -18; 14; -22; 12;
   -16; 3; -17; 21; -3; -15;
   12; 15; 5; 15; -19; 4;
   15; -16; 17; -8; 20; 23;
   -21; 7; -7; 19; -2; 1;
   -22; 21; -21; 13; 19; -10;
   9; 21; 6; 0; -23; -24;
   -24; 4; -24; 13; 16; -13;
   -8; 15; -11; -18; 23; 23;
   18; 2; 15; 10; 23; 6;
   -14; 22; -21; -14; 9; 17;
   3; -24; -2; -12; 0; -3;
   18; -9; 19; 18; 7; 17;
   20; -20; 11; -11; 0; 4;
   5; 11; 18; -7; -22; -5;
   -15; 24; -17; -23; 22; 18;
   -23; -15; -7; -5; -14; 11;
   -3; 3; -4; -7; 17; -13;
   19; -2; 17; -19; 24; 1;
   2; 8; 11; -21; 20; -12;
   22; -9; 8; 11; -14; -4;
   -19; 20; -22; 2; -14; 23;
   9; -24; 9; -17; -22; 17;
   6; -1; -4; -21; 0; 18;
   8; -9; 12; -13; -23; 13;
   7; -13; 16; -2; 5; -5;
   -19; 9; -10; -23; 23; 9;
   1; 24; 4; -17; -24; 3;
   10; -2; 12; -5; -1; 15;
   22; 6; -6; 11; 20; -9;
   24; 8; -7; -22; 23; -10;
   3; 5; 2; 8; -6; 14;
   13; -10; 7; -12; 11; 11;
   16; -7; 21; -13; -7; -12;
   9; 14; 5; -8; 18; -9;
   12; -2; 8; -22; 13; 21;
   3; -3; -10; -1; -2; 19;
   -13; 7; -21; -8; -5; -17;
   16; -4; 18; -14; -22; 17;
   13; 23; 12; 2; -2; 5;
   -12; -4; -14; 1; 9; -2;
   -17; 6; -12; 22; -9; -13;
   -9; 22; -24; 2; -1; -10;
   -14; -23; -13; 14; 6; -3;
   -23; 7; -23; -12; 12; 16;
   -6; 4; 3; 20; 22; -20;
   5; 14; 3; -15; 12; -13;
   19; -11; 24; -22; -12; -20;
   9; -12; 16; 17; 21; 24;
   -20; -10; -14; -9; 16; -21;
   -7; -23; -4; -20; 10; -8;
   18; -14; 20; 6; 24; 10;
   -2; 4; 10; -21; -16; -2;
   -18; -11; -15; -12; 14; -21;
   14; -15; 18; -7; -17; -2;
   12; -1; 20; 18; 0; 7;
   -13; -12; -17; 14; 23; 18;
   21; -5; 24; -7; -15; -6;
   1; 16; -5; 1; 9; 18;
   22; -4; 22; 3; 18; 8;
   -10; 6; -16; 9; 4; -24;
   5; -4; -18; -18; -12; -24;
   -16; -6; -19; -19; 18; 23;
   19; -23; 23; -4; -10; -13;
   13; -6; 19; 8; 19; -6;
   8; -17; 12; -17; 0; 22;
   8; 7; 22; 22; -22; -22;
   22; -19; 19; -23; -17; 16;
   0; 21; 13; 12; 21; -22;
   -19; -15; -12; 3; -16; 1;
   -1; 22; -1; -24; 19; 13;
   -9; 14; -6; 7; 24; -1;
   -18; -11; -18; -3; -22; -5;
   -13; 1; 15; 9; 18; 7;
   -5; 10; 24; 12; -24; 22;
   -7; 0; -1; -15; 3; 24;
   21; -23; 19; -16; -5; 8;
   18; -12; 14; 18; -16; -5;
   -20; 16; -20; 19; -2; -19;
   -20; 22; -23; -13; 21; -3;
   19; -16; 23; -19; 24; 7;
   -19; -1; 18; 5; 20; 15;
   13; 22; 24; -11; 3; -14;
   -19; 14; -23; -9; 12; 17;
   -6; 14; -9; -1; -22; -9;
   19; -1; -21; -18; 23; -10;
   22; 17; 14; 1; -12; -23;
   7; 0; -3; -8; 8; 21;
   24; -2; 24; 2; -6; -12;
   8; 2; 9; 14; -3; 6;
   -10; -3; -11; -24; 18; -5;
   -12; -20; -7; 12; -5; -6;
   -17; -2; -17; -21; -15; -15;
   5; 21; 9; -15; -23; -12;
   -10; 10; -8; 10; 4; 7;
   23; -3; 9; 4; 11; 4;
   -1; -9; -21; -21; 22; -4;
   -12; 19; -15; -3; -24; 0;
   -24; -8; -19; 9; 17; -7;
   20; -16; 21; -24; -11; 19;
   11; -21; 19; -14; 23; -21;
   23; -9; 20; 7; 17; -6;
   -18; -5; 5; 21; -17; 11;
   -3; -15; -21; -16; -13; 11;
   14; -2; -20; 3; 2; -17;
   -16; 19; -12; -21; -3; 15;
   21; 19; 5; 20; -6; -1;
   21; 9; 1; 12; 23; -9;
   9; -6; 22; 7; 6; 0;
   4; 14; 23; -21; -4; 18;
   -6; -12; -23; -24; -13; 9;
   14; 22; 6; 21; -19; -9;
   -2; -8; -5; 22; -16; 23;
   -3; 23; -3; 19; 10; -18;
   -22; 7; -19; 21; 12; -12;
   -9; 23; -16; -6; -24; 7;
   1; 6; 14; 21; 15; -3;
   4; -2; -11; 18; 10; 20;
   3; 23; 23; -20; -13; 23;
   11; 21; 20; -12; 19; -8;
   14; 14; 13; -4; 22; -14;
   14; 23; 10; -12; 7; 21;
   2; 4; 11; -20; -13; -11;
   14; 8; 16; -13; 24; -14;
   -9; 17; -13; -8; -3; 21;
   -17; 4; -17; 16; 0; 24;
   -22; -15; -1; 18; -24; 8;
   -16; -7; -14; -10; 22; 5;
   1; 11; -1; -24; -9; 10;
   7; -12; 14; 9; -4; 18;
   21; 15; 5; -3; -23; -5;
   16; 8; 18; 24; -11; 23;
   17; -1; 18; -12; 13; 19;
   -18; 10; -14; 12; -14; 24;
   -4; -5; -9; 20; 12; 20;
   16; -5; 15; -8; -20; -7;
   -24; 5; -16; 10; -11; -6;
   -21; 12; -24; -15; 14; -15;
   21; -1; 19; 6; -5; 19;
   24; 12; 3; 10; 12; -15;
   -22; 1; -17; -13; -4; 4;
   19; -8; 22; -12; 14; -23;
   11; -9; 16; -4; -10; 2;
   -24; -8; 5; 21; -21; 14;
   14; -21; 22; -11; -8; -22;
   -23; -1; 19; -5; -11; 13;
   13; 5; 4; -12; 18; -24;
   -13; 2; -14; 22; 9; 19;
   13; -15; 9; 22; 19; -17;
   -3; 4; -3; 5; -2; -14;
   11; 2; 4; -21; -15; 2;
   -17; -5; -16; -1; 15; -20;
   15; 0; 7; -7; -20; 0;
   -2; 23; -1; 12; -19; -10;
   -3; 13; 19; -18; 15; -23;
   -21; 5; -19; 10; 3; 18;
   -17; 9; -16; -12; 19; 24;
   -20; -1; -24; -24; -22; -9;
   12; -16; 18; -5; -19; -6;
   -12; 10; -8; -23; 8; -11;
   17; -8; 15; 21; -13; 11;
   11; 24; 11; 14; -23; 6;
   15; 7; 19; 22; -23; 14;
   -4; 21; -2; 18; 7; 5;
   23; 24; 10; 10; -24; 10;
   -14; -4; -21; 24; 3; 2;
   2; 24; 6; -6; 7; 24;
   14; -16; 18; -8; -15; 11;
   -21; -8; -20; 0; 14; 23;
   -23; 11; -24; 22; 7; 22;
   7; 24; 9; 19; 0; 23;
   14; -6; 20; -9; 7; -23;
   20; 9; 13; 1; 9; 21;
   -11; -1; 9; -11; 15; 23;
   8; -9; 23; 2; 10; 21;
   -19; 4; -19; -22; -2; 20;
   14; 20; 19; -23; 1; 23;
   12; -1; -15; 22; 13; -18;
   24; -5; 21; 11; 6; 12;
   11; -2; 12; 5; 15; 7;
   -16; 10; -15; -13; 10; 17;
   -18; -15; -19; -5; 3; 8;
   12; 12; 14; -9; 20; -12;
   -13; -23; -22; -18; -8; 13;
   15; -22; 16; -18; 18; 14;
   7; 23; 20; -9; 2; -16;
   -17; -7; -24; -23; 9; 23;
   9; -5; 5; -22; -16; -11;
   -22; -11; -20; 11; -2; 14;
   11; 8; 16; -24; 18; -14;
   17; 1; -6; 12; 7; 18;
   4; 8; 7; -19; 4; 18;
   -10; -1; -19; 19; -23; -23;
   -1; 23; 1; 5; 13; -24;
   -16; 14; -19; -19; 21; -22;
   -9; -23; -9; 5; 16; 3;
   12; 21; 13; 11; 15; 23;
   -21; 23; -21; -12; -24; -17;
   -14; -8; -5; -21; 13; -1;
   17; 24; 10; 19; -4; 6;
   21; -24; 13; -22; -2; -8;
   23; -16; 21; -6; -5; -15;
   -12; 14; -11; -8; -6; 5;
   -5; 9; 16; 9; -23; 24;
   12; -24; 22; 8; 19; 2;
   -10; 0; 18; 23; 3; -22;
   -19; 3; -12; -20; 15; 6;
   -23; 19; -23; 5; -3; 23;
   24; 8; 4; 10; 24; -3;
   8; 15; 7; -23; -2; 20;
   19; 18; 23; 4; -24; 6;
   -9; -23; -6; 16; -2; 2;
   10; 7; 12; -1; 21; 7;
   -6; 2; 20; 16; 5; 6;
   11; 3; -4; -14; 9; -12;
   13; -17; 11; -22; 23; 15;
   11; 1; 17; 22; 4; -3;
   18; -9; 21; 11; -14; -23;
   -9; 14; -14; -3; 14; 4;
   12; -4; 21; 0; -24; 16;
   -21; 6; -16; -15; -23; -20;
   14; -22; 0; -20; -13; 1;
   7; -12; 13; 0; -15; -11;
   16; 0; 10; 17; -1; 21;
   14; 2; -9; -18; 24; -5;
   -12; 23; -10; -6; 8; 9;
   16; 0; -14; 24; -10; -16;
   -21; -14; -23; 12; -21; 13;
   -21; 21; -21; -24; 2; -15;
   1; 19; 13; 8; 8; -23;
   -8; 6; 17; -19; -24; 7;
   -24; 18; -21; 10; 20; -24;
   3; 11; -4; 0; 22; -12;
   8; 5; 18; -3; 17; 10;
   -21; 18; -21; 18; -22; -6;
   -9; 2; -5; 24; -17; 4;
   2; 6; 5; 5; -24; 21;
   20; -24; 5; -17; 16; -3;
   -10; -2; 5; 5; -22; -9;
   -3; -13; -21; -12; 4; 23;
   6; 8; 3; 24; 13; -8;
   5; 19; 11; -6; 10; 22;
   -18; 17; -18; -10; -18; 10;
   20; 21; 21; 17; -3; 18;
   -23; 15; -19; 2; -21; -10;
   -16; 22; -18; -18; 2; 22;
   2; 0; 5; 19; -8; 7;
   5; -21; 4; 4; -14; 2;
   -16; 1; 18; 19; 15; 4;
   -15; -2; -20; -6; -18; -8;
   -19; -7; 0; -21; 10; -23;
   -15; 1; -16; 22; 7; 0;
   20; 12; 22; -12; 18; 1;
   23; 14; 13; -2; 23; -2;
   5; 16; 3; -1; -7; 9;
   -11; 11; -13; -11; -20; -23;
   -22; 9; -20; 2; -23; -3;
   2; -1; 17; 3; 24; 19;
   -11; 1; -24; 3; 20; 20;
   -15; -8; -20; 12; -14; -11;
   20; -8; 19; -14; -14; 9;
   -24; 15; -8; -22; 9; -4;
   22; 0; 0; -7; 24; -3;
   19; -17; 23; -17; 1; 11;
   -24; 3; -16; -18; 15; -7;
   10; -10; 9; 0; 23; 4;
   9; 2; 15; 9; -20; -23;
   16; 11; 7; -19; 8; 23;
   17; -14; 21; -17; -18; -14;
   -10; 11; -10; -24; 2; 13;
   24; 7; -2; 15; -3; 11;
   -20; 18; -9; 21; 4; -7;
   -5; -18; -23; 10; -6; 11;
   9; 0; 13; -1; -24; -12;
   17; 10; 1; -1; -23; 15;
   24; -8; 24; -2; -4; 14;
   -18; 0; 18; 6; -24; -23;
   16; -19; 11; -9; -18; -1;
   -24; -5; -23; -3; 22; 15;
   -23; 0; -19; -15; 9; 12;
   3; -11; 3; -10; 22; -21;
   -3; -21; -14; -15; -20; 19;
   22; 8; 1; -21; -11; 23;
   -9; -4; -10; -17; -9; -2;
   15; 20; 9; 20; -24; 3;
   -16; 19; -19; -16; 0; -21;
   17; 12; 8; 9; -12; 11;
   19; -23; 12; 12; 2; 0;
   24; -11; 24; -16; -22; -19;
   18; 1; -7; -2; 5; -23;
   10; 23; 2; -21; 1; -10;
   15; -24; 16; -11; 4; 1;
   16; -20; 14; -13; -6; 13;
   12; 15; 10; 6; -12; -20;
   -23; 13; -18; -5; 21; 1;
   -19; -7; -23; -1; -21; -15;
   -21; -9; -18; -8; -7; -15;
   0; 18; -2; -17; -12; 10;
   -22; -2; 19; 21; -14; 22;
   24; 6; 18; 1; 21; -19;
   14; -14; 15; 12; 3; 17;
   -14; -3; 4; -13; 5; 12;
   12; 22; 24; -11; -9; -23;
   0; 11; 11; 9; -20; 1;
   12; 12; 18; 16; -4; 9;
   19; -2; -23; -17; 11; 22;
   15; 13; 22; -4; 17; -3;
   -9; 11; -13; -2; -14; -5;
   5; -12; 14; -4; 18; -12;
   21; 2; -19; 8; -23; 8;
   -10; 0; 8; -17; 12; 19;
   18; 2; 10; -18; -21; 13;
   13; -3; 19; 4; -19; 1;
   -21; 8; -24; -10; -1; -23;
   18; 9; 9; 9; 20; 3;
   -11; 18; -5; -24; -23; 3;
   -15; 17; -19; -13; 12; 19;
   13; 3; 13; -14; -15; -23;
   10; -23; 16; -10; -2; 16;
   -14; -23; -6; -21; 19; -6;
   -5; -14; -2; 21; -8; 11;
   13; 16; 15; 6; -24; 14;
   -21; -8; -1; -21; 1; 14;
   19; 14; 9; -19; 5; 21;
   8; -18; 17; -6; 12; 1;
   -19; 14; -21; -11; -13; 23;
   12; -3; 9; -18; -17; -14;
   12; 21; 19; 16; -11; 19;
   -23; -3; 14; 22; -24; 20;
   -7; 13; -18; -5; -18; -23;
   -22; -9; -10; -15; -18; 16;
   -5; -12; -4; 18; 10; -16;
   9; -15; 17; -10; 6; 16;
   16; -1; -20; -6; -7; -20;
   -24; -18; -13; -1; 8; -2;
   16; 6; 18; -22; 11; -12;
   4; -15; 1; 16; -20; 6;
   17; 2; 21; 23; 15; -4;
   21; -24; 13; 3; 21; 8;
   -4; 4; -12; -1; 19; -7;
   11; 5; -2; -12; -21; -13;
   -19; -11; -20; 20; -2; -24;
   11; -1; -3; 20; -4; -23;
   11; -1; 14; 2; 7; -2;
   -16; -1; -17; 23; -8; -14;
   21; 6; 10; -15; 19; -24;
   15; 12; 1; -23; -6; 11;
   -19; 19; -18; 17; 0; -8;
   0
  ].

(** The [float] at [triplets + p]. *)
Definition triplets_at (p : Z) : float := F32.of_Z (nth (Z.to_nat p) triplets 0).

Definition _mm_loadu_ps (p : Z) : __m128 :=
  V4 (triplets_at p) (triplets_at (p + 1)) (triplets_at (p + 2)) (triplets_at (p + 3)).

(** ** The descriptor worker, [_LATCH] *)

(** What line 580-584 keep in registers for one key point. *)
Record kp_regs : Type := Regs {
  ptx : __m128;
  pty : __m128;
  sin_theta : __m128;
  cos_theta : __m128;
  scale : __m128
}.

(** [(sum & 0x80000000) >> (31 - bit)], the operand of [|=] on line 616:
    [sum] is an [int], the mask an [unsigned], the shift a logical one. *)
Definition sign_mask (sum bit : Z) : Z :=
  Z.shiftr (Z.land (to_u32 sum) 2147483648) (31 - bit).

(** [keypoints[i]]: defined for [0 <= i < size()] only. *)
Definition vector_at {A : Type} (v : list A) (i : Z) : option A :=
  if i <? 0 then None else v !! Z.to_nat i.

Section Worker.
Variables sinf cosf : float -> float.
Variable image : image_t.
Variable stride : Z.

Definition load_regs (pt : KeyPoint.t) : kp_regs :=
  {| ptx := _mm_set_ps1 (KeyPoint.x pt);
     pty := _mm_set_ps1 (KeyPoint.y pt);
     sin_theta := _mm_set_ps1 (sinf (KeyPoint.angle pt));
     cos_theta := _mm_set_ps1 (cosf (KeyPoint.angle pt));
     scale := _mm_div_ps (_mm_set_ps1 (KeyPoint.scale pt)) (_mm_set_ps1 (F32.of_Z 7)) |}.

(** Lines 589-592: the rounded sample centres [xints], [yints] of the
    triplet at [triplets + triplet]; lanes 0, 1, 2 are A, B, C. *)
Definition sample_centers (r : kp_regs) (triplet : Z) : __m128i * __m128i :=
  let xs := _mm_mul_ps (_mm_loadu_ps triplet) (scale r) in
  let ys := _mm_mul_ps (_mm_loadu_ps (triplet + 3)) (scale r) in
  let xints :=
    _mm_cvtps_epi32
      (_mm_add_ps
         (_mm_min_ps
            (_mm_max_ps
               (_mm_sub_ps (_mm_mul_ps xs (cos_theta r)) (_mm_mul_ps ys (sin_theta r)))
               (_mm_set_ps1 (F32.of_Z (-32))))
            (_mm_set_ps1 (F32.of_Z 32)))
         (ptx r)) in
  let yints :=
    _mm_cvtps_epi32
      (_mm_add_ps
         (_mm_min_ps
            (_mm_max_ps
               (_mm_add_ps (_mm_mul_ps xs (sin_theta r)) (_mm_mul_ps ys (cos_theta r)))
               (_mm_set_ps1 (F32.of_Z (-32))))
            (_mm_set_ps1 (F32.of_Z 32)))
         (pty r)) in
  (xints, yints).

(** Lines 601-613: the body of the [patchy] loop. *)
Definition patch_row (ax2 ay2 bx2 by2 cx2 cy2 : Z) (accum : __m128i) (patchy : Z) : __m128i :=
  let im_a := stride * (ay2 + patchy) + ax2 - 3 in
  let im_b := stride * (by2 + patchy) + bx2 - 3 in
  let im_c := stride * (cy2 + patchy) + cx2 - 3 in
  let b1 := _mm_cvtepu8_epi32 (_mm_loadu_si128 image im_b) in
  let b2 := _mm_cvtepu8_epi32 (_mm_loadu_si128 image (im_b + 4)) in
  let da1 := _mm_sub_epi32 (_mm_cvtepu8_epi32 (_mm_loadu_si128 image im_a)) b1 in
  let da1 := _mm_mullo_epi32 da1 da1 in
  let da2 := _mm_sub_epi32 (_mm_cvtepu8_epi32 (_mm_loadu_si128 image (im_a + 4))) b2 in
  let da2 := _mm_add_epi32 da1 (_mm_mullo_epi32 da2 da2) in
  let dc1 := _mm_sub_epi32 (_mm_cvtepu8_epi32 (_mm_loadu_si128 image im_c)) b1 in
  let dc1 := _mm_mullo_epi32 dc1 dc1 in
  let dc2 := _mm_sub_epi32 (_mm_cvtepu8_epi32 (_mm_loadu_si128 image (im_c + 4))) b2 in
  _mm_add_epi32 (_mm_sub_epi32 da2 (_mm_add_epi32 dc1 (_mm_mullo_epi32 dc2 dc2))) accum.

(** Lines 593-616: the [int] whose sign decides the bit. *)
Definition patch_sum (xints yints : __m128i) : Z :=
  let ax2 := _mm_extract_epi32 xints 0 in
  let bx2 := _mm_extract_epi32 xints 1 in
  let cx2 := _mm_extract_epi32 xints 2 in
  let ay2 := _mm_extract_epi32 yints 0 in
  let by2 := _mm_extract_epi32 yints 1 in
  let cy2 := _mm_extract_epi32 yints 2 in
  let accum := _mm_setzero_si128 in
  let accum := for_range (-3) (4 + 1) (patch_row ax2 ay2 bx2 by2 cx2 cy2) accum in
  let accum := _mm_hadd_epi32 accum accum in
  _mm_extract_epi32 accum 0 + _mm_extract_epi32 accum 1.

(** The operand of [desc[fragment] |= ...] for the triplet at [triplet]. *)
Definition triplet_mask (r : kp_regs) (triplet bit : Z) : Z :=
  let '(xints, yints) := sample_centers r triplet in
  sign_mask (patch_sum xints yints) bit.

(** Lines 588-617: the body of the [bit] loop; the state is the output
    memory and the walking pointer [triplet], which the loop header
    advances by 6. *)
Definition bit_body (r : kp_regs) (desc fragment : Z) (st : buffer * Z) (bit : Z) : buffer * Z :=
  let '(buf, triplet) := st in
  let v := triplet_mask r triplet bit in
  (store_u8 buf (desc + fragment) (Z.lor (buf (desc + fragment)) v), triplet + 6).

(** Lines 586-618: the body of the [fragment] loop. *)
Definition fragment_body (r : kp_regs) (desc : Z) (st : buffer * Z) (fragment : Z) : buffer * Z :=
  let '(buf, triplet) := st in
  let buf := store_u8 buf (desc + fragment) 0 in
  for_range 0 8 (bit_body r desc fragment) (buf, triplet).

(** Lines 577-619: the body of the key point loop.  [desc] is the byte
    offset of [descriptors + (i << 3)], a pointer to [uint64_t]. *)
Definition keypoint_body (keypoints : list KeyPoint.t) (descriptors : option buffer) (i : Z)
  : option buffer :=
  match descriptors with
  | None => None
  | Some buf =>
      match vector_at keypoints i with
      | None => None
      | Some pt =>
          let desc := 8 * Z.shiftl i 3 in
          let r := load_regs pt in
          let triplet := 0 in
          Some (fst (for_range 0 64 (fragment_body r desc) (buf, triplet)))
      end
  end.

Definition _LATCH (start thread_stride : Z) (keypoints : list KeyPoint.t) (descriptors : buffer)
  : option buffer :=
  for_range start (start + thread_stride) (keypoint_body keypoints) (Some descriptors).

(** *** The sums and the descriptor, in closed form *)

Definition pixel (p : Z) : Z := Z.of_N (Byte.to_N (image p)).

(** The pixel of the 8x8 window around [(cx, cy)] at row [dy], column [dx]. *)
Definition window_pixel (cx cy dx dy : Z) : Z := pixel (stride * (cy + dy) + cx + dx).

(** [(A-B)^2 - (C-B)^2] at one position of the window. *)
Definition window_term (ax ay bx by_ cx cy dx dy : Z) : Z :=
  (window_pixel ax ay dx dy - window_pixel bx by_ dx dy) ^ 2
  - (window_pixel cx cy dx dy - window_pixel bx by_ dx dy) ^ 2.

(** In the words of the specification: [sum (A-B)^2 - sum (C-B)^2]
    over rows and columns -3..4 of the 8x8 windows, in [Z]. *)
Definition ssd_difference (ax ay bx by_ cx cy : Z) : Z :=
  sumZ 8 (-3) (fun dy => sumZ 8 (-3) (fun dx => window_term ax ay bx by_ cx cy dx dy)).

(** The sum that the registers [r] and the pointer [triplet] select. *)
Definition centers_ssd (r : kp_regs) (triplet : Z) : Z :=
  let '(xints, yints) := sample_centers r triplet in
  ssd_difference (lane0 xints) (lane0 yints) (lane1 xints) (lane1 yints)
                 (lane2 xints) (lane2 yints).

(** The sum of triplet number [t] at key point [pt]. *)
Definition triplet_sum (pt : KeyPoint.t) (t : Z) : Z :=
  centers_ssd (load_regs pt) (6 * t).

(** Byte [fragment] of the descriptor: bit [b] is set when the sum of
    triplet [8 * fragment + b] is negative. *)
Definition descriptor_byte (pt : KeyPoint.t) (fragment : Z) : Z :=
  sumZ 8 0 (fun b => if triplet_sum pt (8 * fragment + b) <? 0 then 2 ^ b else 0).

(** The output memory once the key points [lo .. hi-1] are done: slot
    [i] holds the descriptor of [keypoints[i]], the rest is [buf]. *)
Definition descriptors_of (keypoints : list KeyPoint.t) (lo hi : Z) (buf : buffer) : buffer :=
  fun q =>
    if (64 * lo <=? q) && (q <? 64 * hi) then
      match vector_at keypoints (q / 64) with
      | Some pt => descriptor_byte pt (q mod 64)
      | None => buf q
      end
    else buf q.
End Worker.

(** ** The border filter *)

(** The lambda of line 624.  [36], [width - 36] and [height - 36] are
    [int]s, converted to [float] for the comparison. *)
Definition near_border (width height : Z) (kp : KeyPoint.t) : bool :=
  F32.le (KeyPoint.x kp) (F32.of_Z 36)
  || F32.le (KeyPoint.y kp) (F32.of_Z 36)
  || F32.ge (KeyPoint.x kp) (F32.of_Z (width - 36))
  || F32.ge (KeyPoint.y kp) (F32.of_Z (height - 36)).

Section RemoveIf.
Context {A : Type}.
Variable pred : A -> bool.

(** The elements that [std::remove_if] keeps. *)
Definition kept_by (a : A) : bool := negb (pred a).

(** [std::find_if]: the position of the first element that satisfies
    [pred], the size when there is none. *)
Fixpoint find_if (v : list A) : nat :=
  match v with
  | [] => 0
  | a :: v' => if pred a then 0 else S (find_if v')
  end.

(** The loop of [std::remove_if], with [n] elements left to visit:
    [for (; first != last; ++first)
       if (!pred( *first)) { *result = std::move( *first); ++result; }]. *)
Fixpoint remove_if_loop (n first result : nat) (v : list A) : list A * nat :=
  match n with
  | O => (v, result)
  | S n' =>
      match v !! first with
      | Some a =>
          if pred a then remove_if_loop n' (S first) result v
          else remove_if_loop n' (S first) (S result) (<[result := a]> v)
      | None => (v, result)
      end
  end.

(** [std::remove_if (v.begin (), v.end (), pred)]: the vector after the
    call and the position it returns. *)
Definition remove_if (v : list A) : list A * nat :=
  let first := find_if v in
  if (first =? length v)%nat then (v, first)
  else remove_if_loop (length v - S first) (S first) first v.

(** [v.erase (first, v.end ())]. *)
Definition erase_to_end (v : list A) (first : nat) : list A := take first v.

(** The erase-remove idiom of line 624. *)
Definition erase_remove_if (v : list A) : list A :=
  let '(v', new_end) := remove_if v in erase_to_end v' new_end.
End RemoveIf.

(** ** The dispatcher, [LATCH] *)

(** One call [_LATCH (start, thread_stride, ...)]. *)
Record call : Type := Call { call_start : Z; call_stride : Z }.

(** What [LATCH] does with the worker: call it directly, or launch the
    calls of [fut] with [std::async] and wait for all of them. *)
Inductive dispatch : Type :=
  | Direct (c : call)
  | Futures (fut : list call).

(** Line 627; [hardware_concurrency] is the [unsigned] that
    [std::thread::hardware_concurrency ()] returns. *)
Definition hw_concur (sz hardware_concurrency : Z) : Z :=
  Z.min (Z.shiftr sz 4) (wrap32 hardware_concurrency).

(** Line 630. *)
Definition chunk_size (sz hw : Z) : Z := Z.quot (sz - 1) hw + 1.

(** The body of the launching loop of lines 632-634; [fut[i]] is the
    [i]-th entry of the list. *)
Definition launch_body (thread_stride : Z) (st : list call * Z) (i : Z) : list call * Z :=
  let '(fut, start) := st in
  (fut ++ [Call start thread_stride], start + thread_stride).

(** Lines 626-644, up to the calls themselves. *)
Definition schedule (multithread : bool) (hardware_concurrency sz : Z) : dispatch :=
  if multithread then
    let hw := hw_concur sz hardware_concurrency in
    if 1 <? hw then
      let thread_stride := chunk_size sz hw in
      let '(fut, start) :=
        for_range 0 (Z.min (sz - 1) (hw - 1)) (launch_body thread_stride) ([], 0) in
      Futures (fut ++ [Call start (sz - start)])
    else Direct (Call 0 sz)
  else Direct (Call 0 sz).

(** [n] consecutive calls of [thread_stride] key points each, the first
    at [start]: what the launching loop puts into [fut]. *)
Fixpoint chunks (n : nat) (start thread_stride : Z) : list call :=
  match n with
  | O => []
  | S n' => Call start thread_stride :: chunks n' (start + thread_stride) thread_stride
  end.

(** The values that [i] takes in the loop of one call. *)
Definition call_indices (c : call) : list Z := seqZ (call_start c) (call_stride c).

Definition dispatch_calls (d : dispatch) : list call :=
  match d with
  | Direct c => [c]
  | Futures fut => fut
  end.

(** Every index that some worker processes, worker by worker. *)
Definition dispatch_indices (d : dispatch) : list Z :=
  concat (map call_indices (dispatch_calls d)).

Section Dispatcher.
Variables sinf cosf : float -> float.
Variable image : image_t.
Variable stride : Z.

(** The calls of [fut], each on the memory the previous one left.  The
    workers of [LATCH] run concurrently and are all joined; the model
    runs them one after the other, in the order of their launch
    (for calls inside the vector any other order leaves the same
    memory, [run_calls_Permutation]). *)
Definition run_calls (fut : list call) (keypoints : list KeyPoint.t) (descriptors : buffer)
  : option buffer :=
  foldl (fun ob c =>
           match ob with
           | Some buf => _LATCH sinf cosf image stride (call_start c) (call_stride c)
                           keypoints buf
           | None => None
           end)
        (Some descriptors) fut.

(** [LATCH<multithread>]: the key points after the erase, and the
    output memory, [None] when a worker leaves the vector. *)
Definition LATCH (multithread : bool) (hardware_concurrency : Z) (width height : Z)
    (keypoints : list KeyPoint.t) (descriptors : buffer)
  : list KeyPoint.t * option buffer :=
  let keypoints := erase_remove_if (near_border width height) keypoints in
  let sz := wrap32 (Z.of_nat (length keypoints)) in
  (keypoints,
   match schedule multithread hardware_concurrency sz with
   | Direct c => _LATCH sinf cosf image stride (call_start c) (call_stride c)
                   keypoints descriptors
   | Futures fut => run_calls fut keypoints descriptors
   end).
End Dispatcher.

(** The call stays inside the vector of [len] key points. *)
Definition in_vector (len : nat) (c : call) : Prop :=
  0 <= call_start c /\ call_start c + call_stride c <= Z.of_nat len.

(** Byte [q] of the output belongs to a slot that some call of [fut]
    writes. *)
Definition written (fut : list call) (q : Z) : bool :=
  existsb (fun c => (64 * call_start c <=? q) && (q <? 64 * (call_start c + call_stride c)))
    fut.

(** ** The sample centre in the words of the specification *)

(** MAXPS against -32 and then MINPS against 32, on one lane. *)
Definition clamp_32 (v : float) : float :=
  minps (maxps v (F32.of_Z (-32))) (F32.of_Z 32).

(** For one offset pair [(ox, oy)] of a triplet: scale by
    [s = scale / 7.0], rotate by the angle, clamp each coordinate to
    [-32, 32], move by the key point's centre, round to the nearest
    integer. *)
Definition sample_center (sinf cosf : float -> float) (pt : KeyPoint.t) (ox oy : float)
  : Z * Z :=
  let s := F32.div (KeyPoint.scale pt) (F32.of_Z 7) in
  let cos_a := cosf (KeyPoint.angle pt) in
  let sin_a := sinf (KeyPoint.angle pt) in
  let rx := F32.sub (F32.mul (F32.mul ox s) cos_a) (F32.mul (F32.mul oy s) sin_a) in
  let ry := F32.add (F32.mul (F32.mul ox s) sin_a) (F32.mul (F32.mul oy s) cos_a) in
  (F32.to_int32 (F32.add (KeyPoint.x pt) (clamp_32 rx)),
   F32.to_int32 (F32.add (KeyPoint.y pt) (clamp_32 ry))).

(** [n] is the integer nearest to [m * 2^e], the even one of the two
    when [m * 2^e] lies half way between them. *)
Definition nearest_even (m : positive) (e : Z) (n : Z) : Prop :=
  if 0 <=? e then n = Zpos m * 2 ^ e
  else
    let d := 2 ^ (- e) in
    2 * Z.abs (Zpos m - n * d) <= d /\
    (2 * Z.abs (Zpos m - n * d) = d -> Z.even n = true).

(** ** Shapes of floats, for the statements below *)

(** [a] is not NaN and carries the sign [s]. *)
Definition has_sign (s : bool) (a : float) : Prop :=
  match a with
  | S754_zero s' | S754_infinity s' | S754_finite s' _ _ => s' = s
  | S754_nan => False
  end.

(** [a] is at most 36, read off its sign, exponent and mantissa. *)
Definition at_most_36 (a : float) : Prop :=
  match a with
  | S754_zero _ => True
  | S754_infinity s => s = true
  | S754_finite true _ _ => True
  | S754_finite false m e => e < -18 \/ (e = -18 /\ (m <= 9437184)%positive)
  | S754_nan => False
  end.

(** ** Inputs on which the model is evaluated *)

(** Stand-ins for [sin] and [cos] that are exact at the angle 0, where
    the C standard fixes [sin (+0) = +0] and [cos (+0) = 1]; the sample
    key points below all have this angle. *)
Definition sin_at_zero (a : float) : float := a.
Definition cos_at_zero (a : float) : float := F32.of_Z 1.

(** The key point at (100, 100) of scale 7 and angle 0: its sample
    centres are the table's offsets moved by (100, 100). *)
Definition kp_100 : KeyPoint.t :=
  KeyPoint.mk (F32.of_Z 100) (F32.of_Z 100) (F32.of_Z 7) (S754_zero false).

(** A black image with one white pixel at offset [p0]. *)
Definition image_dot (p0 : Z) : image_t :=
  fun p => if p =? p0 then Byte.xff else Byte.x00.

Definition zero_memory : buffer := fun _ => 0.

(** 305 copies of [kp_100]: they all survive the border filter of a
    1000 x 1000 image. *)
Definition keypoints_305 : list KeyPoint.t := replicate 305 kp_100.

(** A key point whose coordinates are NaN. *)
Definition kp_nan : KeyPoint.t :=
  KeyPoint.mk S754_nan S754_nan (F32.of_Z 7) (S754_zero false).

(** ** Further shapes and inputs *)

(** Lanes 0 and 2 exchanged: the same triplet with the patches A and C
    in each other's place. *)
Definition swap_AC (v : __m128i) : __m128i := V4 (lane2 v) (lane1 v) (lane0 v) (lane3 v).

(** [a] is a zero or a finite number: neither NaN nor an infinity. *)
Definition finite_or_zero (a : float) : bool :=
  match a with
  | S754_zero _ | S754_finite _ _ _ => true
  | _ => false
  end.

(** A black image of row length [stride] with a white 8x8 block whose
    rows are [y0 .. y0+7] and whose columns are [x0 .. x0+7]. *)
Definition image_block (stride x0 y0 : Z) : image_t :=
  fun p =>
    let x := p mod stride in
    let y := p / stride in
    if (x0 <=? x) && (x <? x0 + 8) && (y0 <=? y) && (y <? y0 + 8) then Byte.xff else Byte.x00.


(** [kp_100] with the scale replaced. *)
Definition kp_scaled (s : float) : KeyPoint.t :=
  KeyPoint.mk (F32.of_Z 100) (F32.of_Z 100) s (S754_zero false).

(** A black image with white pixels at the offsets [p0] and [p1]. *)
Definition image_dots (p0 p1 : Z) : image_t :=
  fun p => if (p =? p0) || (p =? p1) then Byte.xff else Byte.x00.

(** The key point at (50, 63.75) of scale 14 and angle 0: in a 100 x 100
    image it is not near the border, for 63.75 < 100 - 36. *)
Definition kp_low : KeyPoint.t :=
  KeyPoint.mk (F32.of_Z 50) (F32.div (F32.of_Z 255) (F32.of_Z 4)) (F32.of_Z 14)
    (S754_zero false).

(** An image of [width] columns, every pixel [inside], whose rows are
    padded to [stride] bytes with the value [pad]. *)
Definition image_padded (width stride : Z) (inside pad : byte) : image_t :=
  fun p => if p mod stride <? width then inside else pad.

(** The key point at (63.75, 50) of scale 14 and angle 0: in a 100 x 100
    image it is not near the border, for 63.75 < 100 - 36. *)
Definition kp_right : KeyPoint.t :=
  KeyPoint.mk (F32.div (F32.of_Z 255) (F32.of_Z 4)) (F32.of_Z 50) (F32.of_Z 14)
    (S754_zero false).

(** The three sample centres of triplet [t] at the key point [pt]. *)
Definition triplet_centers (sinf cosf : float -> float) (pt : KeyPoint.t) (t : Z)
  : list (Z * Z) :=
  [sample_center sinf cosf pt (triplets_at (6 * t)) (triplets_at (6 * t + 3));
   sample_center sinf cosf pt (triplets_at (6 * t + 1)) (triplets_at (6 * t + 3 + 1));
   sample_center sinf cosf pt (triplets_at (6 * t + 2)) (triplets_at (6 * t + 3 + 2))].

(** The sixteen-byte loads of the window around [(cx, cy)] stay inside
    an allocation of [height] rows of [stride] bytes. *)
Definition loads_inside (stride height : Z) (c : Z * Z) : bool :=
  (0 <=? stride * (snd c - 3) + fst c - 3)
  && (stride * (snd c + 4) + fst c - 3 + 4 + 16 <=? stride * height).

(** * Facts *)

(** ** Loops and sums *)

Lemma for_loop_app {St : Type} (n m : nat) (i : Z) (body : St -> Z -> St) (s : St) :
  for_loop (n + m) i body s = for_loop m (i + Z.of_nat n) body (for_loop n i body s).
Proof.
  revert i s. induction n as [|n IH]; intros i s.
  - cbn. f_equal. lia.
  - cbn [Nat.add for_loop]. rewrite IH. f_equal. lia.
Qed.

Lemma for_loop_invariant {St : Type} (P : Z -> St -> Prop) (n : nat) (i : Z)
    (body : St -> Z -> St) (s : St) :
  P i s ->
  (forall k s', i <= k < i + Z.of_nat n -> P k s' -> P (k + 1) (body s' k)) ->
  P (i + Z.of_nat n) (for_loop n i body s).
Proof.
  revert i s. induction n as [|n IH]; intros i s H0 Hstep.
  - cbn [for_loop]. replace (i + Z.of_nat 0) with i by lia. exact H0.
  - cbn [for_loop]. replace (i + Z.of_nat (S n)) with ((i + 1) + Z.of_nat n) by lia.
    apply IH.
    + apply Hstep; [lia | exact H0].
    + intros k s' Hk. apply Hstep. lia.
Qed.

Lemma sumZ_ext (n : nat) (lo : Z) (f g : Z -> Z) :
  (forall k, lo <= k < lo + Z.of_nat n -> f k = g k) -> sumZ n lo f = sumZ n lo g.
Proof.
  revert lo. induction n as [|n IH]; intros lo H; cbn [sumZ]; [reflexivity|].
  rewrite (H lo) by lia. rewrite (IH (lo + 1)); [reflexivity|].
  intros k Hk. apply H. lia.
Qed.

Lemma sumZ_plus (n : nat) (lo : Z) (f g : Z -> Z) :
  sumZ n lo (fun k => f k + g k) = sumZ n lo f + sumZ n lo g.
Proof.
  revert lo. induction n as [|n IH]; intros lo; cbn [sumZ]; [reflexivity|].
  rewrite IH. lia.
Qed.

Lemma sumZ_zero (n : nat) (lo : Z) (f : Z -> Z) :
  (forall k, lo <= k < lo + Z.of_nat n -> f k = 0) -> sumZ n lo f = 0.
Proof.
  revert lo. induction n as [|n IH]; intros lo H; cbn [sumZ]; [reflexivity|].
  rewrite (H lo) by lia. rewrite IH; [reflexivity|]. intros k Hk. apply H. lia.
Qed.

Lemma sumZ_bounds (n : nat) (lo : Z) (f : Z -> Z) (a b : Z) :
  (forall k, lo <= k < lo + Z.of_nat n -> a <= f k <= b) ->
  Z.of_nat n * a <= sumZ n lo f <= Z.of_nat n * b.
Proof.
  revert lo. induction n as [|n IH]; intros lo H; cbn [sumZ]; [lia|].
  pose proof (H lo ltac:(lia)).
  assert (Z.of_nat n * a <= sumZ n (lo + 1) f <= Z.of_nat n * b).
  { apply IH. intros k Hk. apply H. lia. }
  lia.
Qed.

Lemma sumZ8_bounds (lo : Z) (f : Z -> Z) (a b : Z) :
  (forall k, a <= f k <= b) -> 8 * a <= sumZ 8 lo f <= 8 * b.
Proof.
  intros H. pose proof (sumZ_bounds 8 lo f a b (fun k _ => H k)) as Hs.
  change (Z.of_nat 8) with 8 in Hs. exact Hs.
Qed.

Ltac eval_successors f :=
  repeat match goal with
    | |- context [f (?a + 1)] =>
        let v := eval vm_compute in (a + 1) in change (a + 1) with v
    end.

Lemma sumZ8_window (f : Z -> Z) :
  sumZ 8 (-3) f = f (-3) + f (-2) + f (-1) + f 0 + f 1 + f 2 + f 3 + f 4.
Proof. cbn [sumZ]. eval_successors f. lia. Qed.

Lemma sumZ8_bits (f : Z -> Z) :
  sumZ 8 0 f = f 0 + f 1 + f 2 + f 3 + f 4 + f 5 + f 6 + f 7.
Proof. cbn [sumZ]. eval_successors f. lia. Qed.

Lemma sumZ_snoc (n : nat) (lo : Z) (f : Z -> Z) :
  sumZ (S n) lo f = sumZ n lo f + f (lo + Z.of_nat n).
Proof.
  revert lo. induction n as [|n IH]; intros lo.
  - cbn [sumZ]. replace (lo + Z.of_nat 0) with lo by lia. lia.
  - change (sumZ (S (S n)) lo f)
      with (f lo + sumZ (S n) (lo + 1) f).
    rewrite IH. cbn [sumZ]. replace (lo + 1 + Z.of_nat n) with (lo + Z.of_nat (S n)) by lia.
    lia.
Qed.

(** ** 32-bit arithmetic *)

Lemma wrap32_small (z : Z) : - 2 ^ 31 <= z < 2 ^ 31 -> wrap32 z = z.
Proof. intros H. unfold wrap32. rewrite Z.mod_small; lia. Qed.

Lemma wrap32_range (z : Z) : - 2 ^ 31 <= wrap32 z < 2 ^ 31.
Proof. unfold wrap32. pose proof (Z.mod_pos_bound (z + 2 ^ 31) (2 ^ 32)). lia. Qed.

Lemma land_sign_bit (u : Z) :
  0 <= u < 2 ^ 32 ->
  Z.land u 2147483648 = if u <? 2 ^ 31 then 0 else 2 ^ 31.
Proof.
  intros Hu. change 2147483648 with (2 ^ 31).
  apply Z.bits_inj'. intros k Hk.
  rewrite Z.land_spec, Z.pow2_bits_eqb by lia.
  destruct (Z.eqb_spec 31 k) as [<-|Hne].
  - rewrite andb_true_r. destruct (Z.ltb_spec u (2 ^ 31)).
    + rewrite Z.bits_0. apply Z.bits_above_log2; [lia|].
      destruct (Z.eq_dec u 0) as [->|]; [cbn; lia|]. apply Z.log2_lt_pow2; lia.
    + rewrite Z.pow2_bits_true by lia.
      rewrite Z.testbit_true by lia.
      replace (u / 2 ^ 31) with 1; [reflexivity|].
      apply Z.div_unique with (r := u - 2 ^ 31); lia.
  - rewrite andb_false_r. destruct (u <? 2 ^ 31).
    + now rewrite Z.bits_0.
    + rewrite Z.pow2_bits_false by lia. reflexivity.
Qed.

(** The mask of line 616 is [2^bit] for a negative sum and 0 otherwise. *)
Lemma sign_mask_spec (sum bit : Z) :
  - 2 ^ 31 <= sum < 2 ^ 31 -> 0 <= bit <= 31 ->
  sign_mask sum bit = if sum <? 0 then 2 ^ bit else 0.
Proof.
  intros Hs Hb. unfold sign_mask, to_u32.
  rewrite land_sign_bit by (apply Z.mod_pos_bound; lia).
  destruct (Z.ltb_spec sum 0) as [Hneg|Hpos].
  - replace (sum mod 2 ^ 32) with (sum + 2 ^ 32).
    2:{ apply Z.mod_unique with (q := -1); lia. }
    destruct (Z.ltb_spec (sum + 2 ^ 32) (2 ^ 31)); [lia|].
    rewrite Z.shiftr_div_pow2 by lia.
    replace 31 with ((31 - bit) + bit) at 1 by lia.
    rewrite Z.pow_add_r by lia.
    rewrite Z.mul_comm, Z.div_mul; [reflexivity|]. apply Z.pow_nonzero; lia.
  - rewrite Z.mod_small by lia.
    destruct (Z.ltb_spec sum (2 ^ 31)); [|lia]. apply Z.shiftr_0_l.
Qed.

Lemma lor_fresh_bit (x k : Z) :
  0 <= k -> 0 <= x < 2 ^ k -> Z.lor x (2 ^ k) = x + 2 ^ k.
Proof.
  intros Hk Hx. symmetry.
  rewrite Z.add_nocarry_lxor; [apply Z.lxor_lor|]; apply Z.bits_inj'; intros i Hi;
    rewrite Z.land_spec, Z.bits_0, Z.pow2_bits_eqb by lia.
  all: destruct (Z.eqb_spec k i) as [<-|]; [|apply andb_false_r].
  all: rewrite andb_true_r; destruct (Z.eq_dec x 0) as [->|];
    [apply Z.bits_0 | apply Z.bits_above_log2; [lia | apply Z.log2_lt_pow2; lia]].
Qed.

Lemma to_u8_small (z : Z) : 0 <= z < 256 -> to_u8 z = z.
Proof. intros H. unfold to_u8. apply Z.mod_small. exact H. Qed.

(** ** The patch comparison *)

Lemma lane_exact (a b c a' b' c' acc : Z) :
  0 <= a <= 255 -> 0 <= b <= 255 -> 0 <= c <= 255 ->
  0 <= a' <= 255 -> 0 <= b' <= 255 -> 0 <= c' <= 255 ->
  - 2 ^ 30 <= acc <= 2 ^ 30 ->
  wrap32
    (wrap32
       (wrap32 (wrap32 (wrap32 (a - b) * wrap32 (a - b))
                + wrap32 (wrap32 (a' - b') * wrap32 (a' - b')))
        - wrap32 (wrap32 (wrap32 (c - b) * wrap32 (c - b))
                  + wrap32 (wrap32 (c' - b') * wrap32 (c' - b'))))
     + acc)
  = acc + (((a - b) ^ 2 - (c - b) ^ 2) + ((a' - b') ^ 2 - (c' - b') ^ 2)).
Proof.
  intros Ha Hb Hc Ha' Hb' Hc' Hacc.
  assert (Hsq : forall u v, 0 <= u <= 255 -> 0 <= v <= 255 ->
            wrap32 (wrap32 (u - v) * wrap32 (u - v)) = (u - v) ^ 2 /\ 0 <= (u - v) ^ 2 <= 65025).
  { intros u v Hu Hv. rewrite (wrap32_small (u - v)) by lia.
    assert (0 <= (u - v) ^ 2 <= 65025) by nia.
    split; [|assumption]. rewrite wrap32_small; lia. }
  destruct (Hsq a b Ha Hb) as [-> ?], (Hsq a' b' Ha' Hb') as [-> ?].
  destruct (Hsq c b Hc Hb) as [-> ?], (Hsq c' b' Hc' Hb') as [-> ?].
  rewrite (wrap32_small ((a - b) ^ 2 + (a' - b') ^ 2)) by lia.
  rewrite (wrap32_small ((c - b) ^ 2 + (c' - b') ^ 2)) by lia.
  rewrite (wrap32_small (_ - _)) by lia.
  rewrite wrap32_small by lia. lia.
Qed.

Section WorkerFacts.
Variables sinf cosf : float -> float.
Variable image : image_t.
Variable stride : Z.

Lemma pixel_range (p : Z) : 0 <= pixel image p <= 255.
Proof.
  unfold pixel. pose proof (Byte.to_N_bounded (image p)). lia.
Qed.

Lemma window_term_bounds (ax ay bx by_ cx cy dx dy : Z) :
  - 65025 <= window_term image stride ax ay bx by_ cx cy dx dy <= 65025.
Proof.
  unfold window_term, window_pixel.
  pose proof (pixel_range (stride * (ay + dy) + ax + dx)).
  pose proof (pixel_range (stride * (by_ + dy) + bx + dx)).
  pose proof (pixel_range (stride * (cy + dy) + cx + dx)).
  nia.
Qed.

(** One row adds to lane [j] the terms of columns [j - 3] and [j + 1]. *)
Lemma patch_row_exact (ax ay bx by_ cx cy : Z) (accum : __m128i) (dy : Z) :
  - 2 ^ 30 <= lane0 accum <= 2 ^ 30 -> - 2 ^ 30 <= lane1 accum <= 2 ^ 30 ->
  - 2 ^ 30 <= lane2 accum <= 2 ^ 30 -> - 2 ^ 30 <= lane3 accum <= 2 ^ 30 ->
  patch_row image stride ax ay bx by_ cx cy accum dy =
  V4 (lane0 accum + (window_term image stride ax ay bx by_ cx cy (-3) dy
                     + window_term image stride ax ay bx by_ cx cy 1 dy))
     (lane1 accum + (window_term image stride ax ay bx by_ cx cy (-2) dy
                     + window_term image stride ax ay bx by_ cx cy 2 dy))
     (lane2 accum + (window_term image stride ax ay bx by_ cx cy (-1) dy
                     + window_term image stride ax ay bx by_ cx cy 3 dy))
     (lane3 accum + (window_term image stride ax ay bx by_ cx cy 0 dy
                     + window_term image stride ax ay bx by_ cx cy 4 dy)).
Proof.
  intros H0 H1 H2 H3.
  unfold patch_row, _mm_add_epi32, _mm_sub_epi32, _mm_mullo_epi32, vec4_map2,
    _mm_cvtepu8_epi32, _mm_loadu_si128.
  cbn [lane0 lane1 lane2 lane3].
  unfold window_term, window_pixel.
  f_equal.
  all: rewrite lane_exact by (first [apply pixel_range | assumption]).
  all: unfold pixel.
  all: repeat match goal with
         | |- context [image (?a - 3 + 4 + ?k)] =>
             let k' := eval cbv in (k + 1) in
             replace (a - 3 + 4 + k) with (a + k') by lia
         | |- context [image (?a - 3 + ?k)] =>
             let k' := eval cbv in (k - 3) in
             replace (a - 3 + k) with (a + k') by lia
         end.
  all: reflexivity.
Qed.

(** The [patchy] loop, run from any row [lo] for [n] rows. *)
Lemma patch_rows_exact (ax ay bx by_ cx cy : Z) (n : nat) (lo : Z) (accum : __m128i) :
  let B := 2 ^ 30 - Z.of_nat n * 130050 in
  - B <= lane0 accum <= B -> - B <= lane1 accum <= B ->
  - B <= lane2 accum <= B -> - B <= lane3 accum <= B ->
  for_loop n lo (patch_row image stride ax ay bx by_ cx cy) accum =
  V4 (lane0 accum + sumZ n lo (fun dy => window_term image stride ax ay bx by_ cx cy (-3) dy
                                         + window_term image stride ax ay bx by_ cx cy 1 dy))
     (lane1 accum + sumZ n lo (fun dy => window_term image stride ax ay bx by_ cx cy (-2) dy
                                         + window_term image stride ax ay bx by_ cx cy 2 dy))
     (lane2 accum + sumZ n lo (fun dy => window_term image stride ax ay bx by_ cx cy (-1) dy
                                         + window_term image stride ax ay bx by_ cx cy 3 dy))
     (lane3 accum + sumZ n lo (fun dy => window_term image stride ax ay bx by_ cx cy 0 dy
                                         + window_term image stride ax ay bx by_ cx cy 4 dy)).
Proof.
  revert lo accum. induction n as [|n IH]; intros lo accum B H0 H1 H2 H3.
  - cbn [for_loop sumZ]. destruct accum; cbn [lane0 lane1 lane2 lane3].
    f_equal; lia.
  - cbn [for_loop sumZ]. subst B.
    pose proof (window_term_bounds ax ay bx by_ cx cy) as Hb.
    pose proof (Hb (-3) lo); pose proof (Hb 1 lo); pose proof (Hb (-2) lo);
      pose proof (Hb 2 lo); pose proof (Hb (-1) lo); pose proof (Hb 3 lo);
      pose proof (Hb 0 lo); pose proof (Hb 4 lo).
    rewrite patch_row_exact by lia.
    rewrite IH by (cbn [lane0 lane1 lane2 lane3]; lia).
    cbn [lane0 lane1 lane2 lane3]. f_equal; lia.
Qed.

(** The [int] of line 616 is the sum over the 8x8 window, and no 32-bit
    operation on the way wraps. *)
Lemma patch_sum_exact (xints yints : __m128i) :
  patch_sum image stride xints yints =
  ssd_difference image stride (lane0 xints) (lane0 yints) (lane1 xints) (lane1 yints)
                 (lane2 xints) (lane2 yints).
Proof.
  unfold patch_sum, for_range, _mm_setzero_si128.
  change (Z.to_nat (4 + 1 - -3)) with 8%nat.
  change (_mm_extract_epi32 xints 0) with (lane0 xints).
  change (_mm_extract_epi32 xints 1) with (lane1 xints).
  change (_mm_extract_epi32 xints 2) with (lane2 xints).
  change (_mm_extract_epi32 yints 0) with (lane0 yints).
  change (_mm_extract_epi32 yints 1) with (lane1 yints).
  change (_mm_extract_epi32 yints 2) with (lane2 yints).
  rewrite patch_rows_exact by (cbn; lia).
  unfold _mm_hadd_epi32, _mm_extract_epi32.
  change (Z.land 0 3) with 0. change (Z.land 1 3) with 1.
  cbn [lane0 lane1 lane2 lane3].
  unfold ssd_difference.
  set (D := window_term image stride (lane0 xints) (lane0 yints) (lane1 xints)
              (lane1 yints) (lane2 xints) (lane2 yints)).
  assert (Hb : forall dx, - 520200 <= sumZ 8 (-3) (D dx) <= 520200).
  { intros dx.
    pose proof (sumZ8_bounds (-3) (D dx) (-65025) 65025
                  (fun k => window_term_bounds _ _ _ _ _ _ dx k)).
    lia. }
  rewrite !sumZ_plus.
  pose proof (Hb (-3)); pose proof (Hb (-2)); pose proof (Hb (-1)); pose proof (Hb 0);
    pose proof (Hb 1); pose proof (Hb 2); pose proof (Hb 3); pose proof (Hb 4).
  rewrite !wrap32_small by lia.
  rewrite (sumZ_ext 8 (-3) (fun dy => sumZ 8 (-3) (fun dx => D dx dy))
             (fun dy => D (-3) dy + (D (-2) dy + (D (-1) dy + (D 0 dy
            + (D 1 dy + (D 2 dy + (D 3 dy + D 4 dy)))))))).
  2:{ intros k _. cbv beta. rewrite sumZ8_window. lia. }
  rewrite !sumZ_plus.
  change (fun dy => D ?dx dy) with (D dx). lia.
Qed.

(** The mask of one triplet: [2^bit] when its sum is negative, else 0. *)
Lemma triplet_mask_spec (r : kp_regs) (triplet bit : Z) :
  0 <= bit <= 7 ->
  triplet_mask image stride r triplet bit =
  if centers_ssd image stride r triplet <? 0 then 2 ^ bit else 0.
Proof.
  intros Hbit. unfold triplet_mask, centers_ssd.
  destruct (sample_centers r triplet) as [xints yints].
  rewrite patch_sum_exact.
  apply sign_mask_spec; [|lia].
  unfold ssd_difference.
  set (D := window_term image stride (lane0 xints) (lane0 yints) (lane1 xints)
              (lane1 yints) (lane2 xints) (lane2 yints)).
  pose proof (sumZ8_bounds (-3) (fun dy => sumZ 8 (-3) (fun dx => D dx dy))
                (8 * -65025) (8 * 65025)
                (fun dy => sumZ8_bounds (-3) (fun dx => D dx dy) (-65025) 65025
                   (fun dx => window_term_bounds _ _ _ _ _ _ dx dy))).
  lia.
Qed.

(** *** The bit loop *)

(** Eight iterations from pointer [triplet] on a zeroed byte: the byte
    collects one bit per triplet, the pointer moves by 48, and no other
    byte changes. *)
Lemma bit_loop_spec (r : kp_regs) (desc fragment : Z) (buf : buffer) (triplet : Z) :
  buf (desc + fragment) = 0 ->
  let st := for_range 0 8 (bit_body image stride r desc fragment) (buf, triplet) in
  snd st = triplet + 48 /\
  (forall q, q <> desc + fragment -> fst st q = buf q) /\
  fst st (desc + fragment) =
    sumZ 8 0 (fun b => if centers_ssd image stride r (triplet + 6 * b) <? 0
                       then 2 ^ b else 0).
Proof.
  intros Hzero st. subst st. unfold for_range. change (Z.to_nat (8 - 0)) with 8%nat.
  set (mask := fun b => if centers_ssd image stride r (triplet + 6 * b) <? 0
                        then 2 ^ b else 0).
  pose proof (for_loop_invariant
    (fun k st => 0 <= k <= 8 /\ snd st = triplet + 6 * k /\
                 (forall q, q <> desc + fragment -> fst st q = buf q) /\
                 fst st (desc + fragment) = sumZ (Z.to_nat k) 0 mask /\
                 0 <= fst st (desc + fragment) < 2 ^ k)
    8 0 (bit_body image stride r desc fragment) (buf, triplet)) as Hinv.
  cbv beta in Hinv.
  destruct Hinv as (_ & Hp & Hq & Hv & _).
  - cbn [fst snd]. rewrite Hzero. cbn. repeat split; lia.
  - intros k [buf' triplet'] Hk (Hk' & Hp & Hq & Hv & Hr). cbn [fst snd] in *.
    unfold bit_body. cbn [fst snd]. subst triplet'.
    rewrite triplet_mask_spec by lia. fold (mask k).
    assert (Hm : mask k = 0 \/ mask k = 2 ^ k).
    { unfold mask. destruct (_ <? 0); auto. }
    assert (Hpow : 2 ^ (k + 1) = 2 * 2 ^ k) by (rewrite Z.pow_add_r by lia; lia).
    assert (Hle : 2 ^ (k + 1) <= 256).
    { change 256 with (2 ^ 8). apply Z.pow_le_mono_r; lia. }
    assert (Hlor : Z.lor (buf' (desc + fragment)) (mask k)
                   = buf' (desc + fragment) + mask k).
    { destruct Hm as [-> | ->]; [rewrite Z.lor_0_r; lia | apply lor_fresh_bit; lia]. }
    assert (0 <= mask k <= 2 ^ k) by (destruct Hm as [-> | ->]; lia).
    repeat split; try lia.
    + intros q Hne. unfold store_u8. destruct (Z.eqb_spec q (desc + fragment)); [lia|].
      apply Hq, Hne.
    + unfold store_u8. rewrite Z.eqb_refl, Hlor, to_u8_small by lia.
      replace (Z.to_nat (k + 1)) with (S (Z.to_nat k)) by lia.
      rewrite sumZ_snoc, Hv. f_equal. f_equal. lia.
    + unfold store_u8. rewrite Z.eqb_refl, Hlor, to_u8_small by lia. lia.
    + unfold store_u8. rewrite Z.eqb_refl, Hlor, to_u8_small by lia. lia.
  - cbn [fst snd] in *. repeat split.
    + etransitivity; [exact Hp | lia].
    + exact Hq.
    + exact Hv.
Qed.

(** *** The fragment loop *)

Lemma store_u8_zero (buf : buffer) (p : Z) : store_u8 buf p 0 p = 0.
Proof. unfold store_u8. rewrite Z.eqb_refl. reflexivity. Qed.

Lemma store_u8_other (buf : buffer) (p v q : Z) : q <> p -> store_u8 buf p v q = buf q.
Proof. intros H. unfold store_u8. destruct (Z.eqb_spec q p); [contradiction | reflexivity]. Qed.

(** The 64 fragments of one key point: the walking pointer reaches
    triplet [8 * fragment + bit] at iteration [(fragment, bit)], and the
    64 bytes at [desc] become the descriptor whatever they held. *)
Lemma fragment_loop_spec (pt : KeyPoint.t) (desc : Z) (buf : buffer) :
  let st := for_range 0 64 (fragment_body image stride (load_regs sinf cosf pt) desc)
              (buf, 0) in
  snd st = 6 * 512 /\
  forall q, fst st q =
            if (desc <=? q) && (q <? desc + 64)
            then descriptor_byte sinf cosf image stride pt (q - desc)
            else buf q.
Proof.
  intros st. subst st. unfold for_range. change (Z.to_nat (64 - 0)) with 64%nat.
  pose proof (for_loop_invariant
    (fun k st => 0 <= k <= 64 /\ snd st = 48 * k /\
                 forall q, fst st q =
                           if (desc <=? q) && (q <? desc + k)
                           then descriptor_byte sinf cosf image stride pt (q - desc)
                           else buf q)
    64 0 (fragment_body image stride (load_regs sinf cosf pt) desc) (buf, 0)) as Hinv.
  cbv beta in Hinv.
  destruct Hinv as (_ & Hp & Hq).
  - cbn [fst snd]. repeat split; try lia. intros q.
    destruct (Z.leb_spec desc q), (Z.ltb_spec q (desc + 0)); cbn [andb]; first [lia | reflexivity].
  - intros k [buf' triplet'] Hk (Hk' & Hp & Hq). cbn [fst snd] in *.
    unfold fragment_body.
    pose proof (bit_loop_spec (load_regs sinf cosf pt) desc k
                  (store_u8 buf' (desc + k) 0) triplet' (store_u8_zero _ _)) as Hbits.
    cbv zeta in Hbits. destruct Hbits as (Hp' & Hq' & Hv').
    repeat split; try lia.
    + etransitivity; [exact Hp' | lia].
    + intros q. destruct (Z.eq_dec q (desc + k)) as [->|Hne].
      * etransitivity; [exact Hv'|].
        destruct (Z.leb_spec desc (desc + k)), (Z.ltb_spec (desc + k) (desc + (k + 1)));
          cbn [andb]; try lia.
        unfold descriptor_byte, triplet_sum. apply sumZ_ext. intros b _.
        replace (triplet' + 6 * b) with (6 * (8 * (desc + k - desc) + b)) by lia.
        reflexivity.
      * etransitivity; [apply Hq', Hne|].
        rewrite store_u8_other by exact Hne. rewrite Hq.
        destruct (Z.leb_spec desc q), (Z.ltb_spec q (desc + k)),
          (Z.ltb_spec q (desc + (k + 1))); cbn [andb]; first [lia | reflexivity].
  - cbn [fst snd] in *. split.
    + etransitivity; [exact Hp | lia].
    + intros q. etransitivity; [apply Hq|]. reflexivity.
Qed.

(** *** The key point loop *)

Lemma vector_at_Some {A : Type} (v : list A) (i : Z) :
  0 <= i < Z.of_nat (length v) -> exists a, vector_at v i = Some a.
Proof.
  intros H. unfold vector_at. destruct (Z.ltb_spec i 0); [lia|].
  destruct (lookup_lt_is_Some_2 v (Z.to_nat i)) as [a Ha]; [lia|]. eauto.
Qed.

Lemma vector_at_None {A : Type} (v : list A) (i : Z) :
  Z.of_nat (length v) <= i -> vector_at v i = None.
Proof.
  intros H. unfold vector_at. destruct (Z.ltb_spec i 0); [reflexivity|].
  apply lookup_ge_None_2. lia.
Qed.

Lemma keypoint_body_spec (keypoints : list KeyPoint.t) (buf : buffer) (i : Z)
    (pt : KeyPoint.t) :
  vector_at keypoints i = Some pt ->
  exists buf',
    keypoint_body sinf cosf image stride keypoints (Some buf) i = Some buf' /\
    forall q, buf' q =
              if (64 * i <=? q) && (q <? 64 * i + 64)
              then descriptor_byte sinf cosf image stride pt (q - 64 * i)
              else buf q.
Proof.
  intros Hpt. unfold keypoint_body. rewrite Hpt.
  eexists. split; [reflexivity|].
  intros q. rewrite Z.shiftl_mul_pow2 by lia.
  replace (8 * (i * 2 ^ 3)) with (64 * i) by lia.
  apply (proj2 (fragment_loop_spec pt (64 * i) buf)).
Qed.

Lemma keypoint_body_None (keypoints : list KeyPoint.t) (i : Z) :
  keypoint_body sinf cosf image stride keypoints None i = None.
Proof. reflexivity. Qed.

(** The worker on a range inside the vector: it returns, and the output
    memory is [descriptors_of]. *)
Lemma _LATCH_spec (start thread_stride : Z) (keypoints : list KeyPoint.t)
    (descriptors : buffer) :
  0 <= start -> start + thread_stride <= Z.of_nat (length keypoints) ->
  exists buf',
    _LATCH sinf cosf image stride start thread_stride keypoints descriptors = Some buf' /\
    forall q, buf' q =
              descriptors_of sinf cosf image stride keypoints start
                (start + thread_stride) descriptors q.
Proof.
  intros Hstart Hend. unfold _LATCH, for_range.
  replace (start + thread_stride - start) with thread_stride by lia.
  destruct (Z.le_gt_cases thread_stride 0) as [Hle|Hpos].
  { replace (Z.to_nat thread_stride) with 0%nat by lia. cbn [for_loop].
    eexists; split; [reflexivity|]. intros q. unfold descriptors_of.
    destruct (Z.leb_spec (64 * start) q), (Z.ltb_spec q (64 * (start + thread_stride)));
      cbn [andb]; first [lia | reflexivity]. }
  pose proof (for_loop_invariant
    (fun i ob => exists buf', ob = Some buf' /\
                 forall q, buf' q =
                           descriptors_of sinf cosf image stride keypoints start i
                             descriptors q)
    (Z.to_nat thread_stride) start
    (keypoint_body sinf cosf image stride keypoints) (Some descriptors)) as Hinv.
  cbv beta in Hinv. rewrite Z2Nat.id in Hinv by lia. apply Hinv; clear Hinv.
  - eexists; split; [reflexivity|]. intros q. unfold descriptors_of.
    destruct (Z.leb_spec (64 * start) q), (Z.ltb_spec q (64 * start));
      cbn [andb]; first [lia | reflexivity].
  - intros i ob Hi (buf' & -> & Hbuf).
    destruct (vector_at_Some keypoints i ltac:(lia)) as [pt Hpt].
    destruct (keypoint_body_spec keypoints buf' i pt Hpt) as (buf'' & Hrun & Hbuf'').
    exists buf''. split; [exact Hrun|].
    intros q. rewrite Hbuf'', Hbuf. unfold descriptors_of.
    destruct (Z.leb_spec (64 * i) q), (Z.ltb_spec q (64 * i + 64)); cbn [andb].
    + assert (Hdiv : q / 64 = i)
        by (symmetry; apply Z.div_unique with (r := q - 64 * i); lia).
      assert (Hmod : q mod 64 = q - 64 * i) by (rewrite Z.mod_eq, Hdiv by lia; lia).
      destruct (Z.leb_spec (64 * start) q), (Z.ltb_spec q (64 * (i + 1)));
        cbn [andb]; try lia.
      rewrite Hdiv, Hpt, Hmod. reflexivity.
    + destruct (Z.leb_spec (64 * start) q), (Z.ltb_spec q (64 * i)),
        (Z.ltb_spec q (64 * (i + 1))); cbn [andb]; first [lia | reflexivity].
    + destruct (Z.leb_spec (64 * start) q), (Z.ltb_spec q (64 * i)),
        (Z.ltb_spec q (64 * (i + 1))); cbn [andb]; first [lia | reflexivity].
    + destruct (Z.leb_spec (64 * start) q), (Z.ltb_spec q (64 * i)),
        (Z.ltb_spec q (64 * (i + 1))); cbn [andb]; first [lia | reflexivity].
Qed.
End WorkerFacts.

(** ** The descriptor in memory *)

Section DescriptorFacts.
Variables sinf cosf : float -> float.
Variable image : image_t.
Variable stride : Z.

Lemma descriptors_of_slot (keypoints : list KeyPoint.t) (lo hi : Z) (buf : buffer)
    (i f : Z) (pt : KeyPoint.t) :
  lo <= i < hi -> vector_at keypoints i = Some pt -> 0 <= f < 64 ->
  descriptors_of sinf cosf image stride keypoints lo hi buf (64 * i + f) =
  descriptor_byte sinf cosf image stride pt f.
Proof.
  intros Hi Hpt Hf. unfold descriptors_of.
  assert (Hdiv : (64 * i + f) / 64 = i)
    by (symmetry; apply Z.div_unique with (r := f); lia).
  assert (Hmod : (64 * i + f) mod 64 = f) by (rewrite Z.mod_eq, Hdiv by lia; lia).
  destruct (Z.leb_spec (64 * lo) (64 * i + f)), (Z.ltb_spec (64 * i + f) (64 * hi));
    cbn [andb]; try lia.
  rewrite Hdiv, Hpt, Hmod. reflexivity.
Qed.

Lemma descriptors_of_outside (keypoints : list KeyPoint.t) (lo hi : Z) (buf : buffer)
    (q : Z) :
  q < 64 * lo \/ 64 * hi <= q ->
  descriptors_of sinf cosf image stride keypoints lo hi buf q = buf q.
Proof.
  intros Hq. unfold descriptors_of.
  destruct (Z.leb_spec (64 * lo) q), (Z.ltb_spec q (64 * hi)); cbn [andb];
    first [lia | reflexivity].
Qed.

(** Bit [b] of a descriptor byte is the sign of triplet [8 * fragment + b]. *)
Lemma descriptor_byte_testbit (pt : KeyPoint.t) (fragment b : Z) :
  0 <= b < 8 ->
  Z.testbit (descriptor_byte sinf cosf image stride pt fragment) b =
  (triplet_sum sinf cosf image stride pt (8 * fragment + b) <? 0).
Proof.
  intros Hb. unfold descriptor_byte. rewrite sumZ8_bits.
  assert (Hcase : b = 0 \/ b = 1 \/ b = 2 \/ b = 3 \/ b = 4 \/ b = 5 \/ b = 6 \/ b = 7)
    by lia.
  destruct Hcase as [-> | [-> | [-> | [-> | [-> | [-> | [-> | ->]]]]]]];
    repeat match goal with
      | |- context [triplet_sum sinf cosf image stride pt ?t <? 0] =>
          generalize (triplet_sum sinf cosf image stride pt t <? 0); intro
      end;
    repeat match goal with
      | c : bool |- _ => destruct c
      end;
    reflexivity.
Qed.

Lemma descriptor_byte_range (pt : KeyPoint.t) (fragment : Z) :
  0 <= descriptor_byte sinf cosf image stride pt fragment < 256.
Proof.
  unfold descriptor_byte. rewrite sumZ8_bits.
  repeat match goal with
    | |- context [if ?c then _ else _] => destruct c
    end; cbn; lia.
Qed.
End DescriptorFacts.

(** ** The erase-remove idiom *)

Section RemoveIfFacts.
Context {A : Type}.
Variable pred : A -> bool.

Lemma find_if_le (v : list A) : (find_if pred v <= length v)%nat.
Proof. induction v as [|a v IH]; cbn; [lia|]. destruct (pred a); lia. Qed.

(** Nothing before the position that [find_if] returns satisfies [pred]. *)
Lemma find_if_prefix (v : list A) :
  List.filter (kept_by pred) (take (find_if pred v) v) = take (find_if pred v) v.
Proof.
  induction v as [|a v IH]; cbn; [reflexivity|].
  destruct (pred a) eqn:Ha; cbn; [reflexivity|].
  unfold kept_by at 1. rewrite Ha. cbn. now rewrite IH.
Qed.

Lemma find_if_hit (v : list A) :
  (find_if pred v < length v)%nat ->
  exists a, v !! find_if pred v = Some a /\ pred a = true.
Proof.
  induction v as [|a v IH]; cbn; [lia|].
  destruct (pred a) eqn:Ha; intros H.
  - exists a. split; [reflexivity | exact Ha].
  - apply IH. lia.
Qed.

Lemma filter_keep_snoc (l : list A) (a : A) :
  List.filter (kept_by pred) (l ++ [a]) = List.filter (kept_by pred) l ++ (if pred a then [] else [a]).
Proof. rewrite List.filter_app. cbn. unfold kept_by at 2. destruct (pred a); reflexivity. Qed.

(** The loop keeps, in front of [result], the elements seen so far that
    do not satisfy [pred], in their order. *)
Lemma remove_if_loop_spec (v0 : list A) (n first result : nat) (v : list A) :
  (first + n = length v0)%nat -> length v = length v0 -> (result <= first)%nat ->
  drop first v = drop first v0 ->
  take result v = List.filter (kept_by pred) (take first v0) ->
  take (snd (remove_if_loop pred n first result v)) (fst (remove_if_loop pred n first result v))
  = List.filter (kept_by pred) v0.
Proof.
  revert first result v. induction n as [|n IH]; intros first result v Hn Hlen Hle Hdrop Htake.
  - cbn. rewrite Htake. rewrite take_ge by lia. reflexivity.
  - cbn [remove_if_loop].
    assert (Hlook : v !! first = v0 !! first).
    { pose proof (f_equal (fun l => l !! 0%nat) Hdrop) as H. cbv beta in H.
      rewrite !lookup_drop, Nat.add_0_r in H. exact H. }
    destruct (lookup_lt_is_Some_2 v0 first ltac:(lia)) as [a Ha].
    rewrite Hlook, Ha.
    assert (Hdrop' : drop (S first) v = drop (S first) v0).
    { pose proof (f_equal (drop 1) Hdrop) as H. rewrite !drop_drop in H.
      replace (first + 1)%nat with (S first) in H by lia. exact H. }
    assert (Hsnoc : take (S first) v0 = take first v0 ++ [a])
      by (apply take_S_r, Ha).
    destruct (pred a) eqn:Hpa.
    + apply IH; try assumption; try lia.
      rewrite Hsnoc, filter_keep_snoc, Hpa, app_nil_r. exact Htake.
    + apply IH; try lia.
      * rewrite length_insert. exact Hlen.
      * rewrite drop_insert_lt by lia. exact Hdrop'.
      * rewrite Hsnoc, filter_keep_snoc, Hpa, <- Htake.
        rewrite (take_S_r _ _ a) by (apply list_lookup_insert_eq; lia).
        rewrite take_insert_ge by lia. reflexivity.
Qed.

(** [v.erase (std::remove_if (...), v.end ())] is the stable filter. *)
Lemma erase_remove_if_filter (v : list A) :
  erase_remove_if pred v = List.filter (kept_by pred) v.
Proof.
  unfold erase_remove_if, remove_if, erase_to_end.
  pose proof (find_if_le v) as Hle. pose proof (find_if_prefix v) as Hpre.
  destruct (Nat.eqb_spec (find_if pred v) (length v)) as [Heq|Hne].
  - rewrite Heq in *. rewrite take_ge in * by lia. now symmetry.
  - destruct (find_if_hit v ltac:(lia)) as (a & Ha & Hpa).
    destruct (remove_if_loop pred _ _ _ v) as [v' new_end] eqn:Hloop.
    pose proof (remove_if_loop_spec v (length v - S (find_if pred v))
                  (S (find_if pred v)) (find_if pred v) v) as Hspec.
    rewrite Hloop in Hspec. cbn [fst snd] in Hspec. apply Hspec; try lia; try reflexivity.
    rewrite (take_S_r _ _ a) by exact Ha.
    rewrite filter_keep_snoc, Hpa, app_nil_r. now symmetry.
Qed.
End RemoveIfFacts.

Lemma filter_sublist {A : Type} (f : A -> bool) (l : list A) : sublist (List.filter f l) l.
Proof.
  induction l as [|a l IH]; cbn; [constructor|].
  destruct (f a); now constructor.
Qed.

(** ** binary32 *)

Lemma shr_1_nonneg (mrs : shr_record) : 0 <= shr_m mrs -> 0 <= shr_m (shr_1 mrs).
Proof.
  destruct mrs as [m r s]. cbn [shr_m]. intros H.
  destruct m as [|p|p]; [cbn; lia | | lia].
  destruct p; cbn; lia.
Qed.

Lemma iter_pos_invariant {A : Type} (P : A -> Prop) (f : A -> A) :
  (forall a, P a -> P (f a)) -> forall p a, P a -> P (SpecFloat.iter_pos f p a).
Proof.
  intros Hf p. induction p as [p IH|p IH|]; intros a Ha; cbn; auto.
Qed.

Lemma shr_nonneg (mrs : shr_record) (e n : Z) :
  0 <= shr_m mrs -> 0 <= shr_m (fst (shr mrs e n)).
Proof.
  intros H. unfold shr. destruct n; cbn [fst]; try exact H.
  apply (iter_pos_invariant (fun r => 0 <= shr_m r)); [apply shr_1_nonneg | exact H].
Qed.

Lemma shr_fexp_nonneg (m e : Z) (l : location) :
  0 <= m -> 0 <= shr_m (fst (shr_fexp F32.prec F32.emax m e l)).
Proof.
  intros H. unfold shr_fexp. apply shr_nonneg.
  destruct l as [|[| |]]; exact H.
Qed.

Lemma round_nearest_even_nonneg (m : Z) (l : location) :
  0 <= m -> 0 <= round_nearest_even m l.
Proof.
  intros H. unfold round_nearest_even.
  destruct l as [|[| |]]; try destruct (Z.even m); lia.
Qed.

Lemma binary_round_aux_sign (s : bool) (m e : Z) (l : location) :
  0 <= m -> has_sign s (binary_round_aux F32.prec F32.emax s m e l).
Proof.
  intros H. unfold binary_round_aux.
  pose proof (shr_fexp_nonneg m e l H) as H1.
  destruct (shr_fexp F32.prec F32.emax m e l) as [mrs' e'] eqn:E1. cbn [fst] in H1.
  pose proof (shr_fexp_nonneg
    (round_nearest_even (shr_m mrs') (loc_of_shr_record mrs')) e' loc_Exact
    (round_nearest_even_nonneg _ _ H1)) as H2.
  destruct (shr_fexp F32.prec F32.emax _ e' loc_Exact) as [mrs'' e''] eqn:E2.
  cbn [fst] in H2.
  destruct (shr_m mrs'') as [|p|p]; [reflexivity | | lia].
  destruct (e'' <=? F32.emax - F32.prec); reflexivity.
Qed.

(** The conversion of an [int] keeps the sign and never gives NaN. *)
Lemma of_Z_sign (z : Z) : has_sign (z <? 0) (F32.of_Z z).
Proof.
  unfold F32.of_Z, binary_normalize.
  destruct z as [|p|p]; [reflexivity | |]; unfold binary_round;
    destruct (shl_align _ _ _) as [mz ez]; apply binary_round_aux_sign; lia.
Qed.

Lemma SFcompare_refl (a : float) : has_sign (match a with
                                             | S754_zero s | S754_infinity s
                                             | S754_finite s _ _ => s
                                             | S754_nan => false
                                             end) a ->
  SFcompare a a = Some Eq.
Proof.
  destruct a as [s|s| |s m e]; cbn; intros H; try contradiction; try reflexivity.
  - now destruct s.
  - rewrite Z.compare_refl. fold (Pos.compare m m). rewrite Pos.compare_refl.
    now destruct s.
Qed.

Lemma SFleb_refl (a : float) : F32.is_nan a = false -> SFleb a a = true.
Proof.
  intros H. unfold SFleb. rewrite SFcompare_refl; [reflexivity|].
  destruct a; try reflexivity. discriminate.
Qed.

Lemma of_Z_not_nan (z : Z) : F32.is_nan (F32.of_Z z) = false.
Proof. pose proof (of_Z_sign z) as H. destruct (F32.of_Z z); try reflexivity. contradiction. Qed.

Lemma of_Z_at_most_36 (z : Z) : z <= 36 -> at_most_36 (F32.of_Z z).
Proof.
  intros H. destruct (Z.le_gt_cases z 0) as [Hle|Hpos].
  - pose proof (of_Z_sign z) as Hs.
    destruct (Z.ltb_spec z 0).
    + destruct (F32.of_Z z) as [s|s| |s m e]; cbn in *; try contradiction; subst; auto.
    + replace z with 0 by lia. exact I.
  - assert (Hk : exists k : nat, (k < 36)%nat /\ z = Z.of_nat k + 1)
      by (exists (Z.to_nat (z - 1)); lia).
    destruct Hk as (k & Hk & ->). clear H Hpos.
    do 36 (destruct k as [|k]; [vm_compute; first [right; split; [reflexivity | discriminate]
                                                   | left; reflexivity] |]).
    lia.
Qed.

(** A float that is not NaN is at most 36 or at least any float that is. *)
Lemma le_36_or_ge (a b : float) :
  F32.is_nan a = false -> at_most_36 b ->
  F32.le a (F32.of_Z 36) = true \/ F32.ge a b = true.
Proof.
  intros Ha Hb. unfold F32.le, F32.ge, SFleb.
  change (F32.of_Z 36) with (S754_finite false 9437184 (-18)).
  destruct a as [sa|sa| |sa ma ea]; try discriminate; clear Ha.
  - left. reflexivity.
  - destruct sa; [left; reflexivity | right].
    destruct b as [sb|sb| |sb mb eb]; cbn in Hb |- *; try contradiction; subst;
      try reflexivity; now destruct sb.
  - destruct sa; [left; reflexivity|].
    cbn [SFcompare].
    destruct (Z.compare_spec ea (-18)) as [->|Hlt|Hgt]; [|left; reflexivity|].
    + destruct (Pos.compare_cont Eq ma 9437184) eqn:Hm; [left; reflexivity .. |].
      right.
      assert (Hx : (9437184 < ma)%positive) by (apply Pos.compare_gt_iff; exact Hm).
      clear Hm.
      destruct b as [sb|sb| |sb mb eb]; cbn in Hb |- *; try contradiction; subst;
        try reflexivity.
      destruct sb; [reflexivity|].
      destruct Hb as [Hlt | [-> Hle]].
      * apply Z.compare_lt_iff in Hlt. rewrite Hlt. reflexivity.
      * change (-18 ?= -18) with Eq. cbv iota.
        assert (Hc : (mb ?= ma)%positive = Lt)
          by (apply Pos.compare_lt_iff; eapply Pos.le_lt_trans; eassumption).
        unfold Pos.compare in Hc. rewrite Hc. reflexivity.
    + right.
      destruct b as [sb|sb| |sb mb eb]; cbn in Hb |- *; try contradiction; subst;
        try reflexivity.
      destruct sb; [reflexivity|].
      assert (Hc : eb < ea).
      { destruct Hb as [Hlt | [-> _]]; [eapply Z.lt_trans; [exact Hlt|] |]; exact Hgt. }
      apply Z.compare_lt_iff in Hc. rewrite Hc. reflexivity.
Qed.

(** ** Clamping and rounding *)

Lemma SFcompare_antisym (a b : float) :
  SFcompare b a = option_map CompOpp (SFcompare a b).
Proof.
  destruct a as [sa|sa| |sa ma ea], b as [sb|sb| |sb mb eb]; cbn;
    try reflexivity; try (destruct sa; reflexivity); try (destruct sb; reflexivity);
    try (destruct sa, sb; reflexivity).
  rewrite (Z.compare_antisym ea eb).
  assert (Hm : PosDef.Pos.compare_cont Eq mb ma = CompOpp (PosDef.Pos.compare_cont Eq ma mb))
    by exact (Pos.compare_antisym ma mb).
  destruct sa, sb; cbn; try reflexivity; rewrite Hm;
    destruct (ea ?= eb); cbn; try reflexivity; now rewrite CompOpp_involutive.
Qed.

Lemma SFadd_comm (a b : float) : F32.add a b = F32.add b a.
Proof.
  unfold F32.add.
  destruct a as [sa|sa| |sa ma ea], b as [sb|sb| |sb mb eb]; cbn;
    try reflexivity; try (destruct sa, sb; reflexivity).
  rewrite (Z.min_comm eb ea), Z.add_comm. reflexivity.
Qed.

Lemma SFltb_leb (a b : float) : SFltb a b = true -> SFleb a b = true.
Proof. unfold SFltb, SFleb. destruct (SFcompare a b) as [[| |]|]; auto. Qed.

Lemma SFltb_asym (a b : float) : SFltb a b = true -> SFltb b a = false.
Proof.
  unfold SFltb. rewrite (SFcompare_antisym a b).
  destruct (SFcompare a b) as [[| |]|]; cbn; auto; discriminate.
Qed.

(** Two floats that compare equal and are not zeros are the same float. *)
Lemma SFcompare_Eq_finite (s : bool) (m : positive) (e : Z) (b : float) :
  SFcompare (S754_finite s m e) b = Some Eq -> b = S754_finite s m e.
Proof.
  destruct b as [sb|sb| |sb mb eb]; cbn; try (destruct s; discriminate);
    try (destruct sb; discriminate); try discriminate.
  destruct s, sb; try discriminate;
    destruct (Z.compare_spec e eb) as [->| |]; try discriminate;
    destruct (Pos.compare_cont Eq m mb) eqn:Hm; try discriminate;
    apply Pos.compare_eq in Hm; subst; reflexivity.
Qed.

(** The clamp of lines 591-592: its result lies in [-32, 32] for every
    input (NaN goes to -32), it is the identity on [-32, 32], and it is
    the nearer bound outside. *)
Lemma clamp_32_spec (v : float) :
  F32.le (F32.of_Z (-32)) (clamp_32 v) = true /\
  F32.le (clamp_32 v) (F32.of_Z 32) = true /\
  (F32.le (F32.of_Z (-32)) v = true -> F32.le v (F32.of_Z 32) = true -> clamp_32 v = v) /\
  (F32.lt v (F32.of_Z (-32)) = true -> clamp_32 v = F32.of_Z (-32)) /\
  (F32.lt (F32.of_Z 32) v = true -> clamp_32 v = F32.of_Z 32) /\
  (F32.is_nan v = true -> clamp_32 v = F32.of_Z (-32)).
Proof.
  unfold clamp_32, minps, maxps, F32.le, F32.lt.
  change (F32.of_Z (-32)) with (S754_finite true 8388608 (-18)).
  change (F32.of_Z 32) with (S754_finite false 8388608 (-18)).
  set (lo := S754_finite true 8388608 (-18)). set (hi := S754_finite false 8388608 (-18)).
  assert (Hlohi : SFltb lo hi = true) by reflexivity.
  assert (Hlolo : SFleb lo lo = true) by reflexivity.
  assert (Hhihi : SFleb hi hi = true) by reflexivity.
  assert (Hlehi : SFleb lo hi = true) by reflexivity.
  assert (Hhilo : SFltb hi lo = false) by reflexivity.
  assert (Hhi' : SFltb hi hi = false) by reflexivity.
  assert (Hlo' : SFltb lo lo = false) by reflexivity.
  assert (Htrans : SFltb hi v = true -> SFltb lo v = true).
  { subst lo hi. destruct v as [s|s| |s m e]; cbn; try discriminate; try reflexivity.
    - destruct s; [discriminate | reflexivity].
    - destruct s; [discriminate | reflexivity]. }
  repeat split.
  - destruct (SFltb lo v) eqn:H1; [|rewrite Hlohi; exact Hlolo].
    destruct (SFltb v hi) eqn:H2; [apply SFltb_leb, H1 | exact Hlehi].
  - destruct (SFltb lo v) eqn:H1; [|rewrite Hlohi; exact Hlehi].
    destruct (SFltb v hi) eqn:H2; [apply SFltb_leb, H2 | exact Hhihi].
  - intros Hge Hle.
    assert (Hu : (if SFltb lo v then v else lo) = v).
    { destruct (SFltb lo v) eqn:H1; [reflexivity|].
      unfold SFleb in Hge. unfold SFltb in H1.
      destruct (SFcompare lo v) as [[| |]|] eqn:Hc; try discriminate.
      symmetry. apply (SFcompare_Eq_finite _ _ _ _ Hc). }
    rewrite Hu. destruct (SFltb v hi) eqn:H2; [reflexivity|].
    unfold SFleb in Hle. unfold SFltb in H2.
    destruct (SFcompare v hi) as [[| |]|] eqn:Hc; try discriminate.
    rewrite SFcompare_antisym in Hc.
    destruct (SFcompare hi v) as [[| |]|] eqn:Hc'; try discriminate.
    symmetry. apply (SFcompare_Eq_finite _ _ _ _ Hc').
  - intros Hlt. rewrite (SFltb_asym _ _ Hlt), Hlohi. reflexivity.
  - intros Hgt. rewrite (Htrans Hgt), (SFltb_asym _ _ Hgt). reflexivity.
  - intros Hnan. destruct v; try discriminate. reflexivity.
Qed.

(** [F32.round_half_even] rounds to nearest, ties to even. *)
Lemma round_half_even_nearest (m : positive) (e : Z) :
  nearest_even m e (F32.round_half_even m e).
Proof.
  unfold nearest_even, F32.round_half_even.
  destruct e as [|p|p]; [reflexivity | reflexivity |].
  change (0 <=? Z.neg p) with false. cbv iota.
  change (- Z.neg p) with (Z.pos p).
  assert (Hd : 0 < 2 ^ Z.pos p) by (apply Z.pow_pos_nonneg; lia).
  set (d := 2 ^ Z.pos p) in *.
  pose proof (Z.div_mod (Z.pos m) d ltac:(lia)) as Hdm.
  pose proof (Z.mod_pos_bound (Z.pos m) d Hd) as Hr.
  set (q := Z.pos m / d) in *. set (r := Z.pos m mod d) in *.
  clearbody q r d. clear p.
  assert (Hm : Z.pos m - q * d = r) by lia.
  assert (Hm' : Z.pos m - (q + 1) * d = r - d) by lia.
  destruct (Z.compare_spec (2 * r) d) as [Heq|Hlt|Hgt].
  - destruct (Z.even q) eqn:Hev.
    + rewrite Hm. split; [lia | intros _; exact Hev].
    + rewrite Hm'. split; [lia|]. intros _.
      rewrite Z.even_add, Hev. reflexivity.
  - rewrite Hm. split; lia.
  - rewrite Hm'. split; lia.
Qed.

(** CVTPS2DQ: the nearest integer, ties to even, when it fits an [int]. *)
Lemma to_int32_nearest (s : bool) (m : positive) (e : Z) :
  let n := F32.round_half_even m e in
  nearest_even m e n /\
  (- 2 ^ 31 <= cond_Zopp s n < 2 ^ 31 ->
   F32.to_int32 (S754_finite s m e) = cond_Zopp s n) /\
  (~ - 2 ^ 31 <= cond_Zopp s n < 2 ^ 31 ->
   F32.to_int32 (S754_finite s m e) = - 2 ^ 31).
Proof.
  intros n. split; [apply round_half_even_nearest|].
  unfold F32.to_int32. fold n.
  destruct (Z.leb_spec (- 2 ^ 31) (cond_Zopp s n)), (Z.ltb_spec (cond_Zopp s n) (2 ^ 31));
    cbn [andb]; split; intros; first [reflexivity | lia].
Qed.

(** ** The worker outside the vector *)

Section DispatcherFacts.
Variables sinf cosf : float -> float.
Variable image : image_t.
Variable stride : Z.

Lemma keypoint_loop_None (keypoints : list KeyPoint.t) (n : nat) (i : Z) :
  for_loop n i (keypoint_body sinf cosf image stride keypoints) None = None.
Proof. revert i. induction n as [|n IH]; intros i; cbn [for_loop]; [reflexivity | apply IH]. Qed.

(** A loop that runs past the end of the vector is undefined. *)
Lemma keypoint_loop_overrun (keypoints : list KeyPoint.t) (n : nat) (i : Z) (buf : buffer) :
  0 <= i -> (0 < n)%nat -> Z.of_nat (length keypoints) < i + Z.of_nat n ->
  for_loop n i (keypoint_body sinf cosf image stride keypoints) (Some buf) = None.
Proof.
  revert i buf. induction n as [|n IH]; intros i buf Hi Hpos Hn; [lia|].
  cbn [for_loop].
  destruct (Z.le_gt_cases (Z.of_nat (length keypoints)) i) as [Hout|Hin].
  - unfold keypoint_body at 2. rewrite vector_at_None by exact Hout.
    apply keypoint_loop_None.
  - destruct (vector_at_Some keypoints i ltac:(lia)) as [pt Hpt].
    destruct (keypoint_body_spec sinf cosf image stride keypoints buf i pt Hpt)
      as (buf' & -> & _).
    apply IH; lia.
Qed.

Lemma _LATCH_overrun (start thread_stride : Z) (keypoints : list KeyPoint.t)
    (descriptors : buffer) :
  0 <= start -> Z.of_nat (length keypoints) < start + thread_stride ->
  0 < thread_stride ->
  _LATCH sinf cosf image stride start thread_stride keypoints descriptors = None.
Proof.
  intros Hs Hover Hpos. unfold _LATCH, for_range.
  apply keypoint_loop_overrun; lia.
Qed.

Lemma run_calls_app (fut1 fut2 : list call) (keypoints : list KeyPoint.t)
    (descriptors : buffer) :
  run_calls sinf cosf image stride (fut1 ++ fut2) keypoints descriptors =
  match run_calls sinf cosf image stride fut1 keypoints descriptors with
  | Some buf => run_calls sinf cosf image stride fut2 keypoints buf
  | None => None
  end.
Proof.
  unfold run_calls. rewrite foldl_app.
  destruct (foldl _ (Some descriptors) fut1) as [buf|]; [reflexivity|].
  induction fut2 as [|c fut2 IH]; [reflexivity | exact IH].
Qed.

(** One call that leaves the vector makes the whole run undefined,
    wherever it stands among the others. *)
Lemma run_calls_overrun (fut : list call) (c : call) (keypoints : list KeyPoint.t)
    (descriptors : buffer) :
  In c fut ->
  0 <= call_start c -> 0 < call_stride c ->
  Z.of_nat (length keypoints) < call_start c + call_stride c ->
  run_calls sinf cosf image stride fut keypoints descriptors = None.
Proof.
  intros Hin Hs Hpos Hover.
  apply in_split in Hin. destruct Hin as (fut1 & fut2 & ->).
  rewrite run_calls_app.
  destruct (run_calls sinf cosf image stride fut1 keypoints descriptors) as [buf|];
    [|reflexivity].
  change (c :: fut2) with ([c] ++ fut2). rewrite run_calls_app.
  unfold run_calls at 1. cbn [foldl].
  rewrite _LATCH_overrun by assumption. reflexivity.
Qed.
End DispatcherFacts.

Lemma keypoints_305_survive :
  erase_remove_if (near_border 1000 1000) keypoints_305 = keypoints_305.
Proof. rewrite erase_remove_if_filter. vm_compute. reflexivity. Qed.

(** ** The partition, where it is exact *)

Lemma launch_loop_chunks (thread_stride : Z) (n : nat) (i : Z) (fut : list call) (start : Z) :
  for_loop n i (launch_body thread_stride) (fut, start)
  = (fut ++ chunks n start thread_stride, start + Z.of_nat n * thread_stride).
Proof.
  revert i fut start. induction n as [|n IH]; intros i fut start.
  - cbn [for_loop chunks]. rewrite app_nil_r. f_equal. lia.
  - cbn [for_loop chunks launch_body]. rewrite IH, <- app_assoc. cbn [app]. f_equal. lia.
Qed.

Lemma chunks_indices (n : nat) (start thread_stride : Z) :
  0 <= thread_stride ->
  concat (map call_indices (chunks n start thread_stride))
  = seqZ start (Z.of_nat n * thread_stride).
Proof.
  intros Hts. revert start. induction n as [|n IH]; intros start.
  - reflexivity.
  - cbn [chunks map concat]. rewrite IH. unfold call_indices at 1. cbn [call_start call_stride].
    rewrite <- seqZ_app by lia. f_equal. lia.
Qed.

(** The plan of the multithreaded path when more than one worker runs. *)
Lemma schedule_parallel (hardware_concurrency sz : Z) :
  let hw := hw_concur sz hardware_concurrency in
  let thread_stride := chunk_size sz hw in
  0 <= sz -> 1 < hw ->
  schedule true hardware_concurrency sz
  = Futures (chunks (Z.to_nat (hw - 1)) 0 thread_stride
             ++ [Call ((hw - 1) * thread_stride) (sz - (hw - 1) * thread_stride)]).
Proof.
  intros hw thread_stride Hsz Hhw. unfold schedule. fold hw. fold thread_stride.
  destruct (Z.ltb_spec 1 hw) as [_|]; [|lia].
  assert (Hle : hw <= sz).
  { subst hw. unfold hw_concur in *. rewrite Z.shiftr_div_pow2 in * by lia.
    pose proof (Z.div_le_upper_bound sz (2 ^ 4) sz ltac:(lia) ltac:(lia)). lia. }
  replace (Z.min (sz - 1) (hw - 1)) with (hw - 1) by lia.
  unfold for_range. rewrite launch_loop_chunks. cbn [app].
  rewrite Z.sub_0_r, Z2Nat.id by lia. reflexivity.
Qed.

(** Up to 18 workers the rounded-up chunks stay inside the range. *)
Lemma chunks_fit (sz hw : Z) :
  1 < hw <= 18 -> hw <= Z.shiftr sz 4 ->
  0 <= chunk_size sz hw /\ (hw - 1) * chunk_size sz hw <= sz.
Proof.
  intros Hhw Hsz. rewrite Z.shiftr_div_pow2 in Hsz by lia.
  assert (H16 : 16 * hw <= sz).
  { pose proof (Z.mul_div_le sz (2 ^ 4) ltac:(lia)). change (2 ^ 4) with 16 in *. lia. }
  unfold chunk_size. rewrite Z.quot_div_nonneg by lia.
  pose proof (Z.div_mod (sz - 1) hw ltac:(lia)) as Hdm.
  pose proof (Z.mod_pos_bound (sz - 1) hw ltac:(lia)) as Hr.
  set (q := (sz - 1) / hw) in *. set (r := (sz - 1) mod hw) in *. clearbody q r.
  assert (Hq : 15 <= q) by nia.
  split; [lia|].
  destruct (Z.eq_dec hw 18) as [->|]; [|nia].
  destruct (Z.eq_dec q 15) as [->|]; lia.
Qed.

(** For at most 18 workers every index of [0, sz) is processed exactly
    once and no other index is: the indices, call after call, are
    0, 1, ..., sz - 1. *)
Lemma partition_exact_upto_18 (multithread : bool) (hardware_concurrency sz : Z) :
  0 <= sz -> hw_concur sz hardware_concurrency <= 18 ->
  dispatch_indices (schedule multithread hardware_concurrency sz) = seqZ 0 sz.
Proof.
  intros Hsz Hhw.
  assert (Hdirect : dispatch_indices (Direct (Call 0 sz)) = seqZ 0 sz).
  { unfold dispatch_indices. cbn. apply app_nil_r. }
  destruct multithread; [|exact Hdirect].
  destruct (Z.le_gt_cases (hw_concur sz hardware_concurrency) 1) as [Hone|Hmany].
  { unfold schedule. destruct (Z.ltb_spec 1 (hw_concur sz hardware_concurrency)); [lia|].
    exact Hdirect. }
  rewrite schedule_parallel by lia.
  set (hw := hw_concur sz hardware_concurrency) in *.
  destruct (chunks_fit sz hw ltac:(lia)) as [Hts Hfit].
  { subst hw. unfold hw_concur. lia. }
  unfold dispatch_indices. cbn [dispatch_calls].
  rewrite map_app, concat_app, chunks_indices by exact Hts.
  cbn [map concat call_indices]. unfold call_indices. cbn [call_start call_stride].
  rewrite app_nil_r, Z2Nat.id by lia.
  assert (Ha : 0 <= (hw - 1) * chunk_size sz hw) by nia.
  set (a := (hw - 1) * chunk_size sz hw) in *.
  replace (seqZ 0 sz) with (seqZ 0 (a + (sz - a))) by (f_equal; lia).
  rewrite seqZ_app by lia. reflexivity.
Qed.

Section AgreementFacts.
Variables sinf cosf : float -> float.
Variable image : image_t.
Variable stride : Z.

(** Two calls on adjacent ranges do what one call on their union does. *)
Lemma _LATCH_app (start n1 n2 : Z) (keypoints : list KeyPoint.t) (descriptors : buffer) :
0 <= n1 -> 0 <= n2 ->
match _LATCH sinf cosf image stride start n1 keypoints descriptors with
| Some buf => _LATCH sinf cosf image stride (start + n1) n2 keypoints buf
| None => None
end
= _LATCH sinf cosf image stride start (n1 + n2) keypoints descriptors.
Proof.
intros H1 H2. unfold _LATCH, for_range.
replace (Z.to_nat (start + (n1 + n2) - start)) with (Z.to_nat n1 + Z.to_nat n2)%nat by lia.
rewrite for_loop_app.
replace (start + n1 - start) with n1 by lia.
replace (start + n1 + n2 - (start + n1)) with n2 by lia.
rewrite Z2Nat.id by lia.
destruct (for_loop (Z.to_nat n1) start _ (Some descriptors)) as [buf|];
  [reflexivity | symmetry; apply keypoint_loop_None].
Qed.

Lemma run_calls_None (fut : list call) (keypoints : list KeyPoint.t) :
foldl (fun ob c =>
         match ob with
         | Some buf => _LATCH sinf cosf image stride (call_start c) (call_stride c)
                         keypoints buf
         | None => None
         end) None fut = None.
Proof. induction fut as [|c fut IH]; [reflexivity | exact IH]. Qed.

Lemma run_calls_cons (c : call) (fut : list call) (keypoints : list KeyPoint.t)
  (descriptors : buffer) :
run_calls sinf cosf image stride (c :: fut) keypoints descriptors =
match _LATCH sinf cosf image stride (call_start c) (call_stride c) keypoints descriptors with
| Some buf => run_calls sinf cosf image stride fut keypoints buf
| None => None
end.
Proof.
unfold run_calls. cbn [foldl].
destruct (_LATCH _ _ _ _ _ _ _ _) as [buf|]; [reflexivity | apply run_calls_None].
Qed.

(** The launched chunks, run in launch order, are one pass of the worker. *)
Lemma run_calls_chunks (n : nat) (start thread_stride : Z) (keypoints : list KeyPoint.t)
  (descriptors : buffer) :
0 <= thread_stride ->
run_calls sinf cosf image stride (chunks n start thread_stride) keypoints descriptors
= _LATCH sinf cosf image stride start (Z.of_nat n * thread_stride) keypoints descriptors.
Proof.
intros Hts. revert start descriptors. induction n as [|n IH]; intros start descriptors.
- unfold _LATCH, for_range.
  replace (Z.to_nat (start + Z.of_nat 0 * thread_stride - start)) with 0%nat by lia.
  reflexivity.
- cbn [chunks]. rewrite run_calls_cons. cbn [call_start call_stride].
  replace (Z.of_nat (S n) * thread_stride)
    with (thread_stride + Z.of_nat n * thread_stride) by lia.
  rewrite <- _LATCH_app by lia.
  destruct (_LATCH _ _ _ _ start _ _ _) as [buf|]; [apply IH | reflexivity].
Qed.

(** For at most 18 workers the two entry points return the same key
  points and the same output memory. *)
Lemma multithread_agrees_upto_18 (hardware_concurrency width height : Z)
  (keypoints : list KeyPoint.t) (descriptors : buffer) :
let kept := erase_remove_if (near_border width height) keypoints in
Z.of_nat (length kept) < 2 ^ 31 ->
hw_concur (Z.of_nat (length kept)) hardware_concurrency <= 18 ->
LATCH sinf cosf image stride true hardware_concurrency width height keypoints descriptors
= LATCH sinf cosf image stride false hardware_concurrency width height keypoints descriptors.
Proof.
intros kept Hlen Hhw. unfold LATCH. fold kept.
rewrite (wrap32_small (Z.of_nat (length kept))) by lia.
set (sz := Z.of_nat (length kept)) in *. f_equal.
cbn [schedule call_start call_stride].
destruct (Z.le_gt_cases (hw_concur sz hardware_concurrency) 1) as [Hone|Hmany].
{ destruct (Z.ltb_spec 1 (hw_concur sz hardware_concurrency)); [lia | reflexivity]. }
change (if 1 <? hw_concur sz hardware_concurrency then _ else _)
  with (schedule true hardware_concurrency sz).
rewrite schedule_parallel by lia.
set (hw := hw_concur sz hardware_concurrency) in *.
destruct (chunks_fit sz hw ltac:(lia)) as [Hts Hfit].
{ subst hw. unfold hw_concur. lia. }
assert (Ha : 0 <= (hw - 1) * chunk_size sz hw) by nia.
rewrite run_calls_app, run_calls_chunks by exact Hts.
rewrite Z2Nat.id by lia.
set (a := (hw - 1) * chunk_size sz hw) in *.
replace (_LATCH sinf cosf image stride 0 sz kept descriptors)
  with (_LATCH sinf cosf image stride 0 (a + (sz - a)) kept descriptors)
  by (f_equal; lia).
rewrite <- (_LATCH_app 0 a (sz - a)) by lia.
destruct (_LATCH sinf cosf image stride 0 a kept descriptors) as [buf|]; reflexivity.
Qed.
End AgreementFacts.

(** ** The order of the calls *)

Lemma written_Permutation (fut fut' : list call) (q : Z) :
  Permutation fut fut' -> written fut q = written fut' q.
Proof.
  intros Hperm. unfold written.
  induction Hperm as [|c l l' _ IH|c c' l|l l' l'' _ IH1 _ IH2]; cbn [existsb].
  - reflexivity.
  - now rewrite IH.
  - rewrite !orb_assoc. f_equal. apply orb_comm.
  - now rewrite IH1.
Qed.

Section OrderFacts.
Variables sinf cosf : float -> float.
Variable image : image_t.
Variable stride : Z.

(** Inside the vector the content of a slot does not depend on the range
  of the call that wrote it, nor on what the memory held. *)
Lemma descriptors_of_in_vector (keypoints : list KeyPoint.t) (lo hi : Z) (buf buf' : buffer)
  (q : Z) :
0 <= lo -> hi <= Z.of_nat (length keypoints) -> 64 * lo <= q < 64 * hi ->
descriptors_of sinf cosf image stride keypoints lo hi buf q
= descriptors_of sinf cosf image stride keypoints 0 (Z.of_nat (length keypoints)) buf' q.
Proof.
intros Hlo Hhi Hq. unfold descriptors_of.
destruct (Z.leb_spec (64 * lo) q), (Z.ltb_spec q (64 * hi)); try lia.
destruct (Z.leb_spec (64 * 0) q), (Z.ltb_spec q (64 * Z.of_nat (length keypoints)));
  try lia.
cbn [andb].
destruct (vector_at_Some keypoints (q / 64)) as [pt ->]; [|reflexivity].
split; [apply Z.div_pos; lia | apply Z.div_lt_upper_bound; lia].
Qed.

Lemma written_in_vector (keypoints : list KeyPoint.t) (fut : list call) (q : Z) :
Forall (in_vector (length keypoints)) fut -> written fut q = true ->
0 <= q < 64 * Z.of_nat (length keypoints).
Proof.
intros Hall Hw. unfold written in Hw. apply existsb_exists in Hw.
destruct Hw as (c & Hin & Hc). rewrite Forall_forall in Hall.
apply list_elem_of_In, Hall in Hin. destruct Hin as [Hs He].
apply andb_true_iff in Hc. destruct Hc as [H1 H2].
apply Z.leb_le in H1. apply Z.ltb_lt in H2. lia.
Qed.

(** Calls that stay inside the vector all return, and the memory they
  leave holds the descriptors in the slots that some call covers. *)
Lemma run_calls_spec (fut : list call) (keypoints : list KeyPoint.t) (descriptors : buffer) :
Forall (in_vector (length keypoints)) fut ->
exists buf,
  run_calls sinf cosf image stride fut keypoints descriptors = Some buf /\
  forall q, buf q =
            if written fut q
            then descriptors_of sinf cosf image stride keypoints 0
                   (Z.of_nat (length keypoints)) descriptors q
            else descriptors q.
Proof.
intros Hall. revert descriptors.
induction fut as [|c fut IH]; intros descriptors.
- exists descriptors. split; reflexivity.
- apply Forall_cons in Hall. destruct Hall as [[Hs He] Hall].
  rewrite run_calls_cons.
  destruct (_LATCH_spec sinf cosf image stride (call_start c) (call_stride c) keypoints
              descriptors Hs He) as (buf1 & -> & Hbuf1).
  destruct (IH Hall buf1) as (buf & Hrun & Hbuf).
  exists buf. split; [exact Hrun|]. intros q. rewrite Hbuf.
  unfold written at 2. cbn [existsb]. fold (written fut q).
  destruct (written fut q) eqn:Hw.
  + rewrite orb_true_r.
    pose proof (written_in_vector keypoints fut q Hall Hw) as Hq.
    rewrite <- (descriptors_of_in_vector keypoints 0 (Z.of_nat (length keypoints))
                  buf1 descriptors q) by lia.
    reflexivity.
  + rewrite orb_false_r, Hbuf1.
    destruct (Z.leb_spec (64 * call_start c) q),
      (Z.ltb_spec q (64 * (call_start c + call_stride c))); cbn [andb].
    * apply descriptors_of_in_vector; lia.
    * apply descriptors_of_outside. lia.
    * apply descriptors_of_outside. lia.
    * apply descriptors_of_outside. lia.
Qed.

(** Calls that stay inside the vector leave the same memory in whatever
  order they run: the joined workers need no synchronisation. *)
Lemma run_calls_Permutation (fut fut' : list call) (keypoints : list KeyPoint.t)
  (descriptors : buffer) :
Forall (in_vector (length keypoints)) fut -> Permutation fut fut' ->
exists buf buf',
  run_calls sinf cosf image stride fut keypoints descriptors = Some buf /\
  run_calls sinf cosf image stride fut' keypoints descriptors = Some buf' /\
  forall q, buf q = buf' q.
Proof.
intros Hall Hperm.
assert (Hall' : Forall (in_vector (length keypoints)) fut').
{ rewrite Forall_forall in *. intros c Hc. apply Hall.
  rewrite Hperm. exact Hc. }
destruct (run_calls_spec fut keypoints descriptors Hall) as (buf & Hrun & Hbuf).
destruct (run_calls_spec fut' keypoints descriptors Hall') as (buf' & Hrun' & Hbuf').
exists buf, buf'. repeat split; try assumption.
intros q. rewrite Hbuf, Hbuf', (written_Permutation fut fut' q Hperm). reflexivity.
Qed.
End OrderFacts.

(** ** The dispatcher on an empty vector; the filter *)

Lemma LATCH_keypoints (sinf cosf : float -> float) (image : image_t) (stride : Z)
    (multithread : bool) (hardware_concurrency width height : Z)
    (keypoints : list KeyPoint.t) (descriptors : buffer) :
  fst (LATCH sinf cosf image stride multithread hardware_concurrency width height
         keypoints descriptors)
  = List.filter (fun kp => negb (near_border width height kp)) keypoints.
Proof. unfold LATCH. cbn [fst]. apply erase_remove_if_filter. Qed.

Lemma schedule_zero (multithread : bool) (hardware_concurrency : Z) :
  schedule multithread hardware_concurrency 0 = Direct (Call 0 0).
Proof.
  destruct multithread; [|reflexivity].
  unfold schedule, hw_concur. change (Z.shiftr 0 4) with 0.
  destruct (Z.ltb_spec 1 (Z.min 0 (wrap32 hardware_concurrency))); [lia | reflexivity].
Qed.

Lemma LATCH_empty (sinf cosf : float -> float) (image : image_t) (stride : Z)
    (multithread : bool) (hardware_concurrency width height : Z)
    (keypoints : list KeyPoint.t) (descriptors : buffer) :
  erase_remove_if (near_border width height) keypoints = [] ->
  LATCH sinf cosf image stride multithread hardware_concurrency width height
    keypoints descriptors = ([], Some descriptors).
Proof.
  intros Hkept. unfold LATCH. rewrite Hkept.
  change (wrap32 (Z.of_nat (length (@nil KeyPoint.t)))) with 0.
  rewrite schedule_zero. reflexivity.
Qed.

Lemma near_border_iff (width height : Z) (kp : KeyPoint.t) :
  near_border width height kp = true <->
  F32.le (KeyPoint.x kp) (F32.of_Z 36) = true \/
  F32.le (KeyPoint.y kp) (F32.of_Z 36) = true \/
  F32.ge (KeyPoint.x kp) (F32.of_Z (width - 36)) = true \/
  F32.ge (KeyPoint.y kp) (F32.of_Z (height - 36)) = true.
Proof. unfold near_border. rewrite !orb_true_iff. tauto. Qed.

(** ** Lanes *)

Lemma lane0_map2 {A B C : Type} (f : A -> B -> C) (u : vec4 A) (v : vec4 B) :
  lane0 (vec4_map2 f u v) = f (lane0 u) (lane0 v).
Proof. reflexivity. Qed.

Lemma lane1_map2 {A B C : Type} (f : A -> B -> C) (u : vec4 A) (v : vec4 B) :
  lane1 (vec4_map2 f u v) = f (lane1 u) (lane1 v).
Proof. reflexivity. Qed.

Lemma lane2_map2 {A B C : Type} (f : A -> B -> C) (u : vec4 A) (v : vec4 B) :
  lane2 (vec4_map2 f u v) = f (lane2 u) (lane2 v).
Proof. reflexivity. Qed.

Lemma lane0_map {A B : Type} (f : A -> B) (u : vec4 A) : lane0 (vec4_map f u) = f (lane0 u).
Proof. reflexivity. Qed.

Lemma lane1_map {A B : Type} (f : A -> B) (u : vec4 A) : lane1 (vec4_map f u) = f (lane1 u).
Proof. reflexivity. Qed.

Lemma lane2_map {A B : Type} (f : A -> B) (u : vec4 A) : lane2 (vec4_map f u) = f (lane2 u).
Proof. reflexivity. Qed.

Ltac project_lanes :=
  repeat (progress rewrite ?lane0_map2, ?lane1_map2, ?lane2_map2,
            ?lane0_map, ?lane1_map, ?lane2_map).

(** The lanes 0, 1, 2 of [sample_centers], in scalar form. *)
Lemma sample_centers_lanes (sinf cosf : float -> float) (pt : KeyPoint.t) (triplet : Z) :
  let xints := fst (sample_centers (load_regs sinf cosf pt) triplet) in
  let yints := snd (sample_centers (load_regs sinf cosf pt) triplet) in
  (lane0 xints, lane0 yints)
  = sample_center sinf cosf pt (triplets_at triplet) (triplets_at (triplet + 3)) /\
  (lane1 xints, lane1 yints)
  = sample_center sinf cosf pt (triplets_at (triplet + 1)) (triplets_at (triplet + 3 + 1)) /\
  (lane2 xints, lane2 yints)
  = sample_center sinf cosf pt (triplets_at (triplet + 2)) (triplets_at (triplet + 3 + 2)).
Proof.
  intros xints yints. subst xints yints.
  unfold sample_centers. cbv zeta. cbn [fst snd].
  unfold _mm_cvtps_epi32, _mm_add_ps, _mm_min_ps, _mm_max_ps, _mm_sub_ps, _mm_mul_ps.
  project_lanes.
  unfold load_regs. cbn [ptx pty sin_theta cos_theta scale]. unfold _mm_div_ps.
  project_lanes.
  unfold _mm_set_ps1, _mm_loadu_ps. cbn [lane0 lane1 lane2].
  unfold sample_center.
  rewrite !(SFadd_comm (KeyPoint.x pt)), !(SFadd_comm (KeyPoint.y pt)).
  unfold clamp_32. split; [|split]; reflexivity.
Qed.

(** ** The C library *)

(** The worker consults [sin] and [cos] at the angles of the key points
    only. *)
Lemma load_regs_libm (sinf cosf sinf' cosf' : float -> float) (pt : KeyPoint.t) :
  sinf (KeyPoint.angle pt) = sinf' (KeyPoint.angle pt) ->
  cosf (KeyPoint.angle pt) = cosf' (KeyPoint.angle pt) ->
  load_regs sinf cosf pt = load_regs sinf' cosf' pt.
Proof. intros Hs Hc. unfold load_regs. rewrite Hs, Hc. reflexivity. Qed.

Lemma for_loop_ext {St : Type} (body body' : St -> Z -> St) (n : nat) (i : Z) (s : St) :
  (forall s' k, body s' k = body' s' k) -> for_loop n i body s = for_loop n i body' s.
Proof.
  intros H. revert i s. induction n as [|n IH]; intros i s; cbn [for_loop]; [reflexivity|].
  rewrite H. apply IH.
Qed.

Lemma _LATCH_libm (sinf cosf sinf' cosf' : float -> float) (image : image_t) (stride : Z)
    (start thread_stride : Z) (keypoints : list KeyPoint.t) (descriptors : buffer) :
  (forall pt, In pt keypoints ->
     sinf (KeyPoint.angle pt) = sinf' (KeyPoint.angle pt) /\
     cosf (KeyPoint.angle pt) = cosf' (KeyPoint.angle pt)) ->
  _LATCH sinf cosf image stride start thread_stride keypoints descriptors
  = _LATCH sinf' cosf' image stride start thread_stride keypoints descriptors.
Proof.
  intros Hlibm. unfold _LATCH, for_range. apply for_loop_ext.
  intros [buf|] i; [|reflexivity]. unfold keypoint_body.
  destruct (vector_at keypoints i) as [pt|] eqn:Hpt; [|reflexivity].
  assert (Hin : In pt keypoints).
  { unfold vector_at in Hpt. destruct (i <? 0); [discriminate|].
    apply list_elem_of_In, list_elem_of_lookup. eauto. }
  destruct (Hlibm pt Hin) as [Hs Hc].
  rewrite (load_regs_libm sinf cosf sinf' cosf' pt Hs Hc). reflexivity.
Qed.

(** The byte order of the descriptor at [kp_100], for every C library
    that is exact at the angle 0: bit 0 of byte 0 is the bit of triplet
    0, and bit 7 is clear. *)
Lemma lsb_first_at_kp_100 (sinf cosf : float -> float) :
  sinf (S754_zero false) = S754_zero false ->
  cosf (S754_zero false) = F32.of_Z 1 ->
  triplet_sum sinf cosf (image_dot 15891) 200 kp_100 0 < 0 /\
  exists buf,
    _LATCH sinf cosf (image_dot 15891) 200 0 1 [kp_100] zero_memory = Some buf /\
    Z.testbit (buf 0) 7 = false /\ buf 0 = 1.
Proof.
  intros Hs Hc.
  assert (Hregs : load_regs sinf cosf kp_100 = load_regs sin_at_zero cos_at_zero kp_100)
    by (apply load_regs_libm; assumption).
  split.
  - unfold triplet_sum. rewrite Hregs. vm_compute. reflexivity.
  - rewrite (_LATCH_libm sinf cosf sin_at_zero cos_at_zero).
    2:{ intros pt [<- | []]. split; assumption. }
    destruct (_LATCH_spec sin_at_zero cos_at_zero (image_dot 15891) 200 0 1 [kp_100]
                zero_memory ltac:(lia) ltac:(cbn; lia)) as (buf & Hrun & Hbuf).
    exists buf. split; [exact Hrun|].
    pose proof (Hbuf (64 * 0 + 0)) as H0.
    rewrite (descriptors_of_slot _ _ _ _ _ _ _ _ 0 0 kp_100) in H0
      by first [reflexivity | lia].
    change (64 * 0 + 0) with 0 in H0. rewrite H0.
    split; vm_compute; reflexivity.
Qed.

(** ** The model on sample values *)

(** The walk through the table stays inside it: the last load of the
    last triplet ends on the closing 0. *)
Lemma triplet_walk_in_table (t : Z) :
  0 <= t < 512 ->
  0 <= 6 * t /\ 6 * t + 3 + 3 < Z.of_nat (length triplets).
Proof. intros Ht. change (Z.of_nat (length triplets)) with 3073. lia. Qed.

(** CVTPS2DQ on 0.5, 1.5, 2.5, -2.5, 3.75 and NaN. *)
Lemma to_int32_samples :
  F32.to_int32 (F32.div (F32.of_Z 1) (F32.of_Z 2)) = 0 /\
  F32.to_int32 (F32.div (F32.of_Z 3) (F32.of_Z 2)) = 2 /\
  F32.to_int32 (F32.div (F32.of_Z 5) (F32.of_Z 2)) = 2 /\
  F32.to_int32 (F32.div (F32.of_Z (-5)) (F32.of_Z 2)) = -2 /\
  F32.to_int32 (F32.div (F32.of_Z 15) (F32.of_Z 4)) = 4 /\
  F32.to_int32 S754_nan = - 2 ^ 31.
Proof. repeat split. Qed.

(** The sample centres consult [sin] and [cos] at the key point's angle
    only. *)
Lemma sample_center_libm (sinf cosf sinf' cosf' : float -> float) (pt : KeyPoint.t)
    (ox oy : float) :
  sinf (KeyPoint.angle pt) = sinf' (KeyPoint.angle pt) ->
  cosf (KeyPoint.angle pt) = cosf' (KeyPoint.angle pt) ->
  sample_center sinf cosf pt ox oy = sample_center sinf' cosf' pt ox oy.
Proof. intros Hs Hc. unfold sample_center. rewrite Hs, Hc. reflexivity. Qed.

Lemma triplet_centers_libm (sinf cosf sinf' cosf' : float -> float) (pt : KeyPoint.t)
    (t : Z) :
  sinf (KeyPoint.angle pt) = sinf' (KeyPoint.angle pt) ->
  cosf (KeyPoint.angle pt) = cosf' (KeyPoint.angle pt) ->
  triplet_centers sinf cosf pt t = triplet_centers sinf' cosf' pt t.
Proof.
  intros Hs Hc. unfold triplet_centers.
  rewrite !(sample_center_libm sinf cosf sinf' cosf' pt _ _ Hs Hc). reflexivity.
Qed.

(** One key point never makes a second worker. *)
Lemma schedule_one (multithread : bool) (hardware_concurrency : Z) :
  schedule multithread hardware_concurrency 1 = Direct (Call 0 1).
Proof.
  destruct multithread; [|reflexivity]. unfold schedule, hw_concur.
  change (Z.shiftr 1 4) with 0.
  destruct (Z.ltb_spec 1 (Z.min 0 (wrap32 hardware_concurrency))); [lia | reflexivity].
Qed.

(** * The claims *)

(** Claim C1.  For every key point and every triplet, the bit that the
    patch evaluator contributes is 1 exactly when the sum over the 8x8
    window (rows and columns -3..4 around each rounded sample centre) of
    (A-B)^2 - (C-B)^2 is strictly negative.  The 32-bit lane arithmetic
    of the code yields that sum without wrapping, and a sum of exactly
    zero yields bit 0. *)
Theorem evaluator_bit_is_sign_of_ssd (sinf cosf : float -> float) (image : image_t)
    (stride : Z) (pt : KeyPoint.t) (t bit : Z) :
  0 <= bit <= 7 ->
  let r := load_regs sinf cosf pt in
  let xints := fst (sample_centers r (6 * t)) in
  let yints := snd (sample_centers r (6 * t)) in
  let sum := ssd_difference image stride (lane0 xints) (lane0 yints)
               (lane1 xints) (lane1 yints) (lane2 xints) (lane2 yints) in
  patch_sum image stride xints yints = sum /\
  triplet_mask image stride r (6 * t) bit = (if sum <? 0 then 1 else 0) * 2 ^ bit /\
  (Z.testbit (triplet_mask image stride r (6 * t) bit) bit = true <-> sum < 0) /\
  (sum = 0 -> triplet_mask image stride r (6 * t) bit = 0).
Proof.
  intros Hbit r xints yints sum.
  assert (Hmask : triplet_mask image stride r (6 * t) bit = if sum <? 0 then 2 ^ bit else 0).
  { rewrite triplet_mask_spec by exact Hbit. unfold centers_ssd. subst sum xints yints.
    destruct (sample_centers r (6 * t)) as [xs ys]. reflexivity. }
  split; [apply patch_sum_exact|]. rewrite Hmask.
  destruct (Z.ltb_spec sum 0) as [Hneg|Hpos].
  - repeat split; try lia. rewrite Z.pow2_bits_true by lia. reflexivity.
  - repeat split; try lia; try reflexivity. rewrite Z.bits_0. discriminate.
Qed.

Lemma evaluator_bit_is_sign_of_ssd_witness :
  triplet_mask (image_dot 15891) 200 (load_regs sin_at_zero cos_at_zero kp_100) (6 * 0) 3
  = (if ssd_difference (image_dot 15891) 200 95 101 84 116 91 79 <? 0 then 1 else 0) * 2 ^ 3.
Proof.
  exact (proj1 (proj2 (evaluator_bit_is_sign_of_ssd sin_at_zero cos_at_zero
                         (image_dot 15891) 200 kp_100 0 3 ltac:(lia)))).
Defined.

(** Claim C2 as stated fails.  At the key point (100, 100) of scale 7 and
    angle 0, on a black image whose only white pixel lies in patch C of
    triplet 0, the sum of triplet 0 (fragment 0, bit 0) is negative, yet
    bit 7 - 0 of byte 0 stays clear: the byte is 1, not 128.
    ([lsb_first_at_kp_100] has the same for every [sin] and [cos] that
    are exact at the angle 0.) *)
Lemma msb_first_counterexample :
  triplet_sum sin_at_zero cos_at_zero (image_dot 15891) 200 kp_100 (0 * 8 + 0) < 0 /\
  exists buf,
    _LATCH sin_at_zero cos_at_zero (image_dot 15891) 200 0 1 [kp_100] zero_memory = Some buf /\
    Z.testbit (buf (64 * 0 + 0)) (7 - 0) = false /\
    buf (64 * 0 + 0) = 1.
Proof.
  split; [vm_compute; reflexivity|].
  destruct (_LATCH_spec sin_at_zero cos_at_zero (image_dot 15891) 200 0 1 [kp_100]
              zero_memory ltac:(lia) ltac:(cbn; lia)) as (buf & Hrun & Hbuf).
  exists buf. split; [exact Hrun|].
  rewrite Hbuf, (descriptors_of_slot _ _ _ _ _ _ _ _ 0 0 kp_100)
    by first [reflexivity | lia].
  split; vm_compute; reflexivity.
Qed.

(** Claim C2, as the code has it.  Bit [b] of byte [f] of the descriptor
    of key point [i] is decided by triplet [8 * f + b], and the triplet
    with index 0 inside the byte lands in the least significant bit: the
    worker sets bit [bit] (not bit [7 - bit]) of byte [fragment]. *)
Theorem descriptor_bit_layout (sinf cosf : float -> float) (image : image_t) (stride : Z)
    (start thread_stride : Z) (keypoints : list KeyPoint.t) (descriptors : buffer)
    (i f b : Z) (pt : KeyPoint.t) :
  0 <= start -> start + thread_stride <= Z.of_nat (length keypoints) ->
  start <= i < start + thread_stride -> vector_at keypoints i = Some pt ->
  0 <= f < 64 -> 0 <= b < 8 ->
  exists buf,
    _LATCH sinf cosf image stride start thread_stride keypoints descriptors = Some buf /\
    0 <= buf (64 * i + f) < 256 /\
    Z.testbit (buf (64 * i + f)) b =
      (triplet_sum sinf cosf image stride pt (8 * f + b) <? 0).
Proof.
  intros Hstart Hend Hi Hpt Hf Hb.
  destruct (_LATCH_spec sinf cosf image stride start thread_stride keypoints descriptors
              Hstart Hend) as (buf & Hrun & Hbuf).
  exists buf. split; [exact Hrun|].
  rewrite Hbuf, (descriptors_of_slot _ _ _ _ _ _ _ _ i f pt) by assumption.
  split; [apply descriptor_byte_range | apply descriptor_byte_testbit, Hb].
Qed.

Lemma descriptor_bit_layout_witness :
  exists buf,
    _LATCH sin_at_zero cos_at_zero (image_dot 15891) 200 0 1 [kp_100] zero_memory = Some buf /\
    0 <= buf (64 * 0 + 0) < 256 /\
    Z.testbit (buf (64 * 0 + 0)) 0 =
      (triplet_sum sin_at_zero cos_at_zero (image_dot 15891) 200 kp_100 (8 * 0 + 0) <? 0).
Proof.
  apply (descriptor_bit_layout sin_at_zero cos_at_zero (image_dot 15891) 200 0 1
           [kp_100] zero_memory 0 0 0 kp_100); first [reflexivity | cbn; lia].
Defined.

(** Claim C3.  The border filter leaves in the vector exactly the key
    points for which none of [x <= 36], [y <= 36], [x >= width - 36],
    [y >= height - 36] holds (comparisons of [float]s), in their original
    order.  A key point that sits on one of the four bounds is removed,
    and one at [x = 37] whose other three comparisons fail is kept. *)
Theorem border_filter_spec (sinf cosf : float -> float) (image : image_t) (stride : Z)
    (multithread : bool) (hardware_concurrency width height : Z)
    (keypoints : list KeyPoint.t) (descriptors : buffer) :
  let kept := fst (LATCH sinf cosf image stride multithread hardware_concurrency
                     width height keypoints descriptors) in
  kept = List.filter (fun kp => negb (near_border width height kp)) keypoints /\
  (forall kp, In kp kept <-> In kp keypoints /\ near_border width height kp = false) /\
  sublist kept keypoints /\
  (forall kp, near_border width height kp = true <->
     F32.le (KeyPoint.x kp) (F32.of_Z 36) = true \/
     F32.le (KeyPoint.y kp) (F32.of_Z 36) = true \/
     F32.ge (KeyPoint.x kp) (F32.of_Z (width - 36)) = true \/
     F32.ge (KeyPoint.y kp) (F32.of_Z (height - 36)) = true) /\
  (forall kp, KeyPoint.x kp = F32.of_Z 36 \/ KeyPoint.y kp = F32.of_Z 36 \/
              KeyPoint.x kp = F32.of_Z (width - 36) \/
              KeyPoint.y kp = F32.of_Z (height - 36) ->
     near_border width height kp = true) /\
  (forall kp, KeyPoint.x kp = F32.of_Z 37 ->
     F32.le (KeyPoint.y kp) (F32.of_Z 36) = false ->
     F32.ge (KeyPoint.x kp) (F32.of_Z (width - 36)) = false ->
     F32.ge (KeyPoint.y kp) (F32.of_Z (height - 36)) = false ->
     near_border width height kp = false) /\
  near_border 100 100 (KeyPoint.mk (F32.of_Z 36) (F32.of_Z 50) (F32.of_Z 7) (S754_zero false))
  = true /\
  near_border 100 100 (KeyPoint.mk (F32.of_Z 37) (F32.of_Z 50) (F32.of_Z 7) (S754_zero false))
  = false.
Proof.
  intros kept. subst kept. rewrite LATCH_keypoints.
  split; [reflexivity|].
  split.
  { intros kp. rewrite List.filter_In, negb_true_iff. reflexivity. }
  split; [apply filter_sublist|].
  split; [apply near_border_iff|].
  split.
  { intros kp H. apply near_border_iff.
    destruct H as [H | [H | [H | H]]]; rewrite H; unfold F32.le, F32.ge.
    - left. apply SFleb_refl, of_Z_not_nan.
    - right; left. apply SFleb_refl, of_Z_not_nan.
    - right; right; left. apply SFleb_refl, of_Z_not_nan.
    - right; right; right. apply SFleb_refl, of_Z_not_nan. }
  split.
  { intros kp Hx Hy Hw Hh. unfold near_border. rewrite Hy, Hw, Hh, Hx. reflexivity. }
  split; vm_compute; reflexivity.
Qed.

(** Claim C4 fails on the code, by the overrun of claim C5.  For 305
    surviving key points and a hardware concurrency of 19 the
    single-threaded entry writes the 305 descriptors and returns, while
    on the multithreaded entry the call [_LATCH (289, 17, ...)] reads
    [keypoints[305]], past the end of the vector: undefined behaviour,
    in whatever order the launched calls run.  (Up to 18 workers the two
    entries agree, [multithread_agrees_upto_18].) *)
Theorem multithread_differs_305_19 (sinf cosf : float -> float) (image : image_t)
    (stride : Z) (descriptors : buffer) :
  LATCH sinf cosf image stride true 19 1000 1000 keypoints_305 descriptors
  = (keypoints_305, None) /\
  (forall fut, Permutation fut (dispatch_calls (schedule true 19 305)) ->
     run_calls sinf cosf image stride fut keypoints_305 descriptors = None) /\
  exists buf,
    LATCH sinf cosf image stride false 19 1000 1000 keypoints_305 descriptors
    = (keypoints_305, Some buf) /\
    forall q, buf q = descriptors_of sinf cosf image stride keypoints_305 0 305 descriptors q.
Proof.
  assert (Hbad : forall fut, In (Call 289 17) fut ->
            run_calls sinf cosf image stride fut keypoints_305 descriptors = None).
  { intros fut Hin. apply (run_calls_overrun sinf cosf image stride fut (Call 289 17));
      [exact Hin | cbn; lia ..]. }
  assert (Hin : In (Call 289 17) (dispatch_calls (schedule true 19 305)))
    by (vm_compute; intuition).
  split; [|split].
  - unfold LATCH. rewrite keypoints_305_survive.
    change (wrap32 (Z.of_nat (length keypoints_305))) with 305.
    destruct (schedule true 19 305) as [c|fut] eqn:Hs; [discriminate Hs|].
    rewrite Hbad; [reflexivity | exact Hin].
  - intros fut Hperm. apply Hbad.
    eapply Permutation_in; [symmetry; exact Hperm | exact Hin].
  - destruct (_LATCH_spec sinf cosf image stride 0 305 keypoints_305 descriptors
                ltac:(lia) ltac:(cbn; lia)) as (buf & Hrun & Hbuf).
    exists buf. split; [|exact Hbuf].
    unfold LATCH. rewrite keypoints_305_survive.
    change (wrap32 (Z.of_nat (length keypoints_305))) with 305.
    cbn [schedule call_start call_stride]. rewrite Hrun. reflexivity.
Qed.

(** Claim C5 fails on the code.  With 305 filtered key points and a
    hardware concurrency of 19 the worker count is 19 and the chunk size
    ceil (305 / 19) = 17; the 18th call is [_LATCH (289, 17, ...)], which
    runs [i] up to 305, one past the last key point, and the final call
    gets the negative count 305 - 306.  The indices processed are
    0 .. 305, not 0 .. 304.  (Up to 18 workers the partition is exact,
    [partition_exact_upto_18].) *)
Theorem partition_overrun_305_19 :
  hw_concur 305 19 = 19 /\
  In (Call 289 17) (dispatch_calls (schedule true 19 305)) /\
  last (dispatch_calls (schedule true 19 305)) = Some (Call 306 (-1)) /\
  dispatch_indices (schedule true 19 305) = seqZ 0 306 /\
  In 305 (dispatch_indices (schedule true 19 305)).
Proof. vm_compute. intuition. Qed.

(** Claim C6.  For every key point and every offset pair [(ox, oy)] of a
    triplet (row [t] of the table holds [ax bx cx ay by cy]), the sample
    centre is obtained by scaling with [s = scale / 7.0], rotating by
    the angle ([rx = ox*s*cos - oy*s*sin], [ry = ox*s*sin + oy*s*cos]),
    clamping [rx] and [ry] separately to [-32, 32], adding the key
    point's centre and rounding to the nearest integer, ties to even;
    [s], [sin] and [cos] are loaded once per key point, before the loop
    over the 64 fragments, and serve all 512 triplets. *)
Theorem sample_center_formula (sinf cosf : float -> float) (pt : KeyPoint.t) (t : Z) :
  (forall image stride keypoints buf i,
     vector_at keypoints i = Some pt ->
     keypoint_body sinf cosf image stride keypoints (Some buf) i
     = Some (fst (for_range 0 64
                    (fragment_body image stride (load_regs sinf cosf pt) (8 * Z.shiftl i 3))
                    (buf, 0)))) /\
  let xints := fst (sample_centers (load_regs sinf cosf pt) (6 * t)) in
  let yints := snd (sample_centers (load_regs sinf cosf pt) (6 * t)) in
  let offset k := triplets_at (6 * t + k) in
  (lane0 xints, lane0 yints) = sample_center sinf cosf pt (offset 0) (offset 3) /\
  (lane1 xints, lane1 yints) = sample_center sinf cosf pt (offset 1) (offset 4) /\
  (lane2 xints, lane2 yints) = sample_center sinf cosf pt (offset 2) (offset 5) /\
  (forall v,
     F32.le (F32.of_Z (-32)) (clamp_32 v) = true /\
     F32.le (clamp_32 v) (F32.of_Z 32) = true /\
     (F32.le (F32.of_Z (-32)) v = true -> F32.le v (F32.of_Z 32) = true -> clamp_32 v = v) /\
     (F32.lt v (F32.of_Z (-32)) = true -> clamp_32 v = F32.of_Z (-32)) /\
     (F32.lt (F32.of_Z 32) v = true -> clamp_32 v = F32.of_Z 32)) /\
  (forall s m e,
     let n := F32.round_half_even m e in
     nearest_even m e n /\
     (- 2 ^ 31 <= cond_Zopp s n < 2 ^ 31 ->
      F32.to_int32 (S754_finite s m e) = cond_Zopp s n)) /\
  (forall s, F32.to_int32 (S754_zero s) = 0).
Proof.
  split.
  { intros image stride keypoints buf i Hpt. unfold keypoint_body. rewrite Hpt. reflexivity. }
  intros xints yints offset. subst xints yints offset.
  pose proof (sample_centers_lanes sinf cosf pt (6 * t)) as Hl.
  cbv zeta in Hl. destruct Hl as (H0 & H1 & H2).
  replace (6 * t + 0) with (6 * t) by lia.
  replace (6 * t + 4) with (6 * t + 3 + 1) by lia.
  replace (6 * t + 5) with (6 * t + 3 + 2) by lia.
  split; [exact H0|]. split; [exact H1|]. split; [exact H2|].
  split.
  { intros v. destruct (clamp_32_spec v) as (Ha & Hb & Hc & Hd & He & _).
    repeat split; assumption. }
  split; [|reflexivity].
  intros s m e n. split; [apply round_half_even_nearest | apply (to_int32_nearest s m e)].
Qed.

(** Claim C7 fails on the code.  The image has 100 x 100 pixels, all 0,
    in rows of 128 bytes whose padding is 0xff.  The key point
    (63.75, 50) of scale 14 and angle 0 survives the border filter, and
    every load of its 512 triplets stays inside the 128 x 100 bytes of
    the image.  But the clamp moves patches A and B of triplet 21 right
    by the full 32, to the rounded column 96, and their windows have the
    columns 93 .. 100: column 100 is the first padding byte.  So the sum
    of triplet 21 is -8 * 255^2, not 0, bit 5 of byte 2 is set, and the
    descriptor that either entry point writes is not 64 zero bytes. *)
Theorem constant_image_nonzero_descriptor :
  near_border 100 100 kp_right = false /\
  (forall row col, 0 <= col < 100 ->
     image_padded 100 128 Byte.x00 Byte.xff (128 * row + col) = Byte.x00) /\
  (forall row, image_padded 100 128 Byte.x00 Byte.xff (128 * row + 100) = Byte.xff) /\
  forall sinf cosf : float -> float,
    sinf (S754_zero false) = S754_zero false ->
    cosf (S754_zero false) = F32.of_Z 1 ->
    (forall t c, 0 <= t < 512 -> In c (triplet_centers sinf cosf kp_right t) ->
       loads_inside 128 100 c = true) /\
    triplet_centers sinf cosf kp_right 21 = [(96, 24); (96, 22); (92, 18)] /\
    triplet_sum sinf cosf (image_padded 100 128 Byte.x00 Byte.xff) 128 kp_right 21
    = - 520200 /\
    forall (multithread : bool) (hardware_concurrency : Z) (descriptors : buffer),
    exists buf,
      LATCH sinf cosf (image_padded 100 128 Byte.x00 Byte.xff) 128 multithread
        hardware_concurrency 100 100 [kp_right] descriptors
      = ([kp_right], Some buf) /\
      buf 2 = 32 /\ buf 4 = 192 /\ buf 7 = 1.
Proof.
  split; [vm_compute; reflexivity|].
  split.
  { intros row col Hcol. unfold image_padded.
    replace ((128 * row + col) mod 128) with col
      by (apply (Z.mod_unique _ _ row); lia).
    destruct (Z.ltb_spec col 100); [reflexivity | lia]. }
  split.
  { intros row. unfold image_padded.
    replace ((128 * row + 100) mod 128) with 100
      by (apply (Z.mod_unique _ _ row); lia).
    reflexivity. }
  intros sinf cosf Hs Hc.
  assert (Hcenters : forall t, triplet_centers sinf cosf kp_right t
                               = triplet_centers sin_at_zero cos_at_zero kp_right t)
    by (intros t; apply triplet_centers_libm; assumption).
  assert (Hregs : load_regs sinf cosf kp_right = load_regs sin_at_zero cos_at_zero kp_right)
    by (apply load_regs_libm; assumption).
  split.
  { intros t c Ht Hin. rewrite Hcenters in Hin.
    assert (Hall : forallb (fun t => forallb (loads_inside 128 100)
                                       (triplet_centers sin_at_zero cos_at_zero kp_right t))
                     (seqZ 0 512) = true) by (vm_compute; reflexivity).
    assert (Hseq : In t (seqZ 0 512)) by (apply list_elem_of_In, elem_of_seqZ; lia).
    pose proof (proj1 (forallb_forall _ _) Hall t Hseq) as Ht'. cbv beta in Ht'.
    exact (proj1 (forallb_forall _ _) Ht' c Hin). }
  split; [rewrite Hcenters; vm_compute; reflexivity|].
  split; [unfold triplet_sum; rewrite Hregs; vm_compute; reflexivity|].
  intros multithread hardware_concurrency descriptors.
  assert (Hkept : erase_remove_if (near_border 100 100) [kp_right] = [kp_right])
    by (vm_compute; reflexivity).
  destruct (_LATCH_spec sin_at_zero cos_at_zero (image_padded 100 128 Byte.x00 Byte.xff)
              128 0 1 [kp_right] descriptors ltac:(lia) ltac:(cbn; lia))
    as (buf & Hrun & Hbuf).
  exists buf. split.
  { unfold LATCH. rewrite Hkept.
    change (wrap32 (Z.of_nat (length [kp_right]))) with 1.
    rewrite schedule_one. cbn [call_start call_stride].
    rewrite (_LATCH_libm sinf cosf sin_at_zero cos_at_zero).
    2:{ intros pt [<- | []]. split; assumption. }
    rewrite Hrun. reflexivity. }
  pose proof (Hbuf (64 * 0 + 2)) as H2. pose proof (Hbuf (64 * 0 + 4)) as H4.
  pose proof (Hbuf (64 * 0 + 7)) as H7.
  rewrite (descriptors_of_slot _ _ _ _ _ _ _ _ 0 2 kp_right) in H2
    by first [reflexivity | lia].
  rewrite (descriptors_of_slot _ _ _ _ _ _ _ _ 0 4 kp_right) in H4
    by first [reflexivity | lia].
  rewrite (descriptors_of_slot _ _ _ _ _ _ _ _ 0 7 kp_right) in H7
    by first [reflexivity | lia].
  change (64 * 0 + 2) with 2 in H2. change (64 * 0 + 4) with 4 in H4.
  change (64 * 0 + 7) with 7 in H7.
  rewrite H2, H4, H7. repeat split; vm_compute; reflexivity.
Qed.

(** Claim C8.  On the multithreaded entry the worker count is
    [min (size / 16, hardware concurrency)]; whenever it is at most 1 no
    future is launched and the worker is called once, directly, on the
    whole filtered range; and when no key point survives the filter the
    call returns with the output memory unchanged. *)
Theorem dispatch_degenerate (sinf cosf : float -> float) (image : image_t) (stride : Z)
    (multithread : bool) (hardware_concurrency width height : Z)
    (keypoints : list KeyPoint.t) (descriptors : buffer) :
  let kept := fst (LATCH sinf cosf image stride multithread hardware_concurrency
                     width height keypoints descriptors) in
  let sz := wrap32 (Z.of_nat (length kept)) in
  (0 <= hardware_concurrency < 2 ^ 31 ->
   hw_concur sz hardware_concurrency = Z.min (sz / 16) hardware_concurrency) /\
  (Z.of_nat (length kept) < 2 ^ 31 -> sz = Z.of_nat (length kept)) /\
  (hw_concur sz hardware_concurrency <= 1 ->
   schedule true hardware_concurrency sz = Direct (Call 0 sz) /\
   snd (LATCH sinf cosf image stride true hardware_concurrency width height
          keypoints descriptors)
   = _LATCH sinf cosf image stride 0 sz kept descriptors) /\
  (kept = [] ->
   snd (LATCH sinf cosf image stride multithread hardware_concurrency width height
          keypoints descriptors) = Some descriptors).
Proof.
  intros kept sz.
  assert (Hkept : kept = erase_remove_if (near_border width height) keypoints)
    by reflexivity.
  split; [|split; [|split]].
  - intros Hhc. unfold hw_concur. rewrite Z.shiftr_div_pow2 by lia.
    rewrite (wrap32_small hardware_concurrency) by lia. reflexivity.
  - intros Hlen. apply wrap32_small. lia.
  - intros Hw.
    assert (Hs : schedule true hardware_concurrency sz = Direct (Call 0 sz)).
    { unfold schedule. destruct (Z.ltb_spec 1 (hw_concur sz hardware_concurrency));
        [lia | reflexivity]. }
    split; [exact Hs|].
    unfold LATCH. cbn [snd]. fold kept. rewrite <- Hkept. fold sz. rewrite Hs. reflexivity.
  - intros Hnil. rewrite LATCH_empty; [reflexivity|]. rewrite <- Hkept. exact Hnil.
Qed.

(** Claim C9.  The worker on the key points [start .. start+n-1] of the
    vector changes only the 64 bytes of each of their slots (offsets
    64*i .. 64*i+63).  Each of these bytes is zeroed before bits are
    OR-ed into it, so what the slot holds afterwards is a function of the
    key point, the image and the table, the same for any earlier content
    of the memory; every other byte, in particular every byte at offset
    64 * size or beyond, is left as it was. *)
Theorem worker_frame (sinf cosf : float -> float) (image : image_t) (stride : Z)
    (start thread_stride : Z) (keypoints : list KeyPoint.t) (descriptors other : buffer) :
  0 <= start -> start + thread_stride <= Z.of_nat (length keypoints) ->
  (forall r desc buf triplet fragment,
     fragment_body image stride r desc (buf, triplet) fragment =
     for_range 0 8 (bit_body image stride r desc fragment)
       (store_u8 buf (desc + fragment) 0, triplet)) /\
  exists buf buf',
    _LATCH sinf cosf image stride start thread_stride keypoints descriptors = Some buf /\
    _LATCH sinf cosf image stride start thread_stride keypoints other = Some buf' /\
    (forall i f pt, start <= i < start + thread_stride -> vector_at keypoints i = Some pt ->
       0 <= f < 64 ->
       buf (64 * i + f) = descriptor_byte sinf cosf image stride pt f /\
       buf' (64 * i + f) = buf (64 * i + f)) /\
    (forall q, q < 64 * start \/ 64 * (start + thread_stride) <= q -> buf q = descriptors q) /\
    (forall q, 64 * Z.of_nat (length keypoints) <= q -> buf q = descriptors q).
Proof.
  intros Hstart Hend. split; [reflexivity|].
  destruct (_LATCH_spec sinf cosf image stride start thread_stride keypoints descriptors
              Hstart Hend) as (buf & Hrun & Hbuf).
  destruct (_LATCH_spec sinf cosf image stride start thread_stride keypoints other
              Hstart Hend) as (buf' & Hrun' & Hbuf').
  exists buf, buf'. repeat split; try assumption.
  - rewrite Hbuf. now apply descriptors_of_slot.
  - rewrite Hbuf, Hbuf', !(descriptors_of_slot _ _ _ _ _ _ _ _ i f pt) by assumption.
    reflexivity.
  - intros q Hq. rewrite Hbuf. now apply descriptors_of_outside.
  - intros q Hq. rewrite Hbuf. apply descriptors_of_outside. lia.
Qed.

Lemma worker_frame_witness :
  exists buf buf',
    _LATCH sin_at_zero cos_at_zero (image_dot 15891) 200 0 1 [kp_100] zero_memory = Some buf /\
    _LATCH sin_at_zero cos_at_zero (image_dot 15891) 200 0 1 [kp_100] (fun _ => 255)
    = Some buf' /\
    (forall i f pt, 0 <= i < 0 + 1 -> vector_at [kp_100] i = Some pt -> 0 <= f < 64 ->
       buf (64 * i + f) = descriptor_byte sin_at_zero cos_at_zero (image_dot 15891) 200 pt f /\
       buf' (64 * i + f) = buf (64 * i + f)) /\
    (forall q, q < 64 * 0 \/ 64 * (0 + 1) <= q -> buf q = zero_memory q) /\
    (forall q, 64 * Z.of_nat (length [kp_100]) <= q -> buf q = zero_memory q).
Proof.
  apply (worker_frame sin_at_zero cos_at_zero (image_dot 15891) 200 0 1 [kp_100]
           zero_memory (fun _ => 255)); cbn; lia.
Defined.

(** Claim C10 as stated fails: the comparisons of the filter are all
    false on NaN, so a key point with NaN coordinates survives in an
    image of width and height 72. *)
Lemma nan_keypoint_survives :
  near_border 72 72 kp_nan = false /\
  fst (LATCH sin_at_zero cos_at_zero (image_dot 0) 72 true 4 72 72 [kp_nan] zero_memory)
  = [kp_nan].
Proof. split; [reflexivity | rewrite LATCH_keypoints; reflexivity]. Qed.

(** Claim C10, as the code has it.  If [width <= 72], every key point
    whose [x] is not NaN satisfies the predicate of the filter, and if
    [height <= 72] every key point whose [y] is not NaN does; so when no
    coordinate in the list is NaN, [LATCH] leaves the vector empty and
    the output memory as it was. *)
Theorem small_image_removes_all (sinf cosf : float -> float) (image : image_t) (stride : Z)
    (multithread : bool) (hardware_concurrency width height : Z)
    (keypoints : list KeyPoint.t) (descriptors : buffer) :
  width <= 72 \/ height <= 72 ->
  (forall kp, In kp keypoints ->
     F32.is_nan (KeyPoint.x kp) = false /\ F32.is_nan (KeyPoint.y kp) = false) ->
  (forall kp, In kp keypoints -> near_border width height kp = true) /\
  LATCH sinf cosf image stride multithread hardware_concurrency width height
    keypoints descriptors = ([], Some descriptors).
Proof.
  intros Hsmall Hnan.
  assert (Hall : forall kp, In kp keypoints -> near_border width height kp = true).
  { intros kp Hin. destruct (Hnan kp Hin) as [Hx Hy]. apply near_border_iff.
    destruct Hsmall as [Hw | Hh].
    - assert (Hb : width - 36 <= 36) by lia.
      destruct (le_36_or_ge (KeyPoint.x kp) (F32.of_Z (width - 36)) Hx
                  (of_Z_at_most_36 _ Hb)); auto.
    - assert (Hb : height - 36 <= 36) by lia.
      destruct (le_36_or_ge (KeyPoint.y kp) (F32.of_Z (height - 36)) Hy
                  (of_Z_at_most_36 _ Hb)); auto. }
  split; [exact Hall|].
  assert (Hkept : erase_remove_if (near_border width height) keypoints = []).
  { rewrite erase_remove_if_filter. unfold kept_by. clear Hnan Hsmall.
    induction keypoints as [|kp l IH]; [reflexivity|].
    cbn. rewrite (Hall kp) by (left; reflexivity). cbn.
    apply IH. intros kp' Hin. apply Hall. right. exact Hin. }
  apply LATCH_empty, Hkept.
Qed.

Lemma small_image_removes_all_witness :
  LATCH sin_at_zero cos_at_zero (image_dot 0) 72 true 4 72 500 [kp_100; kp_100] zero_memory
  = ([], Some zero_memory).
Proof.
  apply (small_image_removes_all sin_at_zero cos_at_zero (image_dot 0) 72 true 4 72 500
           [kp_100; kp_100] zero_memory).
  - left. lia.
  - intros kp [<- | [<- | []]]; split; reflexivity.
Defined.

(** * Further properties

    Properties of the same code beyond the claims: the patch
    comparison, the worker, the dispatcher and the entry point. *)

(** ** The patch comparison, further *)

Lemma sumZ_opp (n : nat) (lo : Z) (f : Z -> Z) :
  sumZ n lo (fun k => - f k) = - sumZ n lo f.
Proof.
  revert lo. induction n as [|n IH]; intros lo; cbn [sumZ]; [reflexivity|].
  rewrite IH. lia.
Qed.

Lemma ssd_difference_range (image : image_t) (stride ax ay bx by_ cx cy : Z) :
  - 4161600 <= ssd_difference image stride ax ay bx by_ cx cy <= 4161600.
Proof.
  unfold ssd_difference.
  set (D := window_term image stride ax ay bx by_ cx cy).
  pose proof (sumZ8_bounds (-3) (fun dy => sumZ 8 (-3) (fun dx => D dx dy))
                (8 * -65025) (8 * 65025)
                (fun dy => sumZ8_bounds (-3) (fun dx => D dx dy) (-65025) 65025
                   (fun dx => window_term_bounds _ _ _ _ _ _ _ _ dx dy))).
  lia.
Qed.

Lemma patch_sum_range (image : image_t) (stride : Z) (xints yints : __m128i) :
  - 4161600 <= patch_sum image stride xints yints <= 4161600.
Proof. rewrite patch_sum_exact. apply ssd_difference_range. Qed.

Lemma ssd_difference_ext (image image' : image_t) (stride ax ay bx by_ cx cy : Z) :
  (forall dx dy, -3 <= dx <= 4 -> -3 <= dy <= 4 ->
     window_term image stride ax ay bx by_ cx cy dx dy
     = window_term image' stride ax ay bx by_ cx cy dx dy) ->
  ssd_difference image stride ax ay bx by_ cx cy
  = ssd_difference image' stride ax ay bx by_ cx cy.
Proof.
  intros H. unfold ssd_difference.
  apply sumZ_ext. intros dy Hdy. apply sumZ_ext. intros dx Hdx.
  apply H; lia.
Qed.

(** Property X1.  Exchanging the patches A and C of a triplet negates the sum, so
    that, unless the sum is 0, exactly one of the two orders sets the
    bit. *)
Theorem swapping_A_and_C_negates (image : image_t) (stride : Z) (xints yints : __m128i) :
  patch_sum image stride (swap_AC xints) (swap_AC yints)
  = - patch_sum image stride xints yints /\
  forall bit, 0 <= bit <= 7 -> patch_sum image stride xints yints <> 0 ->
    sign_mask (patch_sum image stride (swap_AC xints) (swap_AC yints)) bit
    + sign_mask (patch_sum image stride xints yints) bit = 2 ^ bit.
Proof.
  assert (Hneg : patch_sum image stride (swap_AC xints) (swap_AC yints)
                 = - patch_sum image stride xints yints).
  { rewrite !patch_sum_exact. cbn [swap_AC lane0 lane1 lane2].
    unfold ssd_difference. rewrite <- sumZ_opp.
    apply sumZ_ext. intros dy _. cbv beta. rewrite <- sumZ_opp.
    apply sumZ_ext. intros dx _. cbv beta. unfold window_term. lia. }
  split; [exact Hneg|].
  intros bit Hbit Hnz. rewrite Hneg.
  pose proof (patch_sum_range image stride xints yints) as Hr.
  rewrite !sign_mask_spec by lia.
  destruct (Z.ltb_spec (- patch_sum image stride xints yints) 0),
           (Z.ltb_spec (patch_sum image stride xints yints) 0); lia.
Qed.

(** Property X2.  When the patches A and C have the same centre the sum is 0; when
    C has the centre of the anchor B the sum is not negative; in both
    cases the bit stays 0.  When A has the centre of B the sum is not
    positive. *)
Theorem coinciding_patches (image : image_t) (stride : Z) (xints yints : __m128i) :
  (lane0 xints = lane2 xints -> lane0 yints = lane2 yints ->
   patch_sum image stride xints yints = 0) /\
  (lane2 xints = lane1 xints -> lane2 yints = lane1 yints ->
   0 <= patch_sum image stride xints yints) /\
  (lane0 xints = lane1 xints -> lane0 yints = lane1 yints ->
   patch_sum image stride xints yints <= 0) /\
  ((lane0 xints = lane2 xints /\ lane0 yints = lane2 yints) \/
   (lane2 xints = lane1 xints /\ lane2 yints = lane1 yints) ->
   forall bit, 0 <= bit <= 7 -> sign_mask (patch_sum image stride xints yints) bit = 0).
Proof.
  assert (H1 : lane0 xints = lane2 xints -> lane0 yints = lane2 yints ->
               patch_sum image stride xints yints = 0).
  { intros Hx Hy. rewrite patch_sum_exact, Hx, Hy. unfold ssd_difference.
    apply sumZ_zero. intros dy _. apply sumZ_zero. intros dx _.
    unfold window_term. lia. }
  assert (H2 : lane2 xints = lane1 xints -> lane2 yints = lane1 yints ->
               0 <= patch_sum image stride xints yints).
  { intros Hx Hy. rewrite patch_sum_exact, Hx, Hy. unfold ssd_difference.
    pose proof (sumZ_bounds 8 (-3)
                  (fun dy => sumZ 8 (-3)
                     (fun dx => window_term image stride (lane0 xints) (lane0 yints)
                                  (lane1 xints) (lane1 yints) (lane1 xints) (lane1 yints)
                                  dx dy)) 0 4161600) as Hs.
    cbv beta in Hs. apply Hs. intros dy _.
    pose proof (sumZ_bounds 8 (-3)
                  (fun dx => window_term image stride (lane0 xints) (lane0 yints)
                               (lane1 xints) (lane1 yints) (lane1 xints) (lane1 yints)
                               dx dy) 0 65025) as Ht.
    cbv beta in Ht.
    assert (0 <= sumZ 8 (-3)
                   (fun dx => window_term image stride (lane0 xints) (lane0 yints)
                                (lane1 xints) (lane1 yints) (lane1 xints) (lane1 yints)
                                dx dy) <= 8 * 65025); [|lia].
    apply Ht. intros dx _.
    pose proof (window_term_bounds image stride (lane0 xints) (lane0 yints)
                  (lane1 xints) (lane1 yints) (lane1 xints) (lane1 yints) dx dy).
    unfold window_term in *. nia. }
  assert (H3 : lane0 xints = lane1 xints -> lane0 yints = lane1 yints ->
               patch_sum image stride xints yints <= 0).
  { intros Hx Hy. rewrite patch_sum_exact, Hx, Hy. unfold ssd_difference.
    pose proof (sumZ_bounds 8 (-3)
                  (fun dy => sumZ 8 (-3)
                     (fun dx => window_term image stride (lane1 xints) (lane1 yints)
                                  (lane1 xints) (lane1 yints) (lane2 xints) (lane2 yints)
                                  dx dy)) (- 4161600) 0) as Hs.
    cbv beta in Hs. apply Hs. intros dy _.
    pose proof (sumZ_bounds 8 (-3)
                  (fun dx => window_term image stride (lane1 xints) (lane1 yints)
                               (lane1 xints) (lane1 yints) (lane2 xints) (lane2 yints)
                               dx dy) (- 65025) 0) as Ht.
    cbv beta in Ht.
    assert (8 * - 65025 <= sumZ 8 (-3)
                   (fun dx => window_term image stride (lane1 xints) (lane1 yints)
                                (lane1 xints) (lane1 yints) (lane2 xints) (lane2 yints)
                                dx dy) <= 0); [|lia].
    apply Ht. intros dx _.
    pose proof (window_term_bounds image stride (lane1 xints) (lane1 yints)
                  (lane1 xints) (lane1 yints) (lane2 xints) (lane2 yints) dx dy).
    unfold window_term in *. nia. }
  split; [exact H1|]. split; [exact H2|]. split; [exact H3|].
  intros Hc bit Hbit.
  pose proof (patch_sum_range image stride xints yints) as Hr.
  rewrite sign_mask_spec by lia.
  destruct (Z.ltb_spec (patch_sum image stride xints yints) 0) as [Hlt|]; [|reflexivity].
  destruct Hc as [[Hx Hy]|[Hx Hy]]; [rewrite (H1 Hx Hy) in Hlt | pose proof (H2 Hx Hy)]; lia.
Qed.

(** Property X3.  The sum of one triplet lies between -4161600 and 4161600
    (64 * 255^2), far inside [int]; both ends are reached, by a white
    patch A, respectively C, on an otherwise black image. *)
Theorem patch_sum_bound_sharp :
  (forall (image : image_t) (stride : Z) (xints yints : __m128i),
     - 4161600 <= patch_sum image stride xints yints <= 4161600) /\
  patch_sum (image_block 200 92 98) 200 (V4 95 84 91 0) (V4 101 116 79 0) = 4161600 /\
  patch_sum (image_block 200 88 76) 200 (V4 95 84 91 0) (V4 101 116 79 0) = - 4161600.
Proof.
  split; [exact patch_sum_range|]. split; vm_compute; reflexivity.
Qed.






(** Property X5.  The sum of a triplet depends on the image through the three
    8x8 windows only: rows [cy-3 .. cy+4] and columns [cx-3 .. cx+4]
    around each of the three centres.  (Of the sixteen bytes of every
    load the conversion keeps four.) *)
Theorem evaluator_footprint (image image' : image_t) (stride : Z) (xints yints : __m128i) :
  (forall cx cy dx dy,
     (cx, cy) = (lane0 xints, lane0 yints) \/
     (cx, cy) = (lane1 xints, lane1 yints) \/
     (cx, cy) = (lane2 xints, lane2 yints) ->
     -3 <= dx <= 4 -> -3 <= dy <= 4 ->
     image (stride * (cy + dy) + cx + dx) = image' (stride * (cy + dy) + cx + dx)) ->
  patch_sum image stride xints yints = patch_sum image' stride xints yints.
Proof.
  intros H. rewrite !patch_sum_exact.
  apply ssd_difference_ext. intros dx dy Hdx Hdy.
  unfold window_term, window_pixel, pixel.
  rewrite (H (lane0 xints) (lane0 yints) dx dy), (H (lane1 xints) (lane1 yints) dx dy),
    (H (lane2 xints) (lane2 yints) dx dy) by auto.
  reflexivity.
Qed.

Lemma evaluator_footprint_witness :
  patch_sum (image_dot 0) 200 (V4 95 84 91 0) (V4 101 116 79 0)
  = patch_sum (image_dot 1) 200 (V4 95 84 91 0) (V4 101 116 79 0).
Proof.
  apply (evaluator_footprint (image_dot 0) (image_dot 1) 200 (V4 95 84 91 0)
           (V4 101 116 79 0)).
  intros cx cy dx dy Hc Hdx Hdy. unfold image_dot. cbn [lane0 lane1 lane2] in Hc.
  assert (Hp : 2 <= 200 * (cy + dy) + cx + dx)
    by (destruct Hc as [Hc|[Hc|Hc]]; injection Hc as -> ->; lia).
  destruct (Z.eqb_spec (200 * (cy + dy) + cx + dx) 0); [lia|].
  destruct (Z.eqb_spec (200 * (cy + dy) + cx + dx) 1); [lia|].
  reflexivity.
Defined.

(** Property X6.  The worker checks no index of the vector.  Some [keypoints[i]] of
    a call lies outside the vector, [None] in the model, exactly when an
    index of its range [start .. start + thread_stride - 1] does: a
    non-positive [thread_stride] indexes nothing, wherever [start] is,
    and a positive one stays inside the vector exactly when
    [0 <= start] and [start + thread_stride <= size].  This is about
    the vector alone; what the call reads of the image is not part of
    the statement. *)
Theorem worker_vector_access_iff (sinf cosf : float -> float) (image : image_t)
    (stride start thread_stride : Z) (keypoints : list KeyPoint.t) (descriptors : buffer) :
  (thread_stride <= 0 ->
   _LATCH sinf cosf image stride start thread_stride keypoints descriptors
   = Some descriptors) /\
  (_LATCH sinf cosf image stride start thread_stride keypoints descriptors <> None <->
   thread_stride <= 0 \/
   (0 <= start /\ start + thread_stride <= Z.of_nat (length keypoints))) /\
  (_LATCH sinf cosf image stride start thread_stride keypoints descriptors = None <->
   exists i, start <= i < start + thread_stride /\ vector_at keypoints i = None).
Proof.
  assert (Hempty : thread_stride <= 0 ->
                   _LATCH sinf cosf image stride start thread_stride keypoints descriptors
                   = Some descriptors).
  { intros Hle. unfold _LATCH, for_range.
    replace (Z.to_nat (start + thread_stride - start)) with 0%nat by lia. reflexivity. }
  assert (Hneg : 0 < thread_stride -> start < 0 ->
                 _LATCH sinf cosf image stride start thread_stride keypoints descriptors
                 = None).
  { intros Hpos Hstart. unfold _LATCH, for_range.
    destruct (Z.to_nat (start + thread_stride - start)) as [|n] eqn:Hn; [lia|].
    cbn [for_loop]. unfold keypoint_body at 2. unfold vector_at.
    destruct (Z.ltb_spec start 0); [|lia]. apply keypoint_loop_None. }
  assert (Hin : 0 <= start -> start + thread_stride <= Z.of_nat (length keypoints) ->
                _LATCH sinf cosf image stride start thread_stride keypoints descriptors
                <> None).
  { intros Hstart Hend.
    destruct (_LATCH_spec sinf cosf image stride start thread_stride keypoints descriptors
                Hstart Hend) as (buf & -> & _). discriminate. }
  assert (Hiff : _LATCH sinf cosf image stride start thread_stride keypoints descriptors
                 <> None <->
                 thread_stride <= 0 \/
                 (0 <= start /\ start + thread_stride <= Z.of_nat (length keypoints))).
  { split.
    - intros Hdef.
      destruct (Z.le_gt_cases thread_stride 0) as [|Hpos]; [left; assumption | right].
      destruct (Z.lt_ge_cases start 0) as [Hstart|Hstart];
        [exfalso; apply Hdef, Hneg; lia|].
      split; [exact Hstart|].
      destruct (Z.le_gt_cases (start + thread_stride) (Z.of_nat (length keypoints)))
        as [|Hover]; [assumption|].
      exfalso. apply Hdef. apply _LATCH_overrun; lia.
    - intros [Hle | [Hstart Hend]]; [rewrite Hempty by exact Hle; discriminate|].
      apply Hin; assumption. }
  split; [exact Hempty|]. split; [exact Hiff|]. split.
  - intros Hnone.
    assert (Hnot : ~ (thread_stride <= 0 \/
                      (0 <= start /\ start + thread_stride <= Z.of_nat (length keypoints))))
      by (intros H; apply Hiff in H; contradiction).
    destruct (Z.lt_ge_cases start 0) as [Hstart|Hstart].
    + exists start. split; [lia|]. unfold vector_at.
      destruct (Z.ltb_spec start 0); [reflexivity | lia].
    + exists (start + thread_stride - 1). split; [lia|]. apply vector_at_None. lia.
  - intros (i & Hi & Hnone).
    destruct (Z.lt_ge_cases start 0) as [Hstart|Hstart]; [apply Hneg; lia|].
    apply _LATCH_overrun; [exact Hstart | | lia].
    destruct (Z.lt_ge_cases i (Z.of_nat (length keypoints))) as [Hlt|]; [|lia].
    destruct (vector_at_Some keypoints i ltac:(lia)) as [a Ha]. congruence.
Qed.

(** Property X7.  Calls on adjacent ranges compose.  Two calls, the second on the
    memory of the first and starting where the first stops, do what one
    call on the union does; so do [n] calls of [thread_stride] key
    points each. *)
Theorem worker_ranges_compose (sinf cosf : float -> float) (image : image_t)
    (stride start : Z) (keypoints : list KeyPoint.t) (descriptors : buffer) :
  (forall n1 n2, 0 <= n1 -> 0 <= n2 ->
     match _LATCH sinf cosf image stride start n1 keypoints descriptors with
     | Some buf => _LATCH sinf cosf image stride (start + n1) n2 keypoints buf
     | None => None
     end
     = _LATCH sinf cosf image stride start (n1 + n2) keypoints descriptors) /\
  (forall (n : nat) thread_stride, 0 <= thread_stride ->
     run_calls sinf cosf image stride (chunks n start thread_stride) keypoints descriptors
     = _LATCH sinf cosf image stride start (Z.of_nat n * thread_stride) keypoints
         descriptors).
Proof.
  split.
  - intros n1 n2 H1 H2. apply _LATCH_app; assumption.
  - intros n thread_stride Hts. apply run_calls_chunks. exact Hts.
Qed.

(** ** Degenerate scales *)

Lemma triplets_at_finite (p : Z) : finite_or_zero (triplets_at p) = true.
Proof.
  unfold triplets_at.
  assert (Hall : forallb (fun z => finite_or_zero (F32.of_Z z)) triplets = true)
    by (vm_compute; reflexivity).
  destruct (nth_in_or_default (Z.to_nat p) triplets 0) as [Hin | ->].
  - exact (proj1 (forallb_forall _ _) Hall _ Hin).
  - reflexivity.
Qed.

Lemma mul_nan_r (a : float) : F32.mul a S754_nan = S754_nan.
Proof. destruct a; reflexivity. Qed.

Lemma mul_nan_l (b : float) : F32.mul S754_nan b = S754_nan.
Proof. destruct b; reflexivity. Qed.

Lemma mul_zero_r (a : float) (s : bool) :
  finite_or_zero a = true -> exists s', F32.mul a (S754_zero s) = S754_zero s'.
Proof. destruct a; try discriminate; intros _; eexists; reflexivity. Qed.

Lemma mul_zero_l (b : float) (s : bool) :
  finite_or_zero b = true -> exists s', F32.mul (S754_zero s) b = S754_zero s'.
Proof. destruct b; try discriminate; intros _; eexists; reflexivity. Qed.

Lemma sub_zero_zero (s1 s2 : bool) :
  exists s', F32.sub (S754_zero s1) (S754_zero s2) = S754_zero s'.
Proof. destruct s1, s2; eexists; reflexivity. Qed.

Lemma add_zero_zero (s1 s2 : bool) :
  exists s', F32.add (S754_zero s1) (S754_zero s2) = S754_zero s'.
Proof. destruct s1, s2; eexists; reflexivity. Qed.

Lemma clamp_32_zero (s : bool) : clamp_32 (S754_zero s) = S754_zero s.
Proof. destruct s; vm_compute; reflexivity. Qed.

Lemma to_int32_add_zero (a : float) (s : bool) :
  F32.to_int32 (F32.add a (S754_zero s)) = F32.to_int32 a.
Proof. destruct a as [sa|sa| |sa m e]; destruct s; try destruct sa; reflexivity. Qed.

(** With a NaN scale both coordinates of every offset clamp to -32. *)
Lemma sample_center_nan_scale (sinf cosf : float -> float) (pt : KeyPoint.t) (ox oy : float) :
  KeyPoint.scale pt = S754_nan ->
  sample_center sinf cosf pt ox oy
  = (F32.to_int32 (F32.add (KeyPoint.x pt) (F32.of_Z (-32))),
     F32.to_int32 (F32.add (KeyPoint.y pt) (F32.of_Z (-32)))).
Proof.
  intros Hs. unfold sample_center. rewrite Hs.
  change (F32.div S754_nan (F32.of_Z 7)) with S754_nan.
  rewrite !mul_nan_r, !mul_nan_l.
  change (F32.sub S754_nan S754_nan) with S754_nan.
  change (F32.add S754_nan S754_nan) with S754_nan.
  change (clamp_32 S754_nan) with (F32.of_Z (-32)). reflexivity.
Qed.

(** With a zero scale every offset is moved to the key point itself. *)
Lemma sample_center_zero_scale (sinf cosf : float -> float) (pt : KeyPoint.t)
    (ox oy : float) (s : bool) :
  KeyPoint.scale pt = S754_zero s ->
  finite_or_zero (sinf (KeyPoint.angle pt)) = true ->
  finite_or_zero (cosf (KeyPoint.angle pt)) = true ->
  finite_or_zero ox = true -> finite_or_zero oy = true ->
  sample_center sinf cosf pt ox oy
  = (F32.to_int32 (KeyPoint.x pt), F32.to_int32 (KeyPoint.y pt)).
Proof.
  intros Hs Hsin Hcos Hox Hoy. unfold sample_center. rewrite Hs.
  assert (Hdiv : F32.div (S754_zero s) (F32.of_Z 7) = S754_zero s)
    by (destruct s; reflexivity).
  rewrite Hdiv.
  destruct (mul_zero_r ox s Hox) as [sx ->]. destruct (mul_zero_r oy s Hoy) as [sy ->].
  destruct (mul_zero_l _ sx Hcos) as [s1 ->]. destruct (mul_zero_l _ sy Hsin) as [s2 ->].
  destruct (mul_zero_l _ sx Hsin) as [s3 ->]. destruct (mul_zero_l _ sy Hcos) as [s4 ->].
  destruct (sub_zero_zero s1 s2) as [s5 ->]. destruct (add_zero_zero s3 s4) as [s6 ->].
  rewrite !clamp_32_zero, !to_int32_add_zero. reflexivity.
Qed.

Lemma ssd_difference_same_AC (image : image_t) (stride ax ay bx by_ : Z) :
  ssd_difference image stride ax ay bx by_ ax ay = 0.
Proof.
  unfold ssd_difference. apply sumZ_zero. intros dy _. apply sumZ_zero. intros dx _.
  unfold window_term. lia.
Qed.

(** When every offset of the table lands on one centre, no bit is set. *)
Lemma coinciding_centres_zero (sinf cosf : float -> float) (image : image_t) (stride : Z)
    (pt : KeyPoint.t) (P : Z * Z) :
  (forall p q, sample_center sinf cosf pt (triplets_at p) (triplets_at q) = P) ->
  forall f, descriptor_byte sinf cosf image stride pt f = 0.
Proof.
  intros H f. unfold descriptor_byte. apply sumZ_zero. intros b _.
  assert (Hsum : triplet_sum sinf cosf image stride pt (8 * f + b) = 0).
  { unfold triplet_sum, centers_ssd.
    destruct (sample_centers_lanes sinf cosf pt (6 * (8 * f + b))) as (H0 & _ & H2).
    destruct (sample_centers (load_regs sinf cosf pt) (6 * (8 * f + b))) as [xints yints].
    cbn [fst snd] in H0, H2. rewrite H in H0, H2. rewrite <- H2 in H0.
    injection H0 as -> ->. apply ssd_difference_same_AC. }
  rewrite Hsum. reflexivity.
Qed.

(** Property X8.  A key point of degenerate scale gets the descriptor 0.  With a
    NaN scale every sample offset is NaN and the clamp turns it into
    -32; with a zero scale (and [sin], [cos] of the angle finite) every
    offset is 0.  Either way the three patches of every triplet
    coincide, and all 64 bytes of the descriptor are written as 0. *)
Theorem degenerate_scale_zero_descriptor (sinf cosf : float -> float) (image : image_t)
    (stride start thread_stride : Z) (keypoints : list KeyPoint.t) (descriptors : buffer)
    (i : Z) (pt : KeyPoint.t) :
  KeyPoint.scale pt = S754_nan \/
  ((exists s, KeyPoint.scale pt = S754_zero s) /\
   finite_or_zero (sinf (KeyPoint.angle pt)) = true /\
   finite_or_zero (cosf (KeyPoint.angle pt)) = true) ->
  0 <= start <= i -> i < start + thread_stride <= Z.of_nat (length keypoints) ->
  vector_at keypoints i = Some pt ->
  exists buf,
    _LATCH sinf cosf image stride start thread_stride keypoints descriptors = Some buf /\
    forall f, 0 <= f < 64 -> buf (64 * i + f) = 0.
Proof.
  intros Hscale Hstart Hend Hpt.
  destruct (_LATCH_spec sinf cosf image stride start thread_stride keypoints descriptors)
    as (buf & Hrun & Hbuf); [lia | lia |].
  exists buf. split; [exact Hrun|]. intros f Hf.
  rewrite Hbuf, (descriptors_of_slot sinf cosf image stride keypoints start _ descriptors
                   i f pt) by (assumption || lia).
  destruct Hscale as [Hnan | ([s Hzero] & Hsin & Hcos)].
  - apply (coinciding_centres_zero sinf cosf image stride pt
             (F32.to_int32 (F32.add (KeyPoint.x pt) (F32.of_Z (-32))),
              F32.to_int32 (F32.add (KeyPoint.y pt) (F32.of_Z (-32))))).
    intros p q. apply sample_center_nan_scale. exact Hnan.
  - apply (coinciding_centres_zero sinf cosf image stride pt
             (F32.to_int32 (KeyPoint.x pt), F32.to_int32 (KeyPoint.y pt))).
    intros p q. apply (sample_center_zero_scale sinf cosf pt _ _ s Hzero Hsin Hcos);
      apply triplets_at_finite.
Qed.

Lemma degenerate_scale_zero_descriptor_witness :
  exists buf,
    _LATCH sin_at_zero cos_at_zero (image_dot 15891) 200 0 2
      [kp_scaled (S754_zero false); kp_scaled S754_nan] zero_memory = Some buf /\
    forall f, 0 <= f < 64 -> buf (64 * 1 + f) = 0.
Proof.
  apply (degenerate_scale_zero_descriptor sin_at_zero cos_at_zero (image_dot 15891) 200 0 2
           [kp_scaled (S754_zero false); kp_scaled S754_nan] zero_memory 1
           (kp_scaled S754_nan)).
  - left. reflexivity.
  - lia.
  - cbn [length]. lia.
  - reflexivity.
Defined.


(** ** The partition, in general *)

Lemma chunks_length (n : nat) (start thread_stride : Z) :
  length (chunks n start thread_stride) = n.
Proof.
  revert start. induction n as [|n IH]; intros start; cbn [chunks length]; [reflexivity|].
  rewrite IH. reflexivity.
Qed.

Lemma chunks_lookup (n i : nat) (start thread_stride : Z) :
  (i < n)%nat ->
  chunks n start thread_stride !! i = Some (Call (start + Z.of_nat i * thread_stride) thread_stride).
Proof.
  revert i start. induction n as [|n IH]; intros i start Hi; [lia|].
  destruct i as [|i]; cbn [chunks].
  - cbn. do 2 f_equal. lia.
  - change ((Call start thread_stride :: chunks n (start + thread_stride) thread_stride) !! S i)
      with (chunks n (start + thread_stride) thread_stride !! i).
    rewrite IH by lia. do 2 f_equal. lia.
Qed.

(** More than one worker means at least 16 key points for each, and no
    more workers than the hardware reports. *)
Lemma hw_concur_bounds (sz hardware_concurrency : Z) :
  0 <= sz ->
  16 * hw_concur sz hardware_concurrency <= sz /\
  hw_concur sz hardware_concurrency <= wrap32 hardware_concurrency.
Proof.
  intros Hsz. unfold hw_concur. rewrite Z.shiftr_div_pow2 by lia.
  pose proof (Z.mul_div_le sz (2 ^ 4) ltac:(lia)). change (2 ^ 4) with 16 in *. lia.
Qed.

(** [thread_stride] is [sz / hw] rounded up; the first [hw - 1] chunks
    together pass [sz] by at most [hw - 17]. *)
Lemma chunk_size_ceil (sz hw : Z) :
  1 < hw -> 16 * hw <= sz ->
  16 <= chunk_size sz hw /\
  sz <= hw * chunk_size sz hw < sz + hw /\
  (hw - 1) * chunk_size sz hw - sz <= hw - 17.
Proof.
  intros Hhw H16. unfold chunk_size. rewrite Z.quot_div_nonneg by lia.
  pose proof (Z.div_mod (sz - 1) hw ltac:(lia)) as Hdm.
  pose proof (Z.mod_pos_bound (sz - 1) hw ltac:(lia)) as Hr.
  set (q := (sz - 1) / hw) in *. set (r := (sz - 1) mod hw) in *. clearbody q r.
  assert (Hq : 15 <= q) by nia.
  repeat split; nia.
Qed.

Lemma schedule_sequential (hardware_concurrency sz : Z) :
  hw_concur sz hardware_concurrency <= 1 ->
  schedule true hardware_concurrency sz = Direct (Call 0 sz).
Proof.
  intros H. unfold schedule.
  destruct (Z.ltb_spec 1 (hw_concur sz hardware_concurrency)); [lia | reflexivity].
Qed.

(** When the first [hw - 1] chunks stay inside the range, so does every
    call that [LATCH] launches. *)
Lemma schedule_in_vector (hardware_concurrency : Z) (len : nat) :
  let sz := Z.of_nat len in
  let hw := hw_concur sz hardware_concurrency in
  1 < hw -> (hw - 1) * chunk_size sz hw <= sz ->
  Forall (in_vector len) (dispatch_calls (schedule true hardware_concurrency sz)).
Proof.
  intros sz hw Hhw Hfit.
  rewrite schedule_parallel by (fold sz; fold hw; lia). fold sz. fold hw.
  destruct (hw_concur_bounds sz hardware_concurrency ltac:(lia)) as [H16 _]. fold hw in H16.
  destruct (chunk_size_ceil sz hw Hhw H16) as (Hts & _ & _).
  cbn [dispatch_calls]. apply Forall_app. split.
  - apply Forall_lookup. intros i c Hc.
    assert (Hi : (i < Z.to_nat (hw - 1))%nat).
    { apply lookup_lt_Some in Hc. rewrite chunks_length in Hc. exact Hc. }
    rewrite chunks_lookup in Hc by exact Hi. injection Hc as <-.
    unfold in_vector. cbn [call_start call_stride]. fold sz. nia.
  - apply Forall_singleton. unfold in_vector. cbn [call_start call_stride]. fold sz. nia.
Qed.

(** The indices of the launched calls, whether the chunks fit or not. *)
Lemma parallel_indices (hardware_concurrency sz : Z) :
  let hw := hw_concur sz hardware_concurrency in
  0 <= sz -> 1 < hw ->
  dispatch_indices (schedule true hardware_concurrency sz)
  = seqZ 0 (Z.max sz ((hw - 1) * chunk_size sz hw)).
Proof.
  intros hw Hsz Hhw. rewrite schedule_parallel by (fold hw; lia). fold hw.
  destruct (hw_concur_bounds sz hardware_concurrency Hsz) as [H16 _]. fold hw in H16.
  destruct (chunk_size_ceil sz hw Hhw H16) as (Hts & _ & _).
  unfold dispatch_indices. cbn [dispatch_calls].
  rewrite map_app, concat_app, chunks_indices by lia.
  cbn [map concat call_indices]. unfold call_indices. cbn [call_start call_stride].
  rewrite app_nil_r, Z2Nat.id by lia.
  set (a := (hw - 1) * chunk_size sz hw) in *.
  assert (Ha : 0 <= a) by (subst a; nia).
  destruct (Z.le_gt_cases a sz) as [Hfit|Hover].
  - rewrite Z.max_l by lia.
    replace (seqZ 0 sz) with (seqZ 0 (a + (sz - a))) by (f_equal; lia).
    rewrite seqZ_app by lia. reflexivity.
  - rewrite Z.max_r by lia.
    unfold seqZ at 2. replace (Z.to_nat (sz - a)) with 0%nat by lia.
    cbn. apply app_nil_r.
Qed.

(** Property X10.  The indices that the calls of [LATCH] process, call after call,
    are 0, 1, ..., m - 1 without a gap or a repetition: no key point
    is left out and no descriptor is written by two workers.  On the
    single-threaded path and with one worker, m is [sz].  With more
    workers m is the larger of [sz] and [(hw - 1) * thread_stride]:
    exactly the key points when the first [hw - 1] chunks fit, and
    indices past the last key point when they do not. *)
Theorem schedule_indices (multithread : bool) (hardware_concurrency sz : Z) :
  let hw := hw_concur sz hardware_concurrency in
  0 <= sz ->
  dispatch_indices (schedule multithread hardware_concurrency sz)
  = seqZ 0 (if multithread && (1 <? hw)
            then Z.max sz ((hw - 1) * chunk_size sz hw) else sz) /\
  NoDup (dispatch_indices (schedule multithread hardware_concurrency sz)).
Proof.
  intros hw Hsz.
  assert (Heq : dispatch_indices (schedule multithread hardware_concurrency sz)
                = seqZ 0 (if multithread && (1 <? hw)
                          then Z.max sz ((hw - 1) * chunk_size sz hw) else sz));
    [|split; [exact Heq | rewrite Heq; apply NoDup_seqZ]].
  assert (Hdirect : dispatch_indices (Direct (Call 0 sz)) = seqZ 0 sz).
  { unfold dispatch_indices. cbn. apply app_nil_r. }
  destruct multithread; [|exact Hdirect]. cbn [andb].
  destruct (Z.ltb_spec 1 hw) as [Hhw|Hhw].
  - apply parallel_indices; assumption.
  - rewrite schedule_sequential by exact Hhw. exact Hdirect.
Qed.

Lemma schedule_indices_witness :
  dispatch_indices (schedule true 4 100) = seqZ 0 100.
Proof.
  apply (schedule_indices true 4 100). vm_compute. discriminate.
Defined.

(** Property X11.  With more than one worker, [LATCH] launches exactly [hw] calls,
    where [hw] is at most the hardware concurrency and at most a 16th of
    the key points.  Call number [i] but the last starts at
    [i * thread_stride] and takes [thread_stride] key points, which is
    [sz / hw] rounded up and at least 16; the last call takes what is
    left of [sz], and the calls before it pass [sz] by at most
    [hw - 17]. *)
Theorem schedule_shape (hardware_concurrency sz : Z) :
  let hw := hw_concur sz hardware_concurrency in
  let thread_stride := chunk_size sz hw in
  0 <= sz -> 1 < hw ->
  exists fut,
    schedule true hardware_concurrency sz = Futures fut /\
    Z.of_nat (length fut) = hw /\
    hw <= wrap32 hardware_concurrency /\ 16 * hw <= sz /\
    16 <= thread_stride /\ sz <= hw * thread_stride < sz + hw /\
    (forall i, 0 <= i < hw - 1 ->
       vector_at fut i = Some (Call (i * thread_stride) thread_stride)) /\
    vector_at fut (hw - 1)
    = Some (Call ((hw - 1) * thread_stride) (sz - (hw - 1) * thread_stride)) /\
    (hw - 1) * thread_stride - sz <= hw - 17.
Proof.
  intros hw thread_stride Hsz Hhw.
  destruct (hw_concur_bounds sz hardware_concurrency Hsz) as [H16 Hhc].
  fold hw in H16, Hhc.
  destruct (chunk_size_ceil sz hw Hhw H16) as (Hts & Hceil & Hover).
  fold thread_stride in Hts, Hceil, Hover.
  eexists. split; [apply schedule_parallel; fold hw; lia|]. fold hw. fold thread_stride.
  split; [rewrite length_app, chunks_length; cbn [length]; lia|].
  do 4 (split; [assumption|]).
  split; [|split; [|exact Hover]].
  - intros i Hi. unfold vector_at. destruct (Z.ltb_spec i 0); [lia|].
    rewrite lookup_app_l by (rewrite chunks_length; lia).
    rewrite chunks_lookup by lia. rewrite Z2Nat.id by lia. reflexivity.
  - unfold vector_at. destruct (Z.ltb_spec (hw - 1) 0); [lia|].
    rewrite lookup_app_r by (rewrite chunks_length; lia).
    rewrite chunks_length, Nat.sub_diag. reflexivity.
Qed.

Lemma schedule_shape_witness :
  exists fut,
    schedule true 4 100 = Futures fut /\
    Z.of_nat (length fut) = 4 /\
    4 <= wrap32 4 /\ 16 * 4 <= 100 /\
    16 <= 25 /\ 100 <= 4 * 25 < 100 + 4 /\
    (forall i, 0 <= i < 4 - 1 -> vector_at fut i = Some (Call (i * 25) 25)) /\
    vector_at fut (4 - 1) = Some (Call ((4 - 1) * 25) (100 - (4 - 1) * 25)) /\
    (4 - 1) * 25 - 100 <= 4 - 17.
Proof.
  apply (schedule_shape 4 100); vm_compute; [discriminate | reflexivity].
Defined.

(** Property X12.  18 is the last safe number of workers.  Up to 18 workers the
    processed indices are exactly 0, ..., sz - 1, whatever the number
    of key points.  For every hardware concurrency [hc] from 19 on,
    [16 hc + 1] key points give [hc] workers and chunks of 17, and the
    processed indices run up to [17 (hc - 1) - 1], past the last key
    point. *)
Theorem workers_18_is_sharp :
  (forall hardware_concurrency sz,
     0 <= sz -> hw_concur sz hardware_concurrency <= 18 ->
     dispatch_indices (schedule true hardware_concurrency sz) = seqZ 0 sz) /\
  (forall hc,
     19 <= hc < 2 ^ 27 ->
     hw_concur (16 * hc + 1) hc = hc /\
     chunk_size (16 * hc + 1) hc = 17 /\
     dispatch_indices (schedule true hc (16 * hc + 1)) = seqZ 0 (17 * (hc - 1)) /\
     16 * hc + 1 < 17 * (hc - 1)).
Proof.
  split.
  - intros hardware_concurrency sz Hsz Hhw. apply partition_exact_upto_18; assumption.
  - intros hc Hhc.
    assert (Hhw : hw_concur (16 * hc + 1) hc = hc).
    { unfold hw_concur. rewrite Z.shiftr_div_pow2 by lia. change (2 ^ 4) with 16.
      replace ((16 * hc + 1) / 16) with hc
        by (apply (Z.div_unique _ _ _ 1); lia).
      rewrite wrap32_small by lia. lia. }
    assert (Hts : chunk_size (16 * hc + 1) hc = 17).
    { unfold chunk_size. rewrite Z.quot_div_nonneg by lia.
      replace (16 * hc + 1 - 1) with (16 * hc) by lia.
      rewrite Z.div_mul by lia. reflexivity. }
    split; [exact Hhw|]. split; [exact Hts|]. split; [|lia].
    pose proof (parallel_indices hc (16 * hc + 1)) as Hidx. cbv zeta in Hidx.
    rewrite Hhw, Hts in Hidx. rewrite Hidx by lia. f_equal. lia.
Qed.

(** Property X13.  On a machine that reports at most 18 hardware threads,
    [LATCH<true>] is safe: it stays inside the vector and returns what
    [LATCH<false>] returns, key points and memory. *)
Theorem multithread_safe_upto_18_threads (sinf cosf : float -> float) (image : image_t)
    (stride hardware_concurrency width height : Z) (keypoints : list KeyPoint.t)
    (descriptors : buffer) :
  Z.of_nat (length keypoints) < 2 ^ 31 -> wrap32 hardware_concurrency <= 18 ->
  LATCH sinf cosf image stride true hardware_concurrency width height keypoints descriptors
  = LATCH sinf cosf image stride false hardware_concurrency width height keypoints
      descriptors /\
  snd (LATCH sinf cosf image stride true hardware_concurrency width height keypoints
         descriptors) <> None.
Proof.
  intros Hlen Hhc.
  assert (Hkept : Z.of_nat (length (erase_remove_if (near_border width height) keypoints))
                  <= Z.of_nat (length keypoints)).
  { rewrite erase_remove_if_filter. pose proof (filter_length (kept_by (near_border width height)) keypoints). lia. }
  assert (Heq : LATCH sinf cosf image stride true hardware_concurrency width height
                  keypoints descriptors
                = LATCH sinf cosf image stride false hardware_concurrency width height
                    keypoints descriptors).
  { apply multithread_agrees_upto_18; [lia|]. unfold hw_concur. lia. }
  split; [exact Heq|]. rewrite Heq. unfold LATCH.
  rewrite (wrap32_small (Z.of_nat (length (erase_remove_if (near_border width height)
                                             keypoints)))) by lia.
  cbn [schedule call_start call_stride snd].
  destruct (_LATCH_spec sinf cosf image stride 0
              (Z.of_nat (length (erase_remove_if (near_border width height) keypoints)))
              (erase_remove_if (near_border width height) keypoints) descriptors)
    as (buf & -> & _); [lia | lia | discriminate].
Qed.

Lemma multithread_safe_upto_18_threads_witness :
  LATCH sin_at_zero cos_at_zero (image_dot 0) 200 true 2 1000 1000
    (replicate 40 kp_100) zero_memory
  = LATCH sin_at_zero cos_at_zero (image_dot 0) 200 false 2 1000 1000
      (replicate 40 kp_100) zero_memory /\
  snd (LATCH sin_at_zero cos_at_zero (image_dot 0) 200 true 2 1000 1000
         (replicate 40 kp_100) zero_memory) <> None.
Proof.
  apply (multithread_safe_upto_18_threads sin_at_zero cos_at_zero (image_dot 0) 200 2
           1000 1000 (replicate 40 kp_100) zero_memory);
    vm_compute; (discriminate || reflexivity).
Defined.

(** When the chunks fit, the launched calls, run in launch order, are
    one pass of the worker over the whole vector. *)
Lemma run_schedule_fit (sinf cosf : float -> float) (image : image_t) (stride : Z)
    (hardware_concurrency : Z) (keypoints : list KeyPoint.t)
    (descriptors : buffer) :
  let sz := Z.of_nat (length keypoints) in
  let hw := hw_concur sz hardware_concurrency in
  1 < hw -> (hw - 1) * chunk_size sz hw <= sz ->
  run_calls sinf cosf image stride
    (dispatch_calls (schedule true hardware_concurrency sz)) keypoints descriptors
  = _LATCH sinf cosf image stride 0 sz keypoints descriptors.
Proof.
  intros sz hw Hhw Hfit.
  rewrite schedule_parallel by (fold sz; fold hw; lia). fold sz. fold hw.
  destruct (hw_concur_bounds sz hardware_concurrency ltac:(lia)) as [H16 _]. fold hw in H16.
  destruct (chunk_size_ceil sz hw Hhw H16) as (Hts & _ & _).
  cbn [dispatch_calls].
  rewrite run_calls_app, run_calls_chunks by lia.
  rewrite Z2Nat.id by lia.
  set (a := (hw - 1) * chunk_size sz hw) in *.
  assert (Ha : 0 <= a) by (subst a; nia).
  replace (_LATCH sinf cosf image stride 0 sz keypoints descriptors)
    with (_LATCH sinf cosf image stride 0 (a + (sz - a)) keypoints descriptors)
    by (f_equal; lia).
  rewrite <- (_LATCH_app sinf cosf image stride 0 a (sz - a)) by lia.
  destruct (_LATCH sinf cosf image stride 0 a keypoints descriptors) as [buf|];
    [|reflexivity].
  rewrite run_calls_cons. cbn [call_start call_stride].
  replace (0 + a) with a by lia.
  destruct (_LATCH sinf cosf image stride a (sz - a) keypoints buf); reflexivity.
Qed.

(** When they do not fit, the last of the first [hw - 1] calls leaves
    the vector. *)
Lemma run_schedule_unfit (sinf cosf : float -> float) (image : image_t) (stride : Z)
    (hardware_concurrency : Z) (keypoints : list KeyPoint.t)
    (descriptors : buffer) :
  let sz := Z.of_nat (length keypoints) in
  let hw := hw_concur sz hardware_concurrency in
  1 < hw -> sz < (hw - 1) * chunk_size sz hw ->
  run_calls sinf cosf image stride
    (dispatch_calls (schedule true hardware_concurrency sz)) keypoints descriptors
  = None.
Proof.
  intros sz hw Hhw Hover.
  rewrite schedule_parallel by (fold sz; fold hw; lia). fold sz. fold hw.
  destruct (hw_concur_bounds sz hardware_concurrency ltac:(lia)) as [H16 _]. fold hw in H16.
  destruct (chunk_size_ceil sz hw Hhw H16) as (Hts & _ & _).
  cbn [dispatch_calls].
  apply (run_calls_overrun sinf cosf image stride _
           (Call (0 + Z.of_nat (Z.to_nat (hw - 2)) * chunk_size sz hw) (chunk_size sz hw))).
  - apply in_or_app. left. apply list_elem_of_In, list_elem_of_lookup.
    exists (Z.to_nat (hw - 2)). apply chunks_lookup. lia.
  - cbn [call_start]. nia.
  - cbn [call_stride]. lia.
  - cbn [call_start call_stride]. fold sz. rewrite Z2Nat.id by lia. nia.
Qed.

Lemma LATCH_unfold (sinf cosf : float -> float) (image : image_t) (stride : Z)
    (multithread : bool) (hardware_concurrency width height : Z)
    (keypoints : list KeyPoint.t) (descriptors : buffer) :
  let kept := erase_remove_if (near_border width height) keypoints in
  Z.of_nat (length kept) < 2 ^ 31 ->
  LATCH sinf cosf image stride multithread hardware_concurrency width height
    keypoints descriptors
  = (kept, run_calls sinf cosf image stride
             (dispatch_calls (schedule multithread hardware_concurrency
                                (Z.of_nat (length kept)))) kept descriptors).
Proof.
  intros kept Hlen. unfold LATCH. fold kept.
  rewrite (wrap32_small (Z.of_nat (length kept))) by lia. f_equal.
  destruct (schedule multithread hardware_concurrency (Z.of_nat (length kept))) as [c|fut];
    cbn [dispatch_calls]; [|reflexivity].
  rewrite run_calls_cons.
  destruct (_LATCH sinf cosf image stride (call_start c) (call_stride c) kept descriptors);
    reflexivity.
Qed.

(** Property X14.  With more than one worker, [LATCH<true>] returns what
    [LATCH<false>] returns exactly when the first [hw - 1] chunks fit
    into the key points, [(hw - 1) * thread_stride <= sz]; when they do
    not, one of its workers indexes the vector past its end.
    [LATCH<false>] never does. *)
Theorem multithread_defined_iff_chunks_fit (sinf cosf : float -> float) (image : image_t)
    (stride hardware_concurrency width height : Z) (keypoints : list KeyPoint.t)
    (descriptors : buffer) :
  let kept := erase_remove_if (near_border width height) keypoints in
  let sz := Z.of_nat (length kept) in
  let hw := hw_concur sz hardware_concurrency in
  sz < 2 ^ 31 -> 1 < hw ->
  snd (LATCH sinf cosf image stride false hardware_concurrency width height
         keypoints descriptors) <> None /\
  ((hw - 1) * chunk_size sz hw <= sz ->
   LATCH sinf cosf image stride true hardware_concurrency width height keypoints descriptors
   = LATCH sinf cosf image stride false hardware_concurrency width height keypoints
       descriptors) /\
  (sz < (hw - 1) * chunk_size sz hw ->
   snd (LATCH sinf cosf image stride true hardware_concurrency width height
          keypoints descriptors) = None).
Proof.
  intros kept sz hw Hlen Hhw.
  assert (Hfalse : LATCH sinf cosf image stride false hardware_concurrency width height
                     keypoints descriptors
                   = (kept, _LATCH sinf cosf image stride 0 sz kept descriptors)).
  { unfold LATCH. fold kept. rewrite (wrap32_small (Z.of_nat (length kept))) by (fold sz; lia).
    reflexivity. }
  split; [|split].
  - rewrite Hfalse. cbn [snd].
    destruct (_LATCH_spec sinf cosf image stride 0 sz kept descriptors) as (buf & -> & _);
      [lia | subst sz; lia | discriminate].
  - intros Hfit. rewrite Hfalse, LATCH_unfold by exact Hlen. fold kept. f_equal.
    apply run_schedule_fit; assumption.
  - intros Hover. rewrite LATCH_unfold by exact Hlen. cbn [snd].
    apply run_schedule_unfit; assumption.
Qed.

Lemma multithread_defined_iff_chunks_fit_witness :
  LATCH sin_at_zero cos_at_zero (image_dot 0) 200 true 4 1000 1000
    (replicate 64 kp_100) zero_memory
  = LATCH sin_at_zero cos_at_zero (image_dot 0) 200 false 4 1000 1000
      (replicate 64 kp_100) zero_memory.
Proof.
  apply (multithread_defined_iff_chunks_fit sin_at_zero cos_at_zero (image_dot 0) 200 4
           1000 1000 (replicate 64 kp_100) zero_memory);
    vm_compute; (discriminate || reflexivity).
Defined.

(** Property X15.  When the chunks fit, the order in which the workers run is of no
    consequence: the launched calls, run one after the other in any
    order, leave the memory that [LATCH<false>] leaves. *)
Theorem launch_order_irrelevant (sinf cosf : float -> float) (image : image_t)
    (stride hardware_concurrency width height : Z) (keypoints : list KeyPoint.t)
    (descriptors : buffer) (fut' : list call) :
  let kept := erase_remove_if (near_border width height) keypoints in
  let sz := Z.of_nat (length kept) in
  let hw := hw_concur sz hardware_concurrency in
  sz < 2 ^ 31 -> 1 < hw -> (hw - 1) * chunk_size sz hw <= sz ->
  Permutation (dispatch_calls (schedule true hardware_concurrency sz)) fut' ->
  exists buf buf',
    snd (LATCH sinf cosf image stride false hardware_concurrency width height
           keypoints descriptors) = Some buf /\
    run_calls sinf cosf image stride fut' kept descriptors = Some buf' /\
    forall q, buf' q = buf q.
Proof.
  intros kept sz hw Hlen Hhw Hfit Hperm.
  destruct (run_calls_Permutation sinf cosf image stride _ fut' kept descriptors
              (schedule_in_vector hardware_concurrency (length kept) Hhw Hfit) Hperm)
    as (buf & buf' & Hrun & Hrun' & Heq).
  exists buf, buf'. split; [|split; [exact Hrun' | intros q; symmetry; apply Heq]].
  unfold LATCH. fold kept. rewrite (wrap32_small (Z.of_nat (length kept))) by (fold sz; lia).
  cbn [schedule call_start call_stride snd]. fold sz.
  rewrite <- Hrun. symmetry. apply run_schedule_fit; assumption.
Qed.

Lemma launch_order_irrelevant_witness :
  exists buf buf',
    snd (LATCH sin_at_zero cos_at_zero (image_dot 0) 200 false 4 1000 1000
           (replicate 64 kp_100) zero_memory) = Some buf /\
    run_calls sin_at_zero cos_at_zero (image_dot 0) 200
      [Call 48 16; Call 32 16; Call 16 16; Call 0 16]
      (erase_remove_if (near_border 1000 1000) (replicate 64 kp_100)) zero_memory
    = Some buf' /\
    forall q, buf' q = buf q.
Proof.
  assert (Hkept : erase_remove_if (near_border 1000 1000) (replicate 64 kp_100)
                  = replicate 64 kp_100) by (vm_compute; reflexivity).
  apply (launch_order_irrelevant sin_at_zero cos_at_zero (image_dot 0) 200 4 1000 1000
           (replicate 64 kp_100) zero_memory [Call 48 16; Call 32 16; Call 16 16; Call 0 16]).
  - vm_compute. reflexivity.
  - vm_compute. reflexivity.
  - vm_compute. discriminate.
  - rewrite Hkept.
    change (dispatch_calls (schedule true 4 (Z.of_nat (length (replicate 64 kp_100)))))
      with (rev [Call 48 16; Call 32 16; Call 16 16; Call 0 16]).
    symmetry. apply Permutation_rev.
Defined.

(** ** The entry point, end to end *)

Lemma filter_idempotent {A : Type} (f : A -> bool) (l : list A) :
  List.filter f (List.filter f l) = List.filter f l.
Proof.
  induction l as [|a l IH]; [reflexivity|]. cbn [List.filter].
  destruct (f a) eqn:Hf; [|exact IH]. cbn [List.filter]. rewrite Hf, IH. reflexivity.
Qed.

(** [a <= b] fails and neither is NaN: then [b < a]. *)
Lemma SFleb_false_ltb (a b : float) :
  SFleb a b = false -> F32.is_nan a = false -> F32.is_nan b = false -> SFltb b a = true.
Proof.
  intros Hle Ha Hb. unfold SFleb, SFltb in *. rewrite (SFcompare_antisym a b).
  destruct (SFcompare a b) as [[]|] eqn:Hc; try discriminate; [reflexivity|].
  destruct a, b; try discriminate; cbn in Hc; discriminate.
Qed.

Lemma LATCH_false_unfold (sinf cosf : float -> float) (image : image_t)
    (stride hardware_concurrency width height : Z) (keypoints : list KeyPoint.t)
    (descriptors : buffer) :
  let kept := List.filter (fun kp => negb (near_border width height kp)) keypoints in
  Z.of_nat (length kept) < 2 ^ 31 ->
  LATCH sinf cosf image stride false hardware_concurrency width height keypoints descriptors
  = (kept, _LATCH sinf cosf image stride 0 (Z.of_nat (length kept)) kept descriptors).
Proof.
  intros kept Hlen. unfold LATCH. rewrite erase_remove_if_filter.
  change (List.filter (kept_by (near_border width height)) keypoints) with kept.
  rewrite (wrap32_small (Z.of_nat (length kept))) by lia. reflexivity.
Qed.

(** Property X16.  [LATCH<false>] end to end.  It returns the key points that are
    not near the border, in their order, and writes the descriptor of
    the [i]-th of them to bytes [64 i .. 64 i + 63]: bit [b] of byte
    [f] is set exactly when the sum of triplet [8 f + b] is negative.
    Every other byte of the memory is left as it was. *)
Theorem single_thread_spec (sinf cosf : float -> float) (image : image_t)
    (stride hardware_concurrency width height : Z) (keypoints : list KeyPoint.t)
    (descriptors : buffer) :
  let kept := List.filter (fun kp => negb (near_border width height kp)) keypoints in
  Z.of_nat (length kept) < 2 ^ 31 ->
  exists buf,
    LATCH sinf cosf image stride false hardware_concurrency width height keypoints
      descriptors = (kept, Some buf) /\
    (forall (i : nat) pt f b, kept !! i = Some pt -> 0 <= f < 64 -> 0 <= b < 8 ->
       Z.testbit (buf (64 * Z.of_nat i + f)) b
       = (triplet_sum sinf cosf image stride pt (8 * f + b) <? 0)) /\
    (forall q, q < 0 \/ 64 * Z.of_nat (length kept) <= q -> buf q = descriptors q).
Proof.
  intros kept Hlen.
  destruct (_LATCH_spec sinf cosf image stride 0 (Z.of_nat (length kept)) kept descriptors)
    as (buf & Hrun & Hbuf); [lia | lia |].
  exists buf. split; [|split].
  - rewrite LATCH_false_unfold by exact Hlen. fold kept. rewrite Hrun. reflexivity.
  - intros i pt f b Hi Hf Hb. rewrite Hbuf.
    assert (Hlt : (i < length kept)%nat) by (eapply lookup_lt_Some; exact Hi).
    rewrite (descriptors_of_slot sinf cosf image stride kept 0 _ descriptors
               (Z.of_nat i) f pt); [apply descriptor_byte_testbit; lia | lia | | lia].
    unfold vector_at. destruct (Z.ltb_spec (Z.of_nat i) 0); [lia|].
    rewrite Nat2Z.id. exact Hi.
  - intros q Hq. rewrite Hbuf. apply descriptors_of_outside. lia.
Qed.

Lemma single_thread_spec_witness :
  exists buf,
    LATCH sin_at_zero cos_at_zero (image_dot 15891) 200 false 4 1000 1000 [kp_100]
      zero_memory
    = (List.filter (fun kp => negb (near_border 1000 1000 kp)) [kp_100], Some buf) /\
    (forall (i : nat) pt f b,
       List.filter (fun kp => negb (near_border 1000 1000 kp)) [kp_100] !! i = Some pt ->
       0 <= f < 64 -> 0 <= b < 8 ->
       Z.testbit (buf (64 * Z.of_nat i + f)) b
       = (triplet_sum sin_at_zero cos_at_zero (image_dot 15891) 200 pt (8 * f + b) <? 0)) /\
    (forall q,
       q < 0 \/
       64 * Z.of_nat (length (List.filter (fun kp => negb (near_border 1000 1000 kp))
                                [kp_100])) <= q ->
       buf q = zero_memory q).
Proof.
  apply (single_thread_spec sin_at_zero cos_at_zero (image_dot 15891) 200 4 1000 1000
           [kp_100] zero_memory).
  vm_compute. reflexivity.
Defined.

(** Property X17.  [LATCH<false>] is idempotent.  Called again on the key points
    and the memory that it returned, it removes no key point and leaves
    every byte as it is. *)
Theorem single_thread_idempotent (sinf cosf : float -> float) (image : image_t)
    (stride hardware_concurrency width height : Z) (keypoints : list KeyPoint.t)
    (descriptors : buffer) :
  let kept := List.filter (fun kp => negb (near_border width height kp)) keypoints in
  Z.of_nat (length kept) < 2 ^ 31 ->
  exists buf buf',
    LATCH sinf cosf image stride false hardware_concurrency width height keypoints
      descriptors = (kept, Some buf) /\
    LATCH sinf cosf image stride false hardware_concurrency width height kept buf
    = (kept, Some buf') /\
    forall q, buf' q = buf q.
Proof.
  intros kept Hlen.
  assert (Hkept : List.filter (fun kp => negb (near_border width height kp)) kept = kept)
    by apply filter_idempotent.
  destruct (_LATCH_spec sinf cosf image stride 0 (Z.of_nat (length kept)) kept descriptors)
    as (buf & Hrun & Hbuf); [lia | lia |].
  destruct (_LATCH_spec sinf cosf image stride 0 (Z.of_nat (length kept)) kept buf)
    as (buf' & Hrun' & Hbuf'); [lia | lia |].
  exists buf, buf'. split; [|split].
  - rewrite LATCH_false_unfold by exact Hlen. fold kept. rewrite Hrun. reflexivity.
  - rewrite LATCH_false_unfold by (rewrite Hkept; exact Hlen).
    rewrite Hkept, Hrun'. reflexivity.
  - intros q. rewrite Hbuf'. unfold descriptors_of.
    destruct ((64 * 0 <=? q) && (q <? 64 * (0 + Z.of_nat (length kept)))) eqn:Hin;
      [|reflexivity].
    destruct (vector_at kept (q / 64)) as [pt|] eqn:Hpt; [|reflexivity].
    rewrite Hbuf. unfold descriptors_of. rewrite Hin, Hpt. reflexivity.
Qed.

Lemma single_thread_idempotent_witness :
  exists buf buf',
    LATCH sin_at_zero cos_at_zero (image_dot 15891) 200 false 4 1000 1000 [kp_100; kp_nan]
      zero_memory
    = (List.filter (fun kp => negb (near_border 1000 1000 kp)) [kp_100; kp_nan], Some buf) /\
    LATCH sin_at_zero cos_at_zero (image_dot 15891) 200 false 4 1000 1000
      (List.filter (fun kp => negb (near_border 1000 1000 kp)) [kp_100; kp_nan]) buf
    = (List.filter (fun kp => negb (near_border 1000 1000 kp)) [kp_100; kp_nan], Some buf') /\
    forall q, buf' q = buf q.
Proof.
  apply (single_thread_idempotent sin_at_zero cos_at_zero (image_dot 15891) 200 4 1000 1000
           [kp_100; kp_nan] zero_memory).
  vm_compute. reflexivity.
Defined.

(** Property X18.  A key point that [LATCH] keeps and whose coordinates are not NaN
    lies strictly inside the margin: [36 < x < width - 36] and
    [36 < y < height - 36] as [float]s.  So an image that keeps such a
    key point is more than 72 pixels wide and high. *)
Theorem survivors_inside_margin (sinf cosf : float -> float) (image : image_t)
    (stride : Z) (multithread : bool) (hardware_concurrency width height : Z)
    (keypoints : list KeyPoint.t) (descriptors : buffer) (kp : KeyPoint.t) :
  In kp (fst (LATCH sinf cosf image stride multithread hardware_concurrency width height
                keypoints descriptors)) ->
  F32.is_nan (KeyPoint.x kp) = false -> F32.is_nan (KeyPoint.y kp) = false ->
  F32.lt (F32.of_Z 36) (KeyPoint.x kp) = true /\
  F32.lt (KeyPoint.x kp) (F32.of_Z (width - 36)) = true /\
  F32.lt (F32.of_Z 36) (KeyPoint.y kp) = true /\
  F32.lt (KeyPoint.y kp) (F32.of_Z (height - 36)) = true /\
  72 < width /\ 72 < height.
Proof.
  intros Hin Hx Hy. rewrite LATCH_keypoints in Hin.
  apply filter_In in Hin. destruct Hin as [_ Hkeep].
  apply negb_true_iff in Hkeep. unfold near_border in Hkeep.
  apply orb_false_iff in Hkeep. destruct Hkeep as [Hkeep Hyh].
  apply orb_false_iff in Hkeep. destruct Hkeep as [Hkeep Hxw].
  apply orb_false_iff in Hkeep. destruct Hkeep as [Hx36 Hy36].
  unfold F32.le, F32.ge in *. unfold F32.lt.
  repeat split.
  - apply SFleb_false_ltb; [exact Hx36 | exact Hx | apply of_Z_not_nan].
  - apply SFleb_false_ltb; [exact Hxw | apply of_Z_not_nan | exact Hx].
  - apply SFleb_false_ltb; [exact Hy36 | exact Hy | apply of_Z_not_nan].
  - apply SFleb_false_ltb; [exact Hyh | apply of_Z_not_nan | exact Hy].
  - destruct (Z.lt_ge_cases 72 width) as [|Hsmall]; [assumption | exfalso].
    assert (Hb : width - 36 <= 36) by lia.
    destruct (le_36_or_ge (KeyPoint.x kp) (F32.of_Z (width - 36)) Hx
                (of_Z_at_most_36 _ Hb)) as [H|H]; unfold F32.le, F32.ge in H; congruence.
  - destruct (Z.lt_ge_cases 72 height) as [|Hsmall]; [assumption | exfalso].
    assert (Hb : height - 36 <= 36) by lia.
    destruct (le_36_or_ge (KeyPoint.y kp) (F32.of_Z (height - 36)) Hy
                (of_Z_at_most_36 _ Hb)) as [H|H]; unfold F32.le, F32.ge in H; congruence.
Qed.

Lemma survivors_inside_margin_witness :
  F32.lt (F32.of_Z 36) (KeyPoint.x kp_100) = true /\
  F32.lt (KeyPoint.x kp_100) (F32.of_Z (1000 - 36)) = true /\
  F32.lt (F32.of_Z 36) (KeyPoint.y kp_100) = true /\
  F32.lt (KeyPoint.y kp_100) (F32.of_Z (1000 - 36)) = true /\
  72 < 1000 /\ 72 < 1000.
Proof.
  apply (survivors_inside_margin sin_at_zero cos_at_zero (image_dot 0) 200 false 4
           1000 1000 [kp_100] zero_memory kp_100).
  - rewrite LATCH_keypoints. vm_compute. left. reflexivity.
  - reflexivity.
  - reflexivity.
Defined.

(** Property X19.  The margin of 36 does not keep the windows inside the image.
    The key point (50, 63.75) of scale 14 survives the filter of a
    100 x 100 image; the anchor of its first triplet is moved down by
    the full 32 to the centre (18, 96), whose window has the rows
    93 .. 100.  So the descriptor depends on row 100, which the image
    does not have: two memories that agree on all 100 * 100 bytes of
    the image give different sums and a different first bit. *)
Theorem window_leaves_image (sinf cosf : float -> float) :
  sinf (S754_zero false) = S754_zero false ->
  cosf (S754_zero false) = F32.of_Z 1 ->
  near_border 100 100 kp_low = false /\
  sample_center sinf cosf kp_low (triplets_at 1) (triplets_at 4) = (18, 96) /\
  (forall p, 0 <= p < 100 * 100 -> image_dot 7040 p = image_dots 7040 10018 p) /\
  triplet_sum sinf cosf (image_dot 7040) 100 kp_low 0 = 65025 /\
  triplet_sum sinf cosf (image_dots 7040 10018) 100 kp_low 0 = - 65025 /\
  exists buf buf',
    _LATCH sinf cosf (image_dot 7040) 100 0 1 [kp_low] zero_memory = Some buf /\
    _LATCH sinf cosf (image_dots 7040 10018) 100 0 1 [kp_low] zero_memory = Some buf' /\
    Z.testbit (buf 0) 0 = false /\ Z.testbit (buf' 0) 0 = true.
Proof.
  intros Hs Hc.
  assert (Hregs : load_regs sinf cosf kp_low = load_regs sin_at_zero cos_at_zero kp_low)
    by (apply load_regs_libm; assumption).
  assert (H1 : triplet_sum sinf cosf (image_dot 7040) 100 kp_low 0 = 65025)
    by (unfold triplet_sum; rewrite Hregs; vm_compute; reflexivity).
  assert (H2 : triplet_sum sinf cosf (image_dots 7040 10018) 100 kp_low 0 = - 65025)
    by (unfold triplet_sum; rewrite Hregs; vm_compute; reflexivity).
  split; [vm_compute; reflexivity|].
  split.
  { unfold sample_center. change (KeyPoint.angle kp_low) with (S754_zero false).
    rewrite Hs, Hc. vm_compute. reflexivity. }
  split.
  { intros p Hp. unfold image_dot, image_dots.
    destruct (Z.eqb_spec p 10018); [lia|]. rewrite orb_false_r. reflexivity. }
  split; [exact H1|]. split; [exact H2|].
  destruct (_LATCH_spec sinf cosf (image_dot 7040) 100 0 1 [kp_low] zero_memory
              ltac:(lia) ltac:(cbn; lia)) as (buf & Hrun & Hbuf).
  destruct (_LATCH_spec sinf cosf (image_dots 7040 10018) 100 0 1 [kp_low] zero_memory
              ltac:(lia) ltac:(cbn; lia)) as (buf' & Hrun' & Hbuf').
  exists buf, buf'. split; [exact Hrun|]. split; [exact Hrun'|].
  pose proof (Hbuf (64 * 0 + 0)) as H0. pose proof (Hbuf' (64 * 0 + 0)) as H0'.
  rewrite (descriptors_of_slot _ _ _ _ _ _ _ _ 0 0 kp_low) in H0
    by first [reflexivity | lia].
  rewrite (descriptors_of_slot _ _ _ _ _ _ _ _ 0 0 kp_low) in H0'
    by first [reflexivity | lia].
  change (64 * 0 + 0) with 0 in H0, H0'. rewrite H0, H0'.
  rewrite !descriptor_byte_testbit by lia.
  change (8 * 0 + 0) with 0. rewrite H1, H2. split; reflexivity.
Qed.

Lemma window_leaves_image_witness :
  triplet_sum sin_at_zero cos_at_zero (image_dots 7040 10018) 100 kp_low 0 = - 65025.
Proof.
  apply (window_leaves_image sin_at_zero cos_at_zero); reflexivity.
Defined.

(** Property X20.  On a memory that holds one value at every address, the pixels,
    the padding of the rows and whatever surrounds the image alike,
    every triplet's sum is exactly 0, whatever the key point's position,
    scale and angle, so every bit is 0 and every descriptor the worker
    writes is 64 zero bytes. *)
Theorem constant_image_zero_descriptor (sinf cosf : float -> float) (c : byte) (stride : Z)
    (start thread_stride : Z) (keypoints : list KeyPoint.t) (descriptors : buffer) :
  0 <= start -> start + thread_stride <= Z.of_nat (length keypoints) ->
  (forall xints yints, patch_sum (fun _ => c) stride xints yints = 0) /\
  (forall pt t, triplet_sum sinf cosf (fun _ => c) stride pt t = 0) /\
  (forall pt t bit, 0 <= bit <= 7 ->
     triplet_mask (fun _ => c) stride (load_regs sinf cosf pt) (6 * t) bit = 0) /\
  exists buf,
    _LATCH sinf cosf (fun _ => c) stride start thread_stride keypoints descriptors = Some buf /\
    forall i f, start <= i < start + thread_stride -> 0 <= f < 64 -> buf (64 * i + f) = 0.
Proof.
  intros Hstart Hend.
  assert (Hssd : forall ax ay bx by_ cx cy,
            ssd_difference (fun _ => c) stride ax ay bx by_ cx cy = 0).
  { intros. unfold ssd_difference. apply sumZ_zero. intros dy _.
    apply sumZ_zero. intros dx _. unfold window_term, window_pixel, pixel. lia. }
  assert (Hsum : forall pt t, triplet_sum sinf cosf (fun _ => c) stride pt t = 0).
  { intros pt t. unfold triplet_sum, centers_ssd.
    destruct (sample_centers _ _) as [xs ys]. apply Hssd. }
  split; [intros; rewrite patch_sum_exact; apply Hssd|].
  split; [exact Hsum|].
  split.
  { intros pt t bit Hbit. rewrite triplet_mask_spec by exact Hbit.
    fold (triplet_sum sinf cosf (fun _ => c) stride pt t). rewrite Hsum. reflexivity. }
  destruct (_LATCH_spec sinf cosf (fun _ => c) stride start thread_stride keypoints
              descriptors Hstart Hend) as (buf & Hrun & Hbuf).
  exists buf. split; [exact Hrun|].
  intros i f Hi Hf.
  destruct (vector_at_Some keypoints i ltac:(lia)) as [pt Hpt].
  rewrite Hbuf, (descriptors_of_slot _ _ _ _ _ _ _ _ i f pt) by assumption.
  unfold descriptor_byte. apply sumZ_zero. intros b _. rewrite Hsum. reflexivity.
Qed.

Lemma constant_image_zero_descriptor_witness :
  exists buf,
    _LATCH sin_at_zero cos_at_zero (fun _ => Byte.x7f) 200 0 1 [kp_100] (fun _ => 255)
    = Some buf /\
    forall i f, 0 <= i < 0 + 1 -> 0 <= f < 64 -> buf (64 * i + f) = 0.
Proof.
  apply (constant_image_zero_descriptor sin_at_zero cos_at_zero Byte.x7f 200 0 1
           [kp_100] (fun _ => 255)); cbn; lia.
Defined.
